(** * Sandbox search adapter (OpenSearch): a shallow embedding

    The development follows [SandboxOpenSearchAdapter]
    (apps/api/src/sandbox): the filter compiler [buildSearchQuery], the
    sort resolver [getSortFieldMapping], the query executor's request
    [buildSearchBody], the result mapper [processSearchResponse] and the
    index lifecycle [createIndex].  The JavaScript library functions the
    adapter calls ([JSON.stringify], [JSON.parse], [Buffer] with its utf8
    and base64 encodings) are modelled in the modules [Base64], [Utf8] and
    [Json].  Calls to the logger change neither results nor control flow
    and are left out. *)

From Stdlib Require Import ZArith NArith List String Ascii Bool Lia.
Import ListNotations.

Set Implicit Arguments.
Set Warnings "-register-all".

(** ** JavaScript values *)

(** A JavaScript string is a sequence of UTF-16 code units. *)
Definition jsstring := list N.

(** A string literal of the source (ASCII). *)
Definition js (s : string) : jsstring :=
  map N_of_ascii (list_ascii_of_string s).

Fixpoint jsstring_eqb (a b : jsstring) : bool :=
  match a, b with
  | [], [] => true
  | x :: a', y :: b' => N.eqb x y && jsstring_eqb a' b'
  | _, _ => false
  end.

(** A number is kept as an exact decimal [mant * 10 ^ exp10]; an integer
    [n] is [Num n 0].  A double is one such decimal, the shortest that
    denotes it; the decimals that denote no double are not told apart
    from the doubles nearest to them, so the embedding of values is exact
    on the integers up to 2^53 and on the decimals of at most 15
    significant digits. *)
Record number := Num { mant : Z; exp10 : Z }.

(** ** Doubles that hold an integer

    A count such as [limit] is a JavaScript number, a double, that holds
    an integer, and is kept as that integer.  [roundDouble z] is the
    double nearest to the integer [z] (below 2^1024 in magnitude), a tie
    going to the double with the even significand; [addDouble a b] is
    [a + b] as JavaScript computes it. *)
Definition roundDouble (z : Z) : Z :=
  let u := (2 ^ Z.max 0 (Z.log2 (Z.abs z) - 52))%Z in
  let q := (z / u)%Z in
  let r := (z mod u)%Z in
  if (2 * r <? u)%Z then (q * u)%Z
  else if (u <? 2 * r)%Z then ((q + 1) * u)%Z
  else if Z.even q then (q * u)%Z
  else ((q + 1) * u)%Z.

Definition addDouble (a b : Z) : Z := roundDouble (a + b).

Inductive JSValue :=
| JUndefined
| JNull
| JBool (b : bool)
| JNum (n : number)
| JStr (s : jsstring)
| JArr (xs : list JSValue)
| JObj (props : list (jsstring * JSValue)).

(** A [Date] is observed through [toISOString] only: a valid date has an
    ISO text, an invalid one makes [toISOString] throw a RangeError. *)
Inductive JSDate :=
| DateValid (iso : jsstring)
| DateInvalid.

(** ** Thrown values and results *)

(** [new Error(msg)] is [JsError msg]; a [ResponseError] of the OpenSearch
    client carries [body?.error?.type]. *)
Inductive JSError :=
| JsError (msg : jsstring)
| RangeError (msg : jsstring)
| TypeError (msg : jsstring)
| BadRequestException (msg : jsstring)
| ResponseError (body_error_type : option jsstring).

Inductive result (A : Type) :=
| Ok (a : A)
| Throw (e : JSError).
Arguments Ok {A} a.
Arguments Throw {A} e.

Definition bind {A B} (r : result A) (k : A -> result B) : result B :=
  match r with
  | Ok a => k a
  | Throw e => Throw e
  end.

Declare Scope js_scope.
Delimit Scope js_scope with js.
Notation "x <- c ;; k" := (bind c (fun x => k))
  (at level 61, c at next level, right associativity) : js_scope.

Definition toISOString (d : JSDate) : result jsstring :=
  match d with
  | DateValid iso => Ok iso
  | DateInvalid => Throw (RangeError (js "Invalid time value"))
  end.

(** ** The search filters and the query DSL *)

(** [labels] holds the entries of the object in the order of
    [Object.entries]. *)
Record SandboxSearchFilters := {
  id : option jsstring;
  name : option jsstring;
  labels : option (list (jsstring * jsstring));
  includeErroredDeleted : option bool;
  states : option (list jsstring);
  snapshots : option (list jsstring);
  regionIds : option (list jsstring);
  minCpu : option number;
  maxCpu : option number;
  minMemoryGiB : option number;
  maxMemoryGiB : option number;
  minDiskGiB : option number;
  maxDiskGiB : option number;
  isPublic : option bool;
  isRecoverable : option bool;
  createdAtAfter : option JSDate;
  createdAtBefore : option JSDate;
  lastEventAfter : option JSDate;
  lastEventBefore : option JSDate;
  sort : option jsstring;
  order : option jsstring
}.

(** The clauses of OpenSearch's query DSL the adapter builds.  In a range
    clause a bound is a property of the object only when it was spread
    into it. *)
Inductive QueryContainer :=
| QTerm (field : jsstring) (value : JSValue)
| QPrefix (field : jsstring) (value : jsstring)
| QTerms (field : jsstring) (values : list jsstring)
| QRange (field : jsstring) (gte lte : option JSValue)
| QBool (must : list QueryContainer) (must_not : option (list QueryContainer)).

Definition query_must (q : QueryContainer) : list QueryContainer :=
  match q with
  | QBool must _ => must
  | _ => []
  end.

Definition query_must_not (q : QueryContainer) : option (list QueryContainer) :=
  match q with
  | QBool _ must_not => must_not
  | _ => None
  end.

(** [filters?.f] *)
Definition opt_chain {A B} (filters : option A) (f : A -> option B) : option B :=
  match filters with
  | Some x => f x
  | None => None
  end.
Notation "filters ?. f" := (opt_chain filters f) (at level 9, f at level 0, format "filters ?. f").

(** Truthiness of an optional boolean, string and array length. *)
Definition truthy_bool (b : option bool) : bool :=
  match b with
  | Some true => true
  | _ => false
  end.

Definition truthy_string (s : option jsstring) : bool :=
  match s with
  | Some (_ :: _) => true
  | _ => false
  end.

Definition truthy_length {A} (xs : option (list A)) : bool :=
  match xs with
  | Some (_ :: _) => true
  | _ => false
  end.

Definition defined {A} (x : option A) : bool :=
  match x with
  | Some _ => true
  | None => false
  end.

(** The value of an optional, or [d]: a parameter with its default, or a
    property read where a guard has shown it present. *)
Definition the {A} (d : A) (x : option A) : A :=
  match x with
  | Some a => a
  | None => d
  end.

(** [a.push(x)] *)
Definition push {A} (a : list A) (x : A) : list A := a ++ [x].

(** [...(d && { bound: d.toISOString() })] *)
Definition spread_date (d : option JSDate) : result (option JSValue) :=
  match d with
  | Some d' => (s <- toISOString d' ;; Ok (Some (JStr s)))%js
  | None => Ok None
  end.

(** [...(n !== undefined && { bound: n })] *)
Definition spread_number (n : option number) : option JSValue :=
  match n with
  | Some n' => Some (JNum n')
  | None => None
  end.

Section FilterCompiler.

(** The members [SandboxState.ERROR] and [SandboxDesiredState.DESTROYED]
    of the enums, and [String.prototype.toLowerCase]. *)
Variable SandboxState_ERROR : jsstring.
Variable SandboxDesiredState_DESTROYED : jsstring.
Variable toLowerCase : jsstring -> jsstring.

Definition erroredDeleted : QueryContainer :=
  QBool [QTerm (js "state") (JStr SandboxState_ERROR);
         QTerm (js "desiredState") (JStr SandboxDesiredState_DESTROYED)] None.

(** [`labels.${key}`] *)
Definition labelField (key : jsstring) : jsstring := js "labels." ++ key.

Definition buildSearchQuery (organizationId : jsstring)
    (filters : option SandboxSearchFilters) : result QueryContainer :=
  let must := [] in
  let mustNot := [] in
  let must := push must (QTerm (js "organizationId") (JStr organizationId)) in
  let mustNot :=
    if negb (truthy_bool filters?.includeErroredDeleted)
    then push mustNot erroredDeleted else mustNot in
  let must :=
    if truthy_string filters?.id
    then push must (QPrefix (js "id") (toLowerCase (the [] filters?.id))) else must in
  let must :=
    if truthy_string filters?.name
    then push must (QPrefix (js "name") (toLowerCase (the [] filters?.name))) else must in
  let must :=
    if truthy_length filters?.states
    then push must (QTerms (js "state") (the [] filters?.states)) else must in
  let must :=
    if truthy_length filters?.snapshots
    then push must (QTerms (js "snapshot") (the [] filters?.snapshots)) else must in
  let must :=
    if truthy_length filters?.regionIds
    then push must (QTerms (js "region") (the [] filters?.regionIds)) else must in
  let must :=
    if defined filters?.minCpu || defined filters?.maxCpu
    then push must (QRange (js "cpu")
                      (spread_number filters?.minCpu) (spread_number filters?.maxCpu))
    else must in
  let must :=
    if defined filters?.minMemoryGiB || defined filters?.maxMemoryGiB
    then push must (QRange (js "mem")
                      (spread_number filters?.minMemoryGiB)
                      (spread_number filters?.maxMemoryGiB))
    else must in
  let must :=
    if defined filters?.minDiskGiB || defined filters?.maxDiskGiB
    then push must (QRange (js "disk")
                      (spread_number filters?.minDiskGiB)
                      (spread_number filters?.maxDiskGiB))
    else must in
  let must :=
    match filters?.isPublic with
    | Some b => push must (QTerm (js "public") (JBool b))
    | None => must
    end in
  let must :=
    match filters?.isRecoverable with
    | Some b => push must (QTerm (js "recoverable") (JBool b))
    | None => must
    end in
  (must <-
     (if defined filters?.createdAtAfter || defined filters?.createdAtBefore
      then gte <- spread_date filters?.createdAtAfter ;;
           lte <- spread_date filters?.createdAtBefore ;;
           Ok (push must (QRange (js "createdAt") gte lte))
      else Ok must) ;;
   must <-
     (if defined filters?.lastEventAfter || defined filters?.lastEventBefore
      then gte <- spread_date filters?.lastEventAfter ;;
           lte <- spread_date filters?.lastEventBefore ;;
           Ok (push must (QRange (js "lastActivityAt") gte lte))
      else Ok must) ;;
   let must :=
     match filters?.labels with
     | Some entries =>
         fold_left (fun must kv => push must (QTerm (labelField (fst kv)) (JStr (snd kv))))
                   entries must
     | None => must
     end in
   Ok (QBool must (match mustNot with [] => None | _ => Some mustNot end)))%js.

End FilterCompiler.

(** *** The clauses rule by rule

    The same [must] list written as the concatenation of what each rule
    contributes; [buildSearchQuery_clauses] below relates the two. *)

Definition when {A} (c : bool) (x : A) : list A := if c then [x] else [].

Definition dateRange (field : jsstring) (after before : option JSDate)
    : result (list QueryContainer) :=
  if defined after || defined before
  then (gte <- spread_date after ;;
        lte <- spread_date before ;;
        Ok [QRange field gte lte])%js
  else Ok [].

Definition numberRange (field : jsstring) (lo hi : option number) : list QueryContainer :=
  when (defined lo || defined hi) (QRange field (spread_number lo) (spread_number hi)).

Definition boolTerm (field : jsstring) (b : option bool) : list QueryContainer :=
  match b with
  | Some b' => [QTerm field (JBool b')]
  | None => []
  end.

Definition labelClauses (entries : option (list (jsstring * jsstring))) : list QueryContainer :=
  match entries with
  | Some kvs => map (fun kv => QTerm (labelField (fst kv)) (JStr (snd kv))) kvs
  | None => []
  end.

Definition leadingClauses (toLowerCase : jsstring -> jsstring)
    (organizationId : jsstring) (filters : option SandboxSearchFilters)
    : list QueryContainer :=
  [QTerm (js "organizationId") (JStr organizationId)]
  ++ when (truthy_string filters?.id) (QPrefix (js "id") (toLowerCase (the [] filters?.id)))
  ++ when (truthy_string filters?.name) (QPrefix (js "name") (toLowerCase (the [] filters?.name)))
  ++ when (truthy_length filters?.states) (QTerms (js "state") (the [] filters?.states))
  ++ when (truthy_length filters?.snapshots) (QTerms (js "snapshot") (the [] filters?.snapshots))
  ++ when (truthy_length filters?.regionIds) (QTerms (js "region") (the [] filters?.regionIds))
  ++ numberRange (js "cpu") filters?.minCpu filters?.maxCpu
  ++ numberRange (js "mem") filters?.minMemoryGiB filters?.maxMemoryGiB
  ++ numberRange (js "disk") filters?.minDiskGiB filters?.maxDiskGiB
  ++ boolTerm (js "public") filters?.isPublic
  ++ boolTerm (js "recoverable") filters?.isRecoverable.

Definition mustNotOf (ERROR DESTROYED : jsstring) (filters : option SandboxSearchFilters)
    : option (list QueryContainer) :=
  if truthy_bool filters?.includeErroredDeleted
  then None else Some [erroredDeleted ERROR DESTROYED].

(** What the numeric range rule is to contribute for one field: nothing
    without bounds, else one range clause with exactly the bounds given. *)
Definition rangeClauseFor (field : jsstring) (lo hi : option number) : list QueryContainer :=
  match lo, hi with
  | None, None => []
  | _, _ => [QRange field (option_map JNum lo) (option_map JNum hi)]
  end.

(** The range clauses of a [must] list that constrain [field]. *)
Definition rangeClausesOn (field : jsstring) (must : list QueryContainer)
    : list QueryContainer :=
  filter (fun c => match c with
                   | QRange f _ _ => jsstring_eqb f field
                   | _ => false
                   end) must.

(** No date of the filters is an invalid [Date]. *)
Definition datesValid (filters : option SandboxSearchFilters) : Prop :=
  filters?.createdAtAfter <> Some DateInvalid /\
  filters?.createdAtBefore <> Some DateInvalid /\
  filters?.lastEventAfter <> Some DateInvalid /\
  filters?.lastEventBefore <> Some DateInvalid.

(** Filters with one property replaced. *)
Definition with_id (v : option jsstring) (f : SandboxSearchFilters) :=
  {| id := v; name := name f; labels := labels f;
     includeErroredDeleted := includeErroredDeleted f; states := states f;
     snapshots := snapshots f; regionIds := regionIds f;
     minCpu := minCpu f; maxCpu := maxCpu f;
     minMemoryGiB := minMemoryGiB f; maxMemoryGiB := maxMemoryGiB f;
     minDiskGiB := minDiskGiB f; maxDiskGiB := maxDiskGiB f;
     isPublic := isPublic f; isRecoverable := isRecoverable f;
     createdAtAfter := createdAtAfter f; createdAtBefore := createdAtBefore f;
     lastEventAfter := lastEventAfter f; lastEventBefore := lastEventBefore f;
     sort := sort f; order := order f |}.

Definition with_name (v : option jsstring) (f : SandboxSearchFilters) :=
  {| id := id f; name := v; labels := labels f;
     includeErroredDeleted := includeErroredDeleted f; states := states f;
     snapshots := snapshots f; regionIds := regionIds f;
     minCpu := minCpu f; maxCpu := maxCpu f;
     minMemoryGiB := minMemoryGiB f; maxMemoryGiB := maxMemoryGiB f;
     minDiskGiB := minDiskGiB f; maxDiskGiB := maxDiskGiB f;
     isPublic := isPublic f; isRecoverable := isRecoverable f;
     createdAtAfter := createdAtAfter f; createdAtBefore := createdAtBefore f;
     lastEventAfter := lastEventAfter f; lastEventBefore := lastEventBefore f;
     sort := sort f; order := order f |}.

Definition with_states (v : option (list jsstring)) (f : SandboxSearchFilters) :=
  {| id := id f; name := name f; labels := labels f;
     includeErroredDeleted := includeErroredDeleted f; states := v;
     snapshots := snapshots f; regionIds := regionIds f;
     minCpu := minCpu f; maxCpu := maxCpu f;
     minMemoryGiB := minMemoryGiB f; maxMemoryGiB := maxMemoryGiB f;
     minDiskGiB := minDiskGiB f; maxDiskGiB := maxDiskGiB f;
     isPublic := isPublic f; isRecoverable := isRecoverable f;
     createdAtAfter := createdAtAfter f; createdAtBefore := createdAtBefore f;
     lastEventAfter := lastEventAfter f; lastEventBefore := lastEventBefore f;
     sort := sort f; order := order f |}.

Definition with_snapshots (v : option (list jsstring)) (f : SandboxSearchFilters) :=
  {| id := id f; name := name f; labels := labels f;
     includeErroredDeleted := includeErroredDeleted f; states := states f;
     snapshots := v; regionIds := regionIds f;
     minCpu := minCpu f; maxCpu := maxCpu f;
     minMemoryGiB := minMemoryGiB f; maxMemoryGiB := maxMemoryGiB f;
     minDiskGiB := minDiskGiB f; maxDiskGiB := maxDiskGiB f;
     isPublic := isPublic f; isRecoverable := isRecoverable f;
     createdAtAfter := createdAtAfter f; createdAtBefore := createdAtBefore f;
     lastEventAfter := lastEventAfter f; lastEventBefore := lastEventBefore f;
     sort := sort f; order := order f |}.

Definition with_regionIds (v : option (list jsstring)) (f : SandboxSearchFilters) :=
  {| id := id f; name := name f; labels := labels f;
     includeErroredDeleted := includeErroredDeleted f; states := states f;
     snapshots := snapshots f; regionIds := v;
     minCpu := minCpu f; maxCpu := maxCpu f;
     minMemoryGiB := minMemoryGiB f; maxMemoryGiB := maxMemoryGiB f;
     minDiskGiB := minDiskGiB f; maxDiskGiB := maxDiskGiB f;
     isPublic := isPublic f; isRecoverable := isRecoverable f;
     createdAtAfter := createdAtAfter f; createdAtBefore := createdAtBefore f;
     lastEventAfter := lastEventAfter f; lastEventBefore := lastEventBefore f;
     sort := sort f; order := order f |}.

(** ** [Buffer]: base64

    [buf.toString('base64')] and [Buffer.from(text, 'base64')] on a
    buffer given as its list of bytes.  The shifts and masks of the
    encoding are written with division and remainder by powers of two. *)

Module Base64.

Local Open Scope N_scope.

Definition alphabet : jsstring :=
  js "ABCDEFGHIJKLMNOPQRSTUVWXYZabcdefghijklmnopqrstuvwxyz0123456789+/".

(** The pad character [=]. *)
Definition pad : N := 61.

Definition char (sextet : N) : N := nth (N.to_nat sextet) alphabet pad.

Fixpoint encode (bytes : list N) : jsstring :=
  match bytes with
  | [] => []
  | [a] => [char (a / 4); char (a mod 4 * 16); pad; pad]
  | [a; b] => [char (a / 4); char (a mod 4 * 16 + b / 16); char (b mod 16 * 4); pad]
  | a :: b :: c :: rest =>
      char (a / 4) :: char (a mod 4 * 16 + b / 16)
        :: char (b mod 16 * 4 + c / 64) :: char (c mod 64) :: encode rest
  end.

(** The sextet of a character; the decoder takes the standard and the
    URL-safe alphabet alike. *)
Definition value (c : N) : option N :=
  if (65 <=? c) && (c <=? 90) then Some (c - 65)
  else if (97 <=? c) && (c <=? 122) then Some (c - 71)
  else if (48 <=? c) && (c <=? 57) then Some (c + 4)
  else if (c =? 43) || (c =? 45) then Some 62
  else if (c =? 47) || (c =? 95) then Some 63
  else None.

(** Node's decoder is forgiving: it skips every character outside the
    alphabets and stops at the first pad character. *)
Fixpoint sextets (text : jsstring) : list N :=
  match text with
  | [] => []
  | c :: text' =>
      if c =? pad then []
      else match value c with
           | Some v => v :: sextets text'
           | None => sextets text'
           end
  end.

Fixpoint bytes_of (ss : list N) : list N :=
  match ss with
  | s1 :: s2 :: s3 :: s4 :: rest =>
      (s1 * 4 + s2 / 16) :: (s2 mod 16 * 16 + s3 / 4) :: (s3 mod 4 * 64 + s4)
        :: bytes_of rest
  | [s1; s2; s3] => [s1 * 4 + s2 / 16; s2 mod 16 * 16 + s3 / 4]
  | [s1; s2] => [s1 * 4 + s2 / 16]
  | _ => []
  end.

Definition decode (text : jsstring) : list N := bytes_of (sextets text).

End Base64.

(** ** [Buffer]: utf8

    [Buffer.from(text)] encodes the code points of a string, a surrogate
    without its partner as U+FFFD; [buf.toString()] decodes, putting
    U+FFFD for every maximal ill-formed part. *)

Module Utf8.

Local Open Scope N_scope.

Definition is_high (c : N) : bool := (0xD800 <=? c) && (c <=? 0xDBFF).
Definition is_low (c : N) : bool := (0xDC00 <=? c) && (c <=? 0xDFFF).

Definition code_point (hi lo : N) : N := 0x10000 + (hi - 0xD800) * 1024 + (lo - 0xDC00).

Definition code_units (cp : N) : jsstring :=
  if cp <? 0x10000 then [cp]
  else [0xD800 + (cp - 0x10000) / 1024; 0xDC00 + (cp - 0x10000) mod 1024].

Definition replacement : list N := [0xEF; 0xBF; 0xBD].

Definition encode_code_point (cp : N) : list N :=
  if cp <? 0x80 then [cp]
  else if cp <? 0x800 then [0xC0 + cp / 64; 0x80 + cp mod 64]
  else if cp <? 0x10000 then
    [0xE0 + cp / 4096; 0x80 + cp / 64 mod 64; 0x80 + cp mod 64]
  else
    [0xF0 + cp / 262144; 0x80 + cp / 4096 mod 64; 0x80 + cp / 64 mod 64; 0x80 + cp mod 64].

Fixpoint encode (text : jsstring) : list N :=
  match text with
  | [] => []
  | c :: text' =>
      if is_high c then
        match text' with
        | d :: text'' =>
            if is_low d then encode_code_point (code_point c d) ++ encode text''
            else replacement ++ encode text'
        | [] => replacement
        end
      else if is_low c then replacement ++ encode text'
      else encode_code_point c ++ encode text'
  end.

Definition within (lo hi b : N) : bool := (lo <=? b) && (b <=? hi).

(** A continuation byte. *)
Definition trail (b : N) : bool := within 0x80 0xBF b.

Fixpoint decode (bytes : list N) : jsstring :=
  match bytes with
  | [] => []
  | b1 :: r1 =>
      if b1 <? 0x80 then b1 :: decode r1
      else if within 0xC2 0xDF b1 then
        match r1 with
        | b2 :: r2 =>
            if trail b2 then ((b1 - 0xC0) * 64 + (b2 - 0x80)) :: decode r2
            else 0xFFFD :: decode r1
        | [] => [0xFFFD]
        end
      else if within 0xE0 0xEF b1 then
        let lo := if b1 =? 0xE0 then 0xA0 else 0x80 in
        let hi := if b1 =? 0xED then 0x9F else 0xBF in
        match r1 with
        | b2 :: r2 =>
            if within lo hi b2 then
              match r2 with
              | b3 :: r3 =>
                  if trail b3
                  then ((b1 - 0xE0) * 4096 + (b2 - 0x80) * 64 + (b3 - 0x80)) :: decode r3
                  else 0xFFFD :: decode r2
              | [] => [0xFFFD]
              end
            else 0xFFFD :: decode r1
        | [] => [0xFFFD]
        end
      else if within 0xF0 0xF4 b1 then
        let lo := if b1 =? 0xF0 then 0x90 else 0x80 in
        let hi := if b1 =? 0xF4 then 0x8F else 0xBF in
        match r1 with
        | b2 :: r2 =>
            if within lo hi b2 then
              match r2 with
              | b3 :: r3 =>
                  if trail b3 then
                    match r3 with
                    | b4 :: r4 =>
                        if trail b4
                        then code_units ((b1 - 0xF0) * 262144 + (b2 - 0x80) * 4096
                                         + (b3 - 0x80) * 64 + (b4 - 0x80))
                               ++ decode r4
                        else 0xFFFD :: decode r3
                    | [] => [0xFFFD]
                    end
                  else 0xFFFD :: decode r2
              | [] => [0xFFFD]
              end
            else 0xFFFD :: decode r1
        | [] => [0xFFFD]
        end
      else 0xFFFD :: decode r1
  end.

End Utf8.

(** ** [JSON.stringify] and [JSON.parse] *)

Module Json.

Local Open Scope N_scope.

(** *** Writing *)

Definition hex_digit (n : N) : N := if n <? 10 then 48 + n else 87 + n.

(** [\uXXXX], in lower-case hexadecimal. *)
Definition unicode_escape (c : N) : jsstring :=
  [92; 117; hex_digit (c / 4096); hex_digit (c / 256 mod 16);
   hex_digit (c / 16 mod 16); hex_digit (c mod 16)].

(** One code unit that is no half of a surrogate pair. *)
Definition quote_unit (c : N) : jsstring :=
  if c =? 8 then [92; 98]
  else if c =? 9 then [92; 116]
  else if c =? 10 then [92; 110]
  else if c =? 12 then [92; 102]
  else if c =? 13 then [92; 114]
  else if c =? 34 then [92; 34]
  else if c =? 92 then [92; 92]
  else if (c <? 32) || Utf8.is_high c || Utf8.is_low c then unicode_escape c
  else [c].

(** QuoteJSONString without the enclosing quotes: a surrogate pair is
    copied, a surrogate on its own is escaped. *)
Fixpoint quote_units (text : jsstring) : jsstring :=
  match text with
  | [] => []
  | c :: text' =>
      if Utf8.is_high c then
        match text' with
        | d :: text'' =>
            if Utf8.is_low d then c :: d :: quote_units text''
            else unicode_escape c ++ quote_units text'
        | [] => unicode_escape c
        end
      else quote_unit c ++ quote_units text'
  end.

Definition quote (text : jsstring) : jsstring := 34 :: quote_units text ++ [34].

(** The decimal digits of [n], most significant first. *)
Fixpoint digits (fuel : nat) (n : N) : list N :=
  match fuel with
  | O => []
  | S fuel' => if n <? 10 then [n] else digits fuel' (n / 10) ++ [n mod 10]
  end.

Definition decimal (n : N) : jsstring :=
  map (N.add 48) (digits (S (N.to_nat (N.log2 n))) n).

Definition integer (z : Z) : jsstring :=
  if (z <? 0)%Z then 45 :: decimal (Z.abs_N z) else decimal (Z.abs_N z).

(** The digits [ds] without the zeros they end in, and the number of
    these zeros. *)
Fixpoint significant (ds : jsstring) : jsstring * nat :=
  match ds with
  | [] => ([], O)
  | d :: ds' =>
      match significant ds' with
      | ([], zeros) => if d =? 48 then ([], S zeros) else ([d], zeros)
      | (sig, zeros) => (d :: sig, zeros)
      end
  end.

(** Number::toString of ECMA-262 for a positive number [s * 10 ^ (n - k)],
    where [sig] holds the [k] digits of [s] and [s] does not end in 0:
    all digits and zeros up to 21 digits, a decimal point within the
    digits, [0.] and up to five zeros before them, and the exponent
    notation otherwise. *)
Definition number_body (sig : jsstring) (n : Z) : jsstring :=
  let k := Z.of_nat (List.length sig) in
  if ((k <=? n) && (n <=? 21))%Z then sig ++ repeat 48 (Z.to_nat (n - k))
  else if ((0 <? n) && (n <=? 21))%Z
  then firstn (Z.to_nat n) sig ++ 46 :: skipn (Z.to_nat n) sig
  else if ((-6 <? n) && (n <=? 0))%Z
  then 48 :: 46 :: repeat 48 (Z.to_nat (- n)) ++ sig
  else
    let exponent := (if (n - 1 <? 0)%Z then 45 else 43) :: decimal (Z.abs_N (n - 1)) in
    match sig with
    | [] => []
    | [d] => d :: 101 :: exponent
    | d :: rest => d :: 46 :: rest ++ 101 :: exponent
    end.

(** The text of a number, as [JSON.stringify] and [String] write it:
    [0] for zero, and a [-] before the text of the positive number for
    a negative one. *)
Definition number_text (x : number) : jsstring :=
  if (mant x =? 0)%Z then [48]
  else
    let (sig, zeros) := significant (decimal (Z.abs_N (mant x))) in
    let body :=
      number_body sig (Z.of_nat (List.length sig) + Z.of_nat zeros + exp10 x) in
    if (mant x <? 0)%Z then 45 :: body else body.

Fixpoint join (sep : jsstring) (parts : list jsstring) : jsstring :=
  match parts with
  | [] => []
  | [p] => p
  | p :: ps => p ++ sep ++ join sep ps
  end.

(** [JSON.stringify(v)]; [None] is the result [undefined].  In an array
    [undefined] is written [null], in an object a property whose value
    is [undefined] is left out. *)
Fixpoint stringify (v : JSValue) : option jsstring :=
  match v with
  | JUndefined => None
  | JNull => Some (js "null")
  | JBool true => Some (js "true")
  | JBool false => Some (js "false")
  | JNum n => Some (number_text n)
  | JStr s => Some (quote s)
  | JArr xs =>
      Some ([91] ++ join [44] (map (fun x => match stringify x with
                                              | Some t => t
                                              | None => js "null"
                                              end) xs) ++ [93])
  | JObj props =>
      Some ([123] ++ join [44]
              (flat_map (fun kv => match kv with
                                   | (k, x) => match stringify x with
                                               | Some t => [quote k ++ [58] ++ t]
                                               | None => []
                                               end
                                   end) props) ++ [125])
  end.

(** The text of an array element. *)
Definition element (v : JSValue) : jsstring :=
  match stringify v with
  | Some t => t
  | None => js "null"
  end.

(** *** Reading *)

Definition is_ws (c : N) : bool := (c =? 32) || (c =? 9) || (c =? 10) || (c =? 13).

Fixpoint skip_ws (text : jsstring) : jsstring :=
  match text with
  | c :: text' => if is_ws c then skip_ws text' else text
  | [] => []
  end.

Definition is_digit (c : N) : bool := Utf8.within 48 57 c.

Definition hex_value (c : N) : option N :=
  if is_digit c then Some (c - 48)
  else if Utf8.within 97 102 c then Some (c - 87)
  else if Utf8.within 65 70 c then Some (c - 55)
  else None.

Definition hex4 (h1 h2 h3 h4 : N) : option N :=
  match hex_value h1, hex_value h2, hex_value h3, hex_value h4 with
  | Some a, Some b, Some c, Some d => Some (((a * 16 + b) * 16 + c) * 16 + d)
  | _, _, _, _ => None
  end.

Definition simple_escape (e : N) : option N :=
  if e =? 34 then Some 34
  else if e =? 92 then Some 92
  else if e =? 47 then Some 47
  else if e =? 98 then Some 8
  else if e =? 102 then Some 12
  else if e =? 110 then Some 10
  else if e =? 114 then Some 13
  else if e =? 116 then Some 9
  else None.

Definition prepend (c : N) (r : option (jsstring * jsstring))
    : option (jsstring * jsstring) :=
  match r with
  | Some (s, rest) => Some (c :: s, rest)
  | None => None
  end.

(** The characters of a string after its opening quote, up to and with
    the closing quote: the string read and the text that follows. *)
Fixpoint parse_chars (text : jsstring) : option (jsstring * jsstring) :=
  match text with
  | [] => None
  | c :: r =>
      if c =? 34 then Some ([], r)
      else if c =? 92 then
        match r with
        | e :: r' =>
            if e =? 117 then
              match r' with
              | h1 :: h2 :: h3 :: h4 :: r'' =>
                  match hex4 h1 h2 h3 h4 with
                  | Some u => prepend u (parse_chars r'')
                  | None => None
                  end
              | _ => None
              end
            else
              match simple_escape e with
              | Some u => prepend u (parse_chars r')
              | None => None
              end
        | [] => None
        end
      else if c <? 32 then None
      else prepend c (parse_chars r)
  end.

Fixpoint take_digits (text : jsstring) : list N * jsstring :=
  match text with
  | c :: text' =>
      if is_digit c
      then let (ds, rest) := take_digits text' in ((c - 48) :: ds, rest)
      else ([], text)
  | [] => ([], [])
  end.

Definition digits_value (ds : list N) : N :=
  fold_left (fun a d => a * 10 + d) ds 0.

Definition signed (neg : bool) (n : N) : Z :=
  if neg then (- Z.of_N n)%Z else Z.of_N n.

(** [-] if it is there. *)
Definition take_minus (text : jsstring) : bool * jsstring :=
  match text with
  | c :: text' => if c =? 45 then (true, text') else (false, text)
  | [] => (false, [])
  end.

(** The integer part: a single [0], or digits that do not start with [0]. *)
Definition parse_int (text : jsstring) : option (list N * jsstring) :=
  match take_digits text with
  | ([], _) => None
  | ([d], rest) => Some ([d], rest)
  | (d :: ds, rest) => if d =? 0 then None else Some (d :: ds, rest)
  end.

Definition parse_frac (text : jsstring) : option (list N * jsstring) :=
  match text with
  | c :: text' =>
      if c =? 46 then
        match take_digits text' with
        | ([], _) => None
        | (ds, rest) => Some (ds, rest)
        end
      else Some ([], text)
  | [] => Some ([], [])
  end.

(** The sign of an exponent, if it is there. *)
Definition take_sign (text : jsstring) : bool * jsstring :=
  match text with
  | s :: text' =>
      if s =? 45 then (true, text') else if s =? 43 then (false, text') else (false, text)
  | [] => (false, [])
  end.

Definition parse_exp (text : jsstring) : option (Z * jsstring) :=
  match text with
  | c :: text' =>
      if (c =? 101) || (c =? 69) then
        let (neg, text'') := take_sign text' in
        match take_digits text'' with
        | ([], _) => None
        | (ds, rest) => Some (signed neg (digits_value ds), rest)
        end
      else Some (0%Z, text)
  | [] => Some (0%Z, [])
  end.

Definition parse_number (text : jsstring) : option (number * jsstring) :=
  let (neg, t1) := take_minus text in
  match parse_int t1 with
  | Some (ids, t2) =>
      match parse_frac t2 with
      | Some (fds, t3) =>
          match parse_exp t3 with
          | Some (e, t4) =>
              Some (Num (signed neg (digits_value (ids ++ fds)))
                        (e - Z.of_nat (List.length fds)), t4)
          | None => None
          end
      | None => None
      end
  | None => None
  end.

Fixpoint strip_prefix (p text : jsstring) : option jsstring :=
  match p, text with
  | [], _ => Some text
  | a :: p', b :: text' => if a =? b then strip_prefix p' text' else None
  | _ :: _, [] => None
  end.

Definition parse_literal (text : jsstring) : option (JSValue * jsstring) :=
  match strip_prefix (js "true") text with
  | Some rest => Some (JBool true, rest)
  | None =>
      match strip_prefix (js "false") text with
      | Some rest => Some (JBool false, rest)
      | None =>
          match strip_prefix (js "null") text with
          | Some rest => Some (JNull, rest)
          | None => None
          end
      end
  end.

(** A member sets its key: a key met again keeps its place and takes
    the new value. *)
Fixpoint set_prop (props : list (jsstring * JSValue)) (kv : jsstring * JSValue)
    : list (jsstring * JSValue) :=
  match props with
  | [] => [kv]
  | p :: props' =>
      if jsstring_eqb (fst p) (fst kv) then (fst p, snd kv) :: props'
      else p :: set_prop props' kv
  end.

(** A value, the elements of an array after its [[] and the members of
    an object after its [{].  Every call takes one unit of fuel and at
    most two calls follow each other without a character being read. *)
Fixpoint parse_value (fuel : nat) (text : jsstring) : option (JSValue * jsstring) :=
  match fuel with
  | O => None
  | S fuel' =>
      match skip_ws text with
      | [] => None
      | c :: r =>
          if c =? 34 then
            match parse_chars r with
            | Some (s, rest) => Some (JStr s, rest)
            | None => None
            end
          else if c =? 91 then
            match skip_ws r with
            | d :: r' =>
                if d =? 93 then Some (JArr [], r')
                else match parse_elements fuel' r with
                     | Some (xs, rest) => Some (JArr xs, rest)
                     | None => None
                     end
            | [] => None
            end
          else if c =? 123 then
            match skip_ws r with
            | d :: r' =>
                if d =? 125 then Some (JObj [], r')
                else match parse_members fuel' r with
                     | Some (kvs, rest) => Some (JObj (fold_left set_prop kvs []), rest)
                     | None => None
                     end
            | [] => None
            end
          else if (c =? 45) || is_digit c then
            match parse_number (c :: r) with
            | Some (n, rest) => Some (JNum n, rest)
            | None => None
            end
          else parse_literal (c :: r)
      end
  end
with parse_elements (fuel : nat) (text : jsstring) : option (list JSValue * jsstring) :=
  match fuel with
  | O => None
  | S fuel' =>
      match parse_value fuel' text with
      | Some (v, rest) =>
          match skip_ws rest with
          | d :: rest' =>
              if d =? 44 then
                match parse_elements fuel' rest' with
                | Some (vs, rest'') => Some (v :: vs, rest'')
                | None => None
                end
              else if d =? 93 then Some ([v], rest')
              else None
          | [] => None
          end
      | None => None
      end
  end
with parse_members (fuel : nat) (text : jsstring)
    : option (list (jsstring * JSValue) * jsstring) :=
  match fuel with
  | O => None
  | S fuel' =>
      match skip_ws text with
      | q :: r =>
          if q =? 34 then
            match parse_chars r with
            | Some (key, rest) =>
                match skip_ws rest with
                | colon :: rest1 =>
                    if colon =? 58 then
                      match parse_value fuel' rest1 with
                      | Some (v, rest2) =>
                          match skip_ws rest2 with
                          | d :: rest3 =>
                              if d =? 44 then
                                match parse_members fuel' rest3 with
                                | Some (kvs, rest4) => Some ((key, v) :: kvs, rest4)
                                | None => None
                                end
                              else if d =? 125 then Some ([(key, v)], rest3)
                              else None
                          | [] => None
                          end
                      | None => None
                      end
                    else None
                | [] => None
                end
            | None => None
            end
          else None
      | [] => None
      end
  end.

(** A reader that, where it reads with [fuel], reads at least one
    character, and reads the same with any fuel from twice the number of
    characters read, less one. *)
Definition reads {A} (reader : nat -> jsstring -> option (A * jsstring)) (fuel : nat)
    : Prop :=
  forall t x r,
    reader fuel t = Some (x, r) ->
    (List.length r < List.length t)%nat /\
    forall fuel', (2 * (List.length t - List.length r) <= fuel' + 1)%nat ->
                  reader fuel' t = Some (x, r).

(** [JSON.parse(text)]; [None] is a SyntaxError.  The fuel, twice the
    length of the text and two, is enough for every text. *)
Definition parse (text : jsstring) : option JSValue :=
  match parse_value (2 * List.length text + 2)%nat text with
  | Some (v, rest) =>
      match skip_ws rest with
      | [] => Some v
      | _ :: _ => None
      end
  | None => None
  end.

(** [text] is a JSON text: a value can be read from it, with white space
    at most after it. *)
Definition jsonText (text : jsstring) : Prop :=
  exists fuel v rest, parse_value fuel text = Some (v, rest) /\ skip_ws rest = [].

End Json.

(** ** The sort resolver *)

(** The enum of the logical sort fields. *)
Module SandboxSearchSortField.
(** Modelled from the spec: the members of the enum
    [SandboxSearchSortField], which search-sandboxes-query.dto declares
    and the sources do not include; the spec's mapping table names the
    logical fields name, state, cpu, memory, disk, lastActivityAt and
    createdAt. *)
Definition NAME : jsstring := js "name".
Definition STATE : jsstring := js "state".
Definition CPU : jsstring := js "cpu".
Definition MEMORY : jsstring := js "memory".
Definition DISK : jsstring := js "disk".
Definition LAST_ACTIVITY_AT : jsstring := js "lastActivityAt".
Definition CREATED_AT : jsstring := js "createdAt".

Definition members : list jsstring :=
  [NAME; STATE; CPU; MEMORY; DISK; LAST_ACTIVITY_AT; CREATED_AT].
End SandboxSearchSortField.

(** The own property [key] of an object given by its properties. *)
Fixpoint lookup {A} (key : jsstring) (props : list (jsstring * A)) : option A :=
  match props with
  | [] => None
  | (k, v) :: props' => if jsstring_eqb k key then Some v else lookup key props'
  end.

(** What an object literal or a parsed document inherits: the
    properties of [Object.prototype]. *)
Module ObjectPrototype.

Definition names : list jsstring :=
  [js "constructor"; js "__defineGetter__"; js "__defineSetter__";
   js "hasOwnProperty"; js "__lookupGetter__"; js "__lookupSetter__";
   js "isPrototypeOf"; js "propertyIsEnumerable"; js "toString"; js "valueOf";
   js "__proto__"; js "toLocaleString"].

Definition has (name : jsstring) : bool := existsb (jsstring_eqb name) names.

(** [String(obj[name])] for an inherited [name]: the text of a built-in
    function, [constructor] being the function [Object]; the getter
    [__proto__] answers [Object.prototype] itself, an object. *)
Definition text (name : jsstring) : jsstring :=
  if jsstring_eqb name (js "__proto__") then js "[object Object]"
  else js "function "
       ++ (if jsstring_eqb name (js "constructor") then js "Object" else name)
       ++ js "() { [native code] }".

End ObjectPrototype.

(** [obj[key]] on a document, for a [key] that [Object.prototype] does
    not define: [undefined] for a missing property.  The adapter reads
    documents under names of the source text and under the property key
    of the resolved sort field, none of which [Object.prototype] defines. *)
Definition get (key : jsstring) (obj : list (jsstring * JSValue)) : JSValue :=
  match lookup key obj with
  | Some v => v
  | None => JUndefined
  end.

Definition fieldMapping : list (jsstring * jsstring) :=
  [(SandboxSearchSortField.NAME, js "name");
   (SandboxSearchSortField.STATE, js "state");
   (SandboxSearchSortField.CPU, js "cpu");
   (SandboxSearchSortField.MEMORY, js "mem");
   (SandboxSearchSortField.DISK, js "disk");
   (SandboxSearchSortField.LAST_ACTIVITY_AT, js "lastActivityAt");
   (SandboxSearchSortField.CREATED_AT, js "createdAt")].

(** What [fieldMapping[sortField]] evaluates to: the string of the
    table's own property; without one, the member of [Object.prototype]
    of that name; and [undefined] where there is neither. *)
Inductive Resolved :=
| Mapped (physical : jsstring)
| Inherited (name : jsstring)
| Undefined.

(** [fieldMapping[key]] *)
Definition fieldMappingAt (key : jsstring) : Resolved :=
  match lookup key fieldMapping with
  | Some physical => Mapped physical
  | None => if ObjectPrototype.has key then Inherited key else Undefined
  end.

(** The function has no [throw]: its result is always [Ok]. *)
Definition getSortFieldMapping (sortField : jsstring) : result Resolved :=
  Ok (fieldMappingAt sortField).

(** The property key that [v] denotes as a computed key or as an index:
    its conversion to a string, which turns [undefined] into the string
    undefined. *)
Definition propertyKey (v : Resolved) : jsstring :=
  match v with
  | Mapped physical => physical
  | Inherited name => ObjectPrototype.text name
  | Undefined => js "undefined"
  end.

(** ** The cursor codec *)

(** [Buffer.from(JSON.stringify(searchAfter)).toString('base64')];
    [Buffer.from(undefined)] is a TypeError. *)
Definition encodeCursor (searchAfter : JSValue) : result jsstring :=
  match Json.stringify searchAfter with
  | Some text => Ok (Base64.encode (Utf8.encode text))
  | None => Throw (TypeError (js "The first argument must be of type string"))
  end.

(** [JSON.parse(Buffer.from(cursor, 'base64').toString())]; [None] is the
    SyntaxError of [JSON.parse]. *)
Definition decodeCursor (cursor : jsstring) : option JSValue :=
  Json.parse (Utf8.decode (Base64.decode cursor)).

(** ** The query executor's request *)

Module Search_RequestBody.
Record t := {
  query : QueryContainer;
  sort : list (jsstring * jsstring);
  size : Z;
  search_after : option JSValue
}.

Definition with_search_after (v : JSValue) (b : t) : t :=
  {| query := query b; sort := sort b; size := size b; search_after := Some v |}.
End Search_RequestBody.

Section QueryExecutor.

(** The constants of search-sandboxes-query.dto. *)
Variable DEFAULT_SANDBOX_SEARCH_SORT_FIELD : jsstring.
Variable DEFAULT_SANDBOX_SEARCH_SORT_DIRECTION : jsstring.

Definition buildSearchBody (query : QueryContainer) (limit : Z)
    (cursor sortField sortDirection : option jsstring)
    : result Search_RequestBody.t :=
  let sortField := the DEFAULT_SANDBOX_SEARCH_SORT_FIELD sortField in
  let sortDirection := the DEFAULT_SANDBOX_SEARCH_SORT_DIRECTION sortDirection in
  (opensearchSortField <- getSortFieldMapping sortField ;;
   let searchBody :=
     {| Search_RequestBody.query := query;
        Search_RequestBody.sort :=
          [(propertyKey opensearchSortField, sortDirection); (js "id", js "desc")];
        Search_RequestBody.size := addDouble limit 1;
        Search_RequestBody.search_after := None |} in
   if truthy_string cursor then
     match decodeCursor (the [] cursor) with
     | Some searchAfter => Ok (Search_RequestBody.with_search_after searchAfter searchBody)
     | None =>
         Throw (BadRequestException (js "Invalid cursor provided: " ++ the [] cursor))
     end
   else Ok searchBody)%js.

End QueryExecutor.

(** ** The result mapper *)

(** The entity; a date property holds the argument [v] of [new Date(v)]. *)
Module Sandbox.
Record t := {
  region : JSValue;
  name : JSValue;
  id : JSValue;
  organizationId : JSValue;
  runnerId : JSValue;
  class : JSValue;
  state : JSValue;
  desiredState : JSValue;
  snapshot : JSValue;
  osUser : JSValue;
  errorReason : JSValue;
  recoverable : JSValue;
  public : JSValue;
  cpu : JSValue;
  gpu : JSValue;
  mem : JSValue;
  disk : JSValue;
  labels : JSValue;
  backupState : JSValue;
  autoStopInterval : JSValue;
  autoArchiveInterval : JSValue;
  autoDeleteInterval : JSValue;
  createdAt : option JSValue;
  updatedAt : option JSValue;
  lastActivityAt : option JSValue
}.
End Sandbox.

Record Hit := { _source : list (jsstring * JSValue) }.

(** [response.body]: its [hits] and their [hits] may be missing. *)
Record HitsMetadata := { hits : option (list Hit) }.
Record SearchResponse := { body_hits : option HitsMetadata }.

Record SandboxSearchResult := {
  items : list Sandbox.t;
  nextCursor : option jsstring
}.

Definition truthy (v : JSValue) : bool :=
  match v with
  | JUndefined | JNull => false
  | JBool b => b
  | JNum n => negb (mant n =? 0)%Z
  | JStr [] => false
  | JStr (_ :: _) => true
  | JArr _ | JObj _ => true
  end.

(** [xs.slice(0, limit)] for an integer [limit]. *)
Definition slice0 {A} (xs : list A) (limit : Z) : list A :=
  let len := Z.of_nat (List.length xs) in
  let k := if (limit <? 0)%Z then Z.max (len + limit) 0 else Z.min limit len in
  firstn (Z.to_nat k) xs.

(** [xs[xs.length - 1]] *)
Definition lastOf {A} (xs : list A) : option A := nth_error xs (List.length xs - 1).

Section ResultMapper.

(** The constructor of the entity, [new Sandbox(region, name)]. *)
Variable newSandbox : JSValue -> JSValue -> Sandbox.t.

(** [source.d ? new Date(source.d) : undefined] *)
Definition dateOf (v : JSValue) : option JSValue :=
  if truthy v then Some v else None.

Definition mapSourceToSandbox (source : list (jsstring * JSValue)) : Sandbox.t :=
  let sandbox := newSandbox (get (js "region") source) (get (js "name") source) in
  {| Sandbox.region := Sandbox.region sandbox;
     Sandbox.name := Sandbox.name sandbox;
     Sandbox.id := get (js "id") source;
     Sandbox.organizationId := get (js "organizationId") source;
     Sandbox.runnerId := get (js "runnerId") source;
     Sandbox.class := get (js "class") source;
     Sandbox.state := get (js "state") source;
     Sandbox.desiredState := get (js "desiredState") source;
     Sandbox.snapshot := get (js "snapshot") source;
     Sandbox.osUser := get (js "osUser") source;
     Sandbox.errorReason := get (js "errorReason") source;
     Sandbox.recoverable := get (js "recoverable") source;
     Sandbox.public := get (js "public") source;
     Sandbox.cpu := get (js "cpu") source;
     Sandbox.gpu := get (js "gpu") source;
     Sandbox.mem := get (js "mem") source;
     Sandbox.disk := get (js "disk") source;
     Sandbox.labels := get (js "labels") source;
     Sandbox.backupState := get (js "backupState") source;
     Sandbox.autoStopInterval := get (js "autoStopInterval") source;
     Sandbox.autoArchiveInterval := get (js "autoArchiveInterval") source;
     Sandbox.autoDeleteInterval := get (js "autoDeleteInterval") source;
     Sandbox.createdAt := dateOf (get (js "createdAt") source);
     Sandbox.updatedAt := dateOf (get (js "updatedAt") source);
     Sandbox.lastActivityAt := dateOf (get (js "lastActivityAt") source) |}.

Definition processSearchResponse (response : SearchResponse) (limit : Z)
    (sortField sortDirection : jsstring) : result SandboxSearchResult :=
  let hits := the [] (body_hits response)?.hits in
  let hasMore := (Z.of_nat (List.length hits) >? limit)%Z in
  let items := if hasMore then slice0 hits limit else hits in
  (nextCursor <-
     (if hasMore && (0 <? List.length items)%nat then
        match lastOf items with
        | Some lastItem =>
            opensearchSortField <- getSortFieldMapping sortField ;;
            let searchAfter :=
              JArr [get (propertyKey opensearchSortField) (_source lastItem);
                    get (js "id") (_source lastItem)] in
            cursor <- encodeCursor searchAfter ;;
            Ok (Some cursor)
        | None => Throw (TypeError (js "Cannot read properties of undefined"))
        end
      else Ok None) ;;
   Ok {| items := map (fun hit => mapSourceToSandbox (_source hit)) items;
         nextCursor := nextCursor |})%js.

End ResultMapper.

(** ** The adapter's entry point *)

Section Search.

Variable SandboxState_ERROR : jsstring.
Variable SandboxDesiredState_DESTROYED : jsstring.
Variable toLowerCase : jsstring -> jsstring.
Variable DEFAULT_SANDBOX_SEARCH_SORT_FIELD : jsstring.
Variable DEFAULT_SANDBOX_SEARCH_SORT_DIRECTION : jsstring.
Variable newSandbox : JSValue -> JSValue -> Sandbox.t.

(** [executeSearch]: the answer of the index to a request. *)
Variable executeSearch : Search_RequestBody.t -> result SearchResponse.

(** [v || d] on an optional string. *)
Definition orDefault (v : option jsstring) (d : jsstring) : jsstring :=
  if truthy_string v then the [] v else d.

Definition search (organizationId : jsstring) (cursor : option jsstring) (limit : Z)
    (filters : option SandboxSearchFilters) : result SandboxSearchResult :=
  match organizationId with
  | [] => Throw (JsError (js "Organization ID is required"))
  | _ :: _ =>
      (query <- buildSearchQuery SandboxState_ERROR SandboxDesiredState_DESTROYED
                  toLowerCase organizationId filters ;;
       let sortField := orDefault filters?.sort DEFAULT_SANDBOX_SEARCH_SORT_FIELD in
       let sortDirection :=
         orDefault filters?.order DEFAULT_SANDBOX_SEARCH_SORT_DIRECTION in
       searchBody <- buildSearchBody DEFAULT_SANDBOX_SEARCH_SORT_FIELD
                       DEFAULT_SANDBOX_SEARCH_SORT_DIRECTION
                       query limit cursor (Some sortField) (Some sortDirection) ;;
       response <- executeSearch searchBody ;;
       processSearchResponse newSandbox response limit sortField sortDirection)%js
  end.

End Search.

(** [f'] is [f] without one property that [f] holds empty: the string
    [id] or [name], or the array [states], [snapshots] or [regionIds]. *)
Definition emptied (f f' : SandboxSearchFilters) : Prop :=
  (id f = Some [] /\ f' = with_id None f) \/
  (name f = Some [] /\ f' = with_name None f) \/
  (states f = Some [] /\ f' = with_states None f) \/
  (snapshots f = Some [] /\ f' = with_snapshots None f) \/
  (regionIds f = Some [] /\ f' = with_regionIds None f).

(** ** The index lifecycle *)

Record PropertyMapping := { field_type : jsstring; indexed : option bool }.

Record IndexBody := {
  number_of_shards : Z;
  number_of_replicas : Z;
  dynamic : jsstring;
  properties : list (jsstring * PropertyMapping)
}.

Definition keyword := {| field_type := js "keyword"; indexed := None |}.
Definition integer := {| field_type := js "integer"; indexed := None |}.
Definition boolean := {| field_type := js "boolean"; indexed := None |}.
Definition date := {| field_type := js "date"; indexed := None |}.

(** The body of the creation request. *)
Definition sandboxIndexBody : IndexBody :=
  {| number_of_shards := 1;
     number_of_replicas := 1;
     dynamic := js "strict";
     properties :=
       [(js "id", keyword); (js "organizationId", keyword); (js "name", keyword);
        (js "region", keyword); (js "runnerId", keyword); (js "class", keyword);
        (js "state", keyword); (js "desiredState", keyword); (js "snapshot", keyword);
        (js "osUser", keyword);
        (js "errorReason", {| field_type := js "text"; indexed := Some false |});
        (js "recoverable", boolean); (js "public", boolean);
        (js "cpu", integer); (js "gpu", integer); (js "mem", integer); (js "disk", integer);
        (js "createdAt", date); (js "updatedAt", date); (js "lastActivityAt", date);
        (js "autoStopInterval", integer); (js "autoArchiveInterval", integer);
        (js "autoDeleteInterval", integer);
        (js "labels", {| field_type := js "flattened"; indexed := None |});
        (js "backupState", keyword)] |}.

(** [error instanceof errors.ResponseError &&
     error.body?.error?.type === 'resource_already_exists_exception'] *)
Definition isAlreadyExists (error : JSError) : bool :=
  match error with
  | ResponseError (Some type) => jsstring_eqb type (js "resource_already_exists_exception")
  | _ => false
  end.

Section IndexLifecycle.

(** The index service behind [this.client]: a call answers and leaves
    the service in a new state. *)
Variable World : Type.
Variable indices_exists : jsstring -> World -> result bool * World.
Variable indices_create : jsstring -> IndexBody -> World -> result unit * World.

Variable indexName : jsstring.

Definition createIndex (w : World) : result unit * World :=
  let attempt :=
    match indices_exists indexName w with
    | (Ok true, w1) => (Ok tt, w1)
    | (Ok false, w1) => indices_create indexName sandboxIndexBody w1
    | (Throw error, w1) => (Throw error, w1)
    end in
  match attempt with
  | (Throw error, w') =>
      if isAlreadyExists error then (Ok tt, w') else (Throw error, w')
  | (Ok tt, w') => (Ok tt, w')
  end.

End IndexLifecycle.

(** An index service in memory, for the examples: the indices it holds,
    those that another instance creates right after the next existence
    check, whether it is reachable, and the calls it has received. *)
Module MemoryIndex.

Inductive call :=
| Exists (index : jsstring)
| Create (index : jsstring).

Record World := {
  existing : list jsstring;
  arriving : list jsstring;
  reachable : bool;
  calls : list call
}.

Definition holds (index : jsstring) (names : list jsstring) : bool :=
  existsb (jsstring_eqb index) names.

Definition indices_exists (index : jsstring) (w : World) : result bool * World :=
  let w' := {| existing := existing w ++ arriving w; arriving := [];
               reachable := reachable w; calls := calls w ++ [Exists index] |} in
  if reachable w then (Ok (holds index (existing w)), w')
  else (Throw (JsError (js "connect ECONNREFUSED")), w').

Definition indices_create (index : jsstring) (body : IndexBody) (w : World)
    : result unit * World :=
  let log := calls w ++ [Create index] in
  if negb (reachable w) then
    (Throw (JsError (js "connect ECONNREFUSED")),
     {| existing := existing w; arriving := arriving w;
        reachable := reachable w; calls := log |})
  else if holds index (existing w) then
    (Throw (ResponseError (Some (js "resource_already_exists_exception"))),
     {| existing := existing w; arriving := arriving w;
        reachable := reachable w; calls := log |})
  else
    (Ok tt,
     {| existing := existing w ++ [index]; arriving := arriving w;
        reachable := reachable w; calls := log |}).

End MemoryIndex.

(** ** Sample data for the examples *)

Module Sample.

(** Lower-casing of the ASCII letters. *)
Definition toLowerCase (s : jsstring) : jsstring :=
  map (fun c => if (65 <=? c)%N && (c <=? 90)%N then (c + 32)%N else c) s.

Definition ERROR : jsstring := js "error".
Definition DESTROYED : jsstring := js "destroyed".

Definition filters : SandboxSearchFilters :=
  {| id := Some []; name := Some (js "Dev"); labels := Some [(js "team", js "core")];
     includeErroredDeleted := Some false; states := Some [];
     snapshots := Some [js "ubuntu"]; regionIds := Some [];
     minCpu := Some (Num 2 0); maxCpu := None;
     minMemoryGiB := None; maxMemoryGiB := Some (Num 8 0);
     minDiskGiB := None; maxDiskGiB := None;
     isPublic := Some true; isRecoverable := None;
     createdAtAfter := Some (DateValid (js "2025-01-01T00:00:00.000Z"));
     createdAtBefore := None;
     lastEventAfter := None; lastEventBefore := None;
     sort := None; order := None |}.

(** Nothing set but [includeErroredDeleted]. *)
Definition including : SandboxSearchFilters :=
  {| id := None; name := None; labels := None;
     includeErroredDeleted := Some true; states := None;
     snapshots := None; regionIds := None;
     minCpu := None; maxCpu := None;
     minMemoryGiB := None; maxMemoryGiB := None;
     minDiskGiB := None; maxDiskGiB := None;
     isPublic := None; isRecoverable := None;
     createdAtAfter := None; createdAtBefore := None;
     lastEventAfter := None; lastEventBefore := None;
     sort := None; order := None |}.

Definition newSandbox (region name : JSValue) : Sandbox.t :=
  {| Sandbox.region := region; Sandbox.name := name;
     Sandbox.id := JUndefined; Sandbox.organizationId := JUndefined;
     Sandbox.runnerId := JUndefined; Sandbox.class := JUndefined;
     Sandbox.state := JUndefined; Sandbox.desiredState := JUndefined;
     Sandbox.snapshot := JUndefined; Sandbox.osUser := JUndefined;
     Sandbox.errorReason := JUndefined; Sandbox.recoverable := JUndefined;
     Sandbox.public := JUndefined; Sandbox.cpu := JUndefined;
     Sandbox.gpu := JUndefined; Sandbox.mem := JUndefined;
     Sandbox.disk := JUndefined; Sandbox.labels := JUndefined;
     Sandbox.backupState := JUndefined; Sandbox.autoStopInterval := JUndefined;
     Sandbox.autoArchiveInterval := JUndefined;
     Sandbox.autoDeleteInterval := JUndefined;
     Sandbox.createdAt := None; Sandbox.updatedAt := None;
     Sandbox.lastActivityAt := None |}.

Definition hit (id' : string) (mem' : Z) : Hit :=
  {| _source := [(js "id", JStr (js id')); (js "mem", JNum (Num mem' 0))] |}.

Definition page : list Hit := [hit "c" 2; hit "b" 4; hit "a" 4].

Definition response : SearchResponse :=
  {| body_hits := Some {| hits := Some page |} |}.

(** The index is there. *)
Definition present : MemoryIndex.World :=
  {| MemoryIndex.existing := [js "sandboxes"]; MemoryIndex.arriving := [];
     MemoryIndex.reachable := true; MemoryIndex.calls := [] |}.

(** Another instance creates the index between the check and the
    creation. *)
Definition raced : MemoryIndex.World :=
  {| MemoryIndex.existing := []; MemoryIndex.arriving := [js "sandboxes"];
     MemoryIndex.reachable := true; MemoryIndex.calls := [] |}.

Definition unreachable : MemoryIndex.World :=
  {| MemoryIndex.existing := []; MemoryIndex.arriving := [];
     MemoryIndex.reachable := false; MemoryIndex.calls := [] |}.

End Sample.

(** ** Well-formed strings *)

(** The code units of a string are 16-bit numbers. *)
Definition codeUnits (s : jsstring) : Prop := Forall (fun c => (c < 65536)%N) s.

(** Well-formed UTF-16: every surrogate is a half of a surrogate pair. *)
Inductive wellPaired : jsstring -> Prop :=
| wellPaired_nil : wellPaired []
| wellPaired_unit c s :
    (c < 65536)%N -> Utf8.is_high c = false -> Utf8.is_low c = false ->
    wellPaired s -> wellPaired (c :: s)
| wellPaired_pair c d s :
    Utf8.is_high c = true -> Utf8.is_low d = true ->
    wellPaired s -> wellPaired (c :: d :: s).

(** The sort values the index holds: a string, or an integer that a
    double represents exactly. *)
Definition validSortValue (v : JSValue) : Prop :=
  match v with
  | JStr s => codeUnits s
  | JNum n => exp10 n = 0%Z /\ (Z.abs (mant n) <= 2 ^ 53 - 1)%Z
  | _ => False
  end.

(** ** Reading a query back *)

(** The prefix, terms and term clauses of a [must] list on [field]. *)
Definition prefixClausesOn (field : jsstring) (must : list QueryContainer)
    : list QueryContainer :=
  filter (fun c => match c with
                   | QPrefix f _ => jsstring_eqb f field
                   | _ => false
                   end) must.

Definition termsClausesOn (field : jsstring) (must : list QueryContainer)
    : list QueryContainer :=
  filter (fun c => match c with
                   | QTerms f _ => jsstring_eqb f field
                   | _ => false
                   end) must.

Definition termClausesOn (field : jsstring) (must : list QueryContainer)
    : list QueryContainer :=
  filter (fun c => match c with
                   | QTerm f _ => jsstring_eqb f field
                   | _ => false
                   end) must.

(** [field] is a sub-field of [labels]: it starts with [labels.] *)
Definition isLabelField (field : jsstring) : bool :=
  match Json.strip_prefix (js "labels.") field with
  | Some _ => true
  | None => false
  end.

(** The term clauses of a [must] list on the sub-fields of [labels]. *)
Definition labelTerms (must : list QueryContainer) : list QueryContainer :=
  filter (fun c => match c with
                   | QTerm f _ => isLabelField f
                   | _ => false
                   end) must.

(** The bound that a valid date contributes to a range clause. *)
Definition isoBound (d : option JSDate) : option JSValue :=
  match d with
  | Some (DateValid iso) => Some (JStr iso)
  | _ => None
  end.

(** What the date range rule is to contribute for one field. *)
Definition dateClauseFor (field : jsstring) (after before : option JSDate)
    : list QueryContainer :=
  match after, before with
  | None, None => []
  | _, _ => [QRange field (isoBound after) (isoBound before)]
  end.

(** The fields that the clauses of a query constrain, nested clauses
    included. *)
Fixpoint clauseFields (q : QueryContainer) : list jsstring :=
  match q with
  | QTerm f _ | QPrefix f _ | QTerms f _ | QRange f _ _ => [f]
  | QBool must must_not =>
      flat_map clauseFields must
      ++ match must_not with
         | Some clauses => flat_map clauseFields clauses
         | None => []
         end
  end.

(** The mapping of a property lets its values be searched: it does not
    say [index: false]. *)
Definition isIndexed (m : PropertyMapping) : bool :=
  match indexed m with
  | Some false => false
  | _ => true
  end.

(** [field] can be searched in an index created with [body]: it is a
    property of the mapping that is indexed, or a sub-field of a
    flattened property [labels] that is indexed. *)
Definition searchableField (body : IndexBody) (field : jsstring) : bool :=
  match lookup field (properties body) with
  | Some m => isIndexed m
  | None =>
      isLabelField field
      && match lookup (js "labels") (properties body) with
         | Some m => jsstring_eqb (field_type m) (js "flattened") && isIndexed m
         | None => false
         end
  end.

(** A property that can be sorted on: a keyword, an integer or a date. *)
Definition sortableField (body : IndexBody) (field : jsstring) : bool :=
  match lookup field (properties body) with
  | Some m =>
      jsstring_eqb (field_type m) (js "keyword")
      || jsstring_eqb (field_type m) (js "integer")
      || jsstring_eqb (field_type m) (js "date")
  | None => false
  end.

(** A filters object with no property set. *)
Definition emptyFilters : SandboxSearchFilters :=
  {| id := None; name := None; labels := None;
     includeErroredDeleted := None; states := None;
     snapshots := None; regionIds := None;
     minCpu := None; maxCpu := None;
     minMemoryGiB := None; maxMemoryGiB := None;
     minDiskGiB := None; maxDiskGiB := None;
     isPublic := None; isRecoverable := None;
     createdAtAfter := None; createdAtBefore := None;
     lastEventAfter := None; lastEventBefore := None;
     sort := None; order := None |}.

Definition with_sort (v : option jsstring) (f : SandboxSearchFilters) :=
  {| id := id f; name := name f; labels := labels f;
     includeErroredDeleted := includeErroredDeleted f; states := states f;
     snapshots := snapshots f; regionIds := regionIds f;
     minCpu := minCpu f; maxCpu := maxCpu f;
     minMemoryGiB := minMemoryGiB f; maxMemoryGiB := maxMemoryGiB f;
     minDiskGiB := minDiskGiB f; maxDiskGiB := maxDiskGiB f;
     isPublic := isPublic f; isRecoverable := isRecoverable f;
     createdAtAfter := createdAtAfter f; createdAtBefore := createdAtBefore f;
     lastEventAfter := lastEventAfter f; lastEventBefore := lastEventBefore f;
     sort := v; order := order f |}.

Definition with_order (v : option jsstring) (f : SandboxSearchFilters) :=
  {| id := id f; name := name f; labels := labels f;
     includeErroredDeleted := includeErroredDeleted f; states := states f;
     snapshots := snapshots f; regionIds := regionIds f;
     minCpu := minCpu f; maxCpu := maxCpu f;
     minMemoryGiB := minMemoryGiB f; maxMemoryGiB := maxMemoryGiB f;
     minDiskGiB := minDiskGiB f; maxDiskGiB := maxDiskGiB f;
     isPublic := isPublic f; isRecoverable := isRecoverable f;
     createdAtAfter := createdAtAfter f; createdAtBefore := createdAtBefore f;
     lastEventAfter := lastEventAfter f; lastEventBefore := lastEventBefore f;
     sort := sort f; order := v |}.

(** ** Values in a cursor *)

(** A scalar of a document: [undefined] (a missing property), [null], a
    boolean, an integer that a double holds exactly, or a string. *)
Definition scalar (v : JSValue) : Prop :=
  match v with
  | JUndefined | JNull | JBool _ => True
  | JNum n => exp10 n = 0%Z /\ (Z.abs (mant n) <= 2 ^ 53 - 1)%Z
  | JStr s => codeUnits s
  | JArr _ | JObj _ => False
  end.

(** What an array element is after [JSON.stringify] and [JSON.parse]:
    [undefined] has become [null]. *)
Definition revived (v : JSValue) : JSValue :=
  match v with
  | JUndefined => JNull
  | _ => v
  end.

(** ** Reading a response *)

(** The page of a response: [response.body.hits?.hits || []]. *)
Definition pageOf (response : SearchResponse) : list Hit :=
  the [] (body_hits response)?.hits.

(** The cursor of the pair of [v] and [w]: the base64 text of the JSON
    text of the two-element array. *)
Definition pairCursor (v w : JSValue) : jsstring :=
  Base64.encode (Utf8.encode (91%N :: Json.element v ++ 44%N :: Json.element w ++ [93%N])).

(** Two documents hold the same value under each of [names]. *)
Definition agreeOn (names : list jsstring) (a b : list (jsstring * JSValue)) : Prop :=
  forall field, In field names -> get field a = get field b.

(** The values that count as false: [undefined], [null], [false], zero
    and the empty string. *)
Definition falsy (v : JSValue) : Prop :=
  v = JUndefined \/ v = JNull \/ v = JBool false \/
  (exists e, v = JNum (Num 0 e)) \/ v = JStr [].

(** A character that ends an element of an array: [,] or []]. *)
Definition endsElement (d : N) : Prop := d = 44%N \/ d = 93%N.

(** ** More sample data *)

Module Specimen.

(** Filters whose only property is an invalid [createdAtBefore]. *)
Definition invalidDate : SandboxSearchFilters :=
  {| id := None; name := None; labels := None;
     includeErroredDeleted := None; states := None;
     snapshots := None; regionIds := None;
     minCpu := None; maxCpu := None;
     minMemoryGiB := None; maxMemoryGiB := None;
     minDiskGiB := None; maxDiskGiB := None;
     isPublic := None; isRecoverable := None;
     createdAtAfter := None; createdAtBefore := Some DateInvalid;
     lastEventAfter := None; lastEventBefore := None;
     sort := None; order := None |}.

(** A document, and the same with a property outside the mapping. *)
Definition document : list (jsstring * JSValue) :=
  [(js "id", JStr (js "a")); (js "cpu", JNum (Num 2 0)); (js "createdAt", JNum (Num 0 0))].

Definition scored : list (jsstring * JSValue) :=
  (js "_score", JNum (Num 1 0)) :: document.

(** An index that answers every request with the sample page. *)
Definition executeSearch (body : Search_RequestBody.t) : result SearchResponse :=
  Ok Sample.response.

End Specimen.

(** A cursor as text: characters of the base64 alphabet and padding, in
    groups of four, and at least one group. *)
Definition base64Text (cursor : jsstring) : Prop :=
  Forall (fun c => In c Base64.alphabet \/ c = Base64.pad) cursor /\
  (exists groups, List.length cursor = 4 * groups)%nat /\
  cursor <> [].

(** ** The migration (migrations/1766415256696-migration.ts)

    The statements that [up] and [down] send through
    [queryRunner.query], and their effect on a database: a table has
    columns, each nullable or not and with a default or none, and rows
    that give the columns a value or NULL.  A statement that the database
    refuses makes [queryRunner.query] reject, which ends the migration:
    [None]. *)

Module Migration.

Local Open Scope string_scope.

Record Column := {
  column_name : string;
  not_null : bool;
  column_default : option string
}.

(** A row: its cells, each a column name with a value or NULL. *)
Definition Row := list (string * option string).

Record Table := { columns : list Column; rows : list Row }.

Definition Database := list (string * Table).

Inductive Statement :=
| AddColumn (table column : string)
| DropColumn (table column : string)
| DropNotNull (table column : string)
| SetNotNull (table column : string)
| SetDefault (table column value : string)
| DropDefault (table column : string)
| UpdateNull (table column value : string).

(** The text of a statement, identifiers in double quotes. *)
Definition quoted (identifier : string) : string :=
  String (ascii_of_nat 34) (identifier ++ String (ascii_of_nat 34) "").

Definition sql (s : Statement) : string :=
  match s with
  | AddColumn t c => "ALTER TABLE " ++ quoted t ++ " ADD " ++ quoted c ++ " character varying"
  | DropColumn t c => "ALTER TABLE " ++ quoted t ++ " DROP COLUMN " ++ quoted c
  | DropNotNull t c =>
      "ALTER TABLE " ++ quoted t ++ " ALTER COLUMN " ++ quoted c ++ " DROP NOT NULL"
  | SetNotNull t c =>
      "ALTER TABLE " ++ quoted t ++ " ALTER COLUMN " ++ quoted c ++ " SET NOT NULL"
  | SetDefault t c v =>
      "ALTER TABLE " ++ quoted t ++ " ALTER COLUMN " ++ quoted c
      ++ " SET DEFAULT '" ++ v ++ "'"
  | DropDefault t c =>
      "ALTER TABLE " ++ quoted t ++ " ALTER COLUMN " ++ quoted c ++ " DROP DEFAULT"
  | UpdateNull t c v =>
      "UPDATE " ++ quoted t ++ " SET " ++ quoted c ++ " = '" ++ v ++ "' WHERE "
      ++ quoted c ++ " IS NULL"
  end.

Definition table_of (s : Statement) : string :=
  match s with
  | AddColumn t _ | DropColumn t _ | DropNotNull t _ | SetNotNull t _
  | SetDefault t _ _ | DropDefault t _ | UpdateNull t _ _ => t
  end.

Fixpoint find_table (name : string) (db : Database) : option Table :=
  match db with
  | [] => None
  | (n, t) :: db' => if String.eqb n name then Some t else find_table name db'
  end.

Fixpoint set_table (name : string) (t : Table) (db : Database) : Database :=
  match db with
  | [] => []
  | (n, t0) :: db' =>
      if String.eqb n name then (n, t) :: db' else (n, t0) :: set_table name t db'
  end.

Definition has_column (c : string) (t : Table) : bool :=
  existsb (fun col => String.eqb (column_name col) c) (columns t).

(** The cell is a NULL under column [c]. *)
Definition null_under (c : string) (cell : string * option string) : bool :=
  String.eqb (fst cell) c && negb (defined (snd cell)).

Definition has_null (c : string) (t : Table) : bool :=
  existsb (existsb (null_under c)) (rows t).

Definition alter_column (c : string) (f : Column -> Column) (t : Table) : Table :=
  {| columns := map (fun col => if String.eqb (column_name col) c then f col else col)
                    (columns t);
     rows := rows t |}.

Definition with_not_null (b : bool) (col : Column) : Column :=
  {| column_name := column_name col; not_null := b;
     column_default := column_default col |}.

Definition with_default (d : option string) (col : Column) : Column :=
  {| column_name := column_name col; not_null := not_null col; column_default := d |}.

(** [ADD c]: a nullable column without default; the rows there are hold
    NULL under it. *)
Definition add_column (c : string) (t : Table) : Table :=
  {| columns := (columns t
                 ++ [{| column_name := c; not_null := false; column_default := None |}])%list;
     rows := map (fun row => (row ++ [(c, None)])%list) (rows t) |}.

(** [DROP COLUMN c] *)
Definition drop_column (c : string) (t : Table) : Table :=
  {| columns := filter (fun col => negb (String.eqb (column_name col) c)) (columns t);
     rows := map (filter (fun cell => negb (String.eqb (fst cell) c))) (rows t) |}.

(** A row with the NULLs under [c] replaced by [v]. *)
Definition filled (c v : string) (row : Row) : Row :=
  map (fun cell => if null_under c cell then (fst cell, Some v) else cell) row.

(** [UPDATE ... SET c = v WHERE c IS NULL] *)
Definition update_null (c v : string) (t : Table) : Table :=
  {| columns := columns t; rows := map (filled c v) (rows t) |}.

(** What a statement does to its table: a column is added only where
    there is none of its name, and dropped or altered only where there is
    one; [SET NOT NULL] is refused while a row holds a NULL under the
    column. *)
Definition apply (s : Statement) (t : Table) : option Table :=
  match s with
  | AddColumn _ c => if has_column c t then None else Some (add_column c t)
  | DropColumn _ c => if has_column c t then Some (drop_column c t) else None
  | DropNotNull _ c =>
      if has_column c t then Some (alter_column c (with_not_null false) t) else None
  | SetNotNull _ c =>
      if has_column c t && negb (has_null c t)
      then Some (alter_column c (with_not_null true) t)
      else None
  | SetDefault _ c v =>
      if has_column c t then Some (alter_column c (with_default (Some v)) t) else None
  | DropDefault _ c =>
      if has_column c t then Some (alter_column c (with_default None) t) else None
  | UpdateNull _ c v => if has_column c t then Some (update_null c v t) else None
  end.

(** [await queryRunner.query(text)] *)
Definition query (s : Statement) (db : Database) : option Database :=
  match find_table (table_of s) db with
  | Some t =>
      match apply s t with
      | Some t' => Some (set_table (table_of s) t' db)
      | None => None
      end
  | None => None
  end.

Fixpoint run (ss : list Statement) (db : Database) : option Database :=
  match ss with
  | [] => Some db
  | s :: ss' =>
      match query s db with
      | Some db' => run ss' db'
      | None => None
      end
  end.

Definition up : list Statement :=
  [AddColumn "region" "snapshotManagerUrl";
   AddColumn "region" "snapshotManagerApiKeyHash";
   DropNotNull "docker_registry" "username";
   DropNotNull "docker_registry" "password"].

Definition down : list Statement :=
  [DropColumn "region" "snapshotManagerApiKeyHash";
   DropColumn "region" "snapshotManagerUrl";
   SetDefault "docker_registry" "password" "";
   SetDefault "docker_registry" "username" "";
   UpdateNull "docker_registry" "password" "";
   UpdateNull "docker_registry" "username" "";
   SetNotNull "docker_registry" "password";
   SetNotNull "docker_registry" "username";
   DropDefault "docker_registry" "password";
   DropDefault "docker_registry" "username"].

(** The statements of a list that are on table [name], applied in turn. *)
Fixpoint apply_all (name : string) (ss : list Statement) (t : Table) : option Table :=
  match ss with
  | [] => Some t
  | s :: ss' =>
      if String.eqb (table_of s) name
      then match apply s t with
           | Some t' => apply_all name ss' t'
           | None => None
           end
      else apply_all name ss' t
  end.

(** The table has no column [c], and no row of it a cell of that name. *)
Definition lacks (c : string) (t : Table) : Prop :=
  has_column c t = false /\
  Forall (Forall (fun cell : string * option string => fst cell <> c)) (rows t).

(** The table has a column [c]; every column of that name is NOT NULL
    and without default, and no row holds a NULL under it. *)
Definition strict (c : string) (t : Table) : Prop :=
  has_column c t = true /\
  Forall (fun col => column_name col = c ->
                     not_null col = true /\ column_default col = None) (columns t) /\
  has_null c t = false.

End Migration.

(** ** What [down] leaves of [docker_registry]

    The columns [username] and [password] NOT NULL and without default,
    the other columns as they were, and in each row the empty string where
    a NULL was under [password] or [username]. *)

Module MigrationOutcome.

Import Migration.
Local Open Scope string_scope.

Definition revert_column (col : Column) : Column :=
  if String.eqb (column_name col) "username" || String.eqb (column_name col) "password"
  then {| column_name := column_name col; not_null := true; column_default := None |}
  else col.

Definition reverted (t : Table) : Table :=
  {| columns := map revert_column (columns t);
     rows := map (fun row => filled "username" "" (filled "password" "" row)) (rows t) |}.

End MigrationOutcome.

(** ** Two databases to run the migration on *)

Module MigrationSample.

Import Migration.
Local Open Scope string_scope.

Definition column (name : string) : Column :=
  {| column_name := name; not_null := true; column_default := None |}.

Definition nullable (name : string) : Column :=
  {| column_name := name; not_null := false; column_default := None |}.

(** A database from before the migration. *)
Definition before : Database :=
  [("region",
    {| columns := [column "id"; column "name"];
       rows := [[("id", Some "us"); ("name", Some "US")]] |});
   ("docker_registry",
    {| columns := [column "id"; column "username"; column "password"];
       rows := [[("id", Some "1"); ("username", Some "bot"); ("password", Some "secret")]] |});
   ("sandbox", {| columns := [column "id"]; rows := [] |})].

(** A database from after it, with a registry that has no credentials. *)
Definition after : Database :=
  [("region",
    {| columns := [column "id"; column "name"; nullable "snapshotManagerUrl";
                   nullable "snapshotManagerApiKeyHash"];
       rows := [[("id", Some "us"); ("name", Some "US");
                 ("snapshotManagerUrl", Some "https://snapshots");
                 ("snapshotManagerApiKeyHash", None)]] |});
   ("docker_registry",
    {| columns := [column "id"; nullable "username"; nullable "password"];
       rows := [[("id", Some "1"); ("username", Some "bot"); ("password", Some "secret")];
                [("id", Some "2"); ("username", None); ("password", None)]] |});
   ("sandbox", {| columns := [column "id"]; rows := [] |})].

End MigrationSample.

(** * The filter compiler *)

Section FilterCompilerFacts.

Variable ERROR DESTROYED : jsstring.
Variable toLowerCase : jsstring -> jsstring.

Local Abbreviation buildQuery := (buildSearchQuery ERROR DESTROYED toLowerCase).

Lemma push_when {A} (c : bool) (m : list A) (x : A) :
  (if c then push m x else m) = m ++ when c x.
Proof. destruct c; simpl; [reflexivity | now rewrite app_nil_r]. Qed.

Lemma push_boolTerm (m : list QueryContainer) field (b : option bool) :
  match b with
  | Some b' => push m (QTerm field (JBool b'))
  | None => m
  end = m ++ boolTerm field b.
Proof. destruct b; simpl; [reflexivity | now rewrite app_nil_r]. Qed.

Lemma push_dateRange (m : list QueryContainer) field after before :
  (if defined after || defined before
   then gte <- spread_date after ;;
        lte <- spread_date before ;;
        Ok (push m (QRange field gte lte))
   else Ok m)%js
  = (c <- dateRange field after before ;; Ok (m ++ c))%js.
Proof.
  unfold dateRange.
  destruct (defined after || defined before); simpl.
  - destruct (spread_date after); simpl; [| reflexivity].
    destruct (spread_date before); reflexivity.
  - now rewrite app_nil_r.
Qed.

Lemma push_labels (entries : list (jsstring * jsstring)) :
  forall m : list QueryContainer,
    fold_left (fun must kv => push must (QTerm (labelField (fst kv)) (JStr (snd kv))))
              entries m
    = m ++ labelClauses (Some entries).
Proof.
  induction entries as [| kv kvs IH]; intros m; simpl.
  - now rewrite app_nil_r.
  - rewrite IH. unfold push. now rewrite <- app_assoc.
Qed.

(** [buildSearchQuery], rule by rule. *)
Lemma buildSearchQuery_clauses organizationId filters :
  buildQuery organizationId filters
  = (c1 <- dateRange (js "createdAt") filters?.createdAtAfter filters?.createdAtBefore ;;
     c2 <- dateRange (js "lastActivityAt") filters?.lastEventAfter filters?.lastEventBefore ;;
     Ok (QBool (leadingClauses toLowerCase organizationId filters
                  ++ c1 ++ c2 ++ labelClauses filters?.labels)
               (mustNotOf ERROR DESTROYED filters)))%js.
Proof.
  unfold buildSearchQuery.
  rewrite !push_when, !push_boolTerm, !push_dateRange.
  destruct (dateRange (js "createdAt") _ _) as [c1 |]; simpl; [| reflexivity].
  rewrite push_dateRange.
  destruct (dateRange (js "lastActivityAt") _ _) as [c2 |]; simpl; [| reflexivity].
  f_equal. f_equal.
  - assert (E : forall m : list QueryContainer,
               match filters?.labels with
               | Some entries =>
                   fold_left (fun must kv =>
                                push must (QTerm (labelField (fst kv)) (JStr (snd kv))))
                             entries m
               | None => m
               end = m ++ labelClauses filters?.labels).
    { intros m. destruct (filters?.labels); simpl.
      - apply push_labels.
      - now rewrite app_nil_r. }
    rewrite E. unfold leadingClauses, numberRange, push. simpl.
    now rewrite <- !app_assoc.
  - unfold mustNotOf. destruct (truthy_bool _); reflexivity.
Qed.

Lemma dateRange_valid field after before :
  after <> Some DateInvalid -> before <> Some DateInvalid ->
  exists c, dateRange field after before = Ok c.
Proof.
  intros Ha Hb. unfold dateRange.
  destruct after as [[ia |] |], before as [[ib |] |]; simpl;
    try congruence; eauto.
Qed.

Lemma dateRange_ranges field after before c :
  dateRange field after before = Ok c ->
  c = [] \/ exists gte lte, c = [QRange field gte lte].
Proof.
  unfold dateRange.
  destruct (defined after || defined before); simpl.
  - destruct (spread_date after); simpl; [| discriminate].
    destruct (spread_date before); simpl; [| discriminate].
    intros [= <-]. eauto.
  - intros [= <-]. now left.
Qed.

Lemma buildSearchQuery_returns organizationId filters :
  datesValid filters -> exists q, buildQuery organizationId filters = Ok q.
Proof.
  intros (H1 & H2 & H3 & H4). rewrite buildSearchQuery_clauses.
  destruct (dateRange_valid (js "createdAt") H1 H2) as [c1 ->].
  destruct (dateRange_valid (js "lastActivityAt") H3 H4) as [c2 ->].
  simpl. eauto.
Qed.

Lemma buildSearchQuery_inv organizationId filters q :
  buildQuery organizationId filters = Ok q ->
  exists c1 c2,
    dateRange (js "createdAt") filters?.createdAtAfter filters?.createdAtBefore = Ok c1 /\
    dateRange (js "lastActivityAt") filters?.lastEventAfter filters?.lastEventBefore = Ok c2 /\
    q = QBool (leadingClauses toLowerCase organizationId filters
                 ++ c1 ++ c2 ++ labelClauses filters?.labels)
              (mustNotOf ERROR DESTROYED filters).
Proof.
  rewrite buildSearchQuery_clauses.
  destruct (dateRange (js "createdAt") _ _) as [c1 |]; simpl; [| discriminate].
  destruct (dateRange (js "lastActivityAt") _ _) as [c2 |]; simpl; [| discriminate].
  intros [= <-]. eauto.
Qed.

(** C1: whatever the filters (absent ones included), the query that
    [buildSearchQuery] returns has the exact term clause on
    [organizationId] in its top-level [must] list; a query is returned
    whenever no date filter is an invalid [Date]. *)
Theorem buildSearchQuery_organization_clause organizationId filters :
  (datesValid filters -> exists q, buildQuery organizationId filters = Ok q) /\
  (forall q, buildQuery organizationId filters = Ok q ->
     exists must must_not,
       q = QBool must must_not /\
       In (QTerm (js "organizationId") (JStr organizationId)) must).
Proof.
  split.
  - apply buildSearchQuery_returns.
  - intros q Hq.
    destruct (buildSearchQuery_inv _ _ Hq) as (c1 & c2 & _ & _ & ->).
    eexists _, _. split; [reflexivity |].
    unfold leadingClauses. simpl. now left.
Qed.

(** C2: with [includeErroredDeleted] absent or false the query carries,
    as its [must_not], the sub-clause matching state = ERROR and
    desiredState = DESTROYED; with [includeErroredDeleted] true it has
    no [must_not] at all. *)
Theorem buildSearchQuery_errored_deleted organizationId filters q :
  buildQuery organizationId filters = Ok q ->
  (filters?.includeErroredDeleted = None \/ filters?.includeErroredDeleted = Some false ->
     query_must_not q
     = Some [QBool [QTerm (js "state") (JStr ERROR);
                    QTerm (js "desiredState") (JStr DESTROYED)] None]) /\
  (filters?.includeErroredDeleted = Some true -> query_must_not q = None).
Proof.
  intros Hq.
  destruct (buildSearchQuery_inv _ _ Hq) as (c1 & c2 & _ & _ & ->).
  unfold mustNotOf. simpl. split.
  - intros [-> | ->]; reflexivity.
  - intros ->. reflexivity.
Qed.

Lemma rangeClausesOn_app field (a b : list QueryContainer) :
  rangeClausesOn field (a ++ b) = rangeClausesOn field a ++ rangeClausesOn field b.
Proof. apply filter_app. Qed.

Lemma rangeClausesOn_numberRange field g lo hi :
  rangeClausesOn field (numberRange g lo hi)
  = if jsstring_eqb g field then rangeClauseFor g lo hi else [].
Proof.
  unfold numberRange, rangeClauseFor, when.
  destruct lo, hi; simpl; destruct (jsstring_eqb g field); reflexivity.
Qed.

Lemma rangeClausesOn_dateRange field g after before c :
  dateRange g after before = Ok c -> jsstring_eqb g field = false ->
  rangeClausesOn field c = [].
Proof.
  intros Hc Hne. destruct (dateRange_ranges _ _ _ Hc) as [-> | (gte & lte & ->)].
  - reflexivity.
  - simpl. now rewrite Hne.
Qed.

Lemma rangeClausesOn_labels field entries :
  rangeClausesOn field (labelClauses entries) = [].
Proof.
  destruct entries as [kvs |]; [| reflexivity].
  induction kvs as [| kv kvs IH]; simpl; auto.
Qed.

Lemma rangeClausesOn_leading field organizationId filters :
  rangeClausesOn field (leadingClauses toLowerCase organizationId filters)
  = rangeClausesOn field (numberRange (js "cpu") filters?.minCpu filters?.maxCpu)
    ++ rangeClausesOn field
         (numberRange (js "mem") filters?.minMemoryGiB filters?.maxMemoryGiB)
    ++ rangeClausesOn field
         (numberRange (js "disk") filters?.minDiskGiB filters?.maxDiskGiB).
Proof.
  unfold leadingClauses. rewrite !rangeClausesOn_app.
  assert (W : forall c x, (forall f a b, x <> QRange f a b) ->
                rangeClausesOn field (when c x) = []).
  { intros [] x Hx; [| reflexivity]. simpl. destruct x; auto. now destruct (Hx field0 gte lte). }
  assert (B : forall f b, rangeClausesOn field (boolTerm f b) = []).
  { intros f []; reflexivity. }
  rewrite !W, !B by discriminate. simpl. now rewrite !app_nil_r.
Qed.

(** C9: for each of cpu, memoryGiB and diskGiB the [must] list of the
    returned query has, as its range clauses on that field (cpu, mem,
    disk): none when both bounds are absent, and otherwise exactly one,
    whose [gte] is the minimum where it is supplied and absent where it
    is not, and whose [lte] is the maximum likewise. *)
Theorem buildSearchQuery_numeric_ranges organizationId filters q :
  buildQuery organizationId filters = Ok q ->
  rangeClausesOn (js "cpu") (query_must q)
    = rangeClauseFor (js "cpu") filters?.minCpu filters?.maxCpu /\
  rangeClausesOn (js "mem") (query_must q)
    = rangeClauseFor (js "mem") filters?.minMemoryGiB filters?.maxMemoryGiB /\
  rangeClausesOn (js "disk") (query_must q)
    = rangeClauseFor (js "disk") filters?.minDiskGiB filters?.maxDiskGiB.
Proof.
  intros Hq.
  destruct (buildSearchQuery_inv _ _ Hq) as (c1 & c2 & H1 & H2 & ->).
  cbn [query_must].
  repeat split;
    rewrite !rangeClausesOn_app, rangeClausesOn_leading, !rangeClausesOn_numberRange,
      (@rangeClausesOn_dateRange _ _ _ _ _ H1), (@rangeClausesOn_dateRange _ _ _ _ _ H2),
      rangeClausesOn_labels by reflexivity;
    cbn [jsstring_eqb js list_ascii_of_string map N_of_ascii N.eqb Pos.eqb andb
         N_of_digits N.add N.mul app];
    now rewrite ?app_nil_r.
Qed.

Lemma buildSearchQuery_emptied organizationId (f f' : SandboxSearchFilters) :
  emptied f f' ->
  buildQuery organizationId (Some f) = buildQuery organizationId (Some f').
Proof.
  intros [[H ->] | [[H ->] | [[H ->] | [[H ->] | [H ->]]]]];
    rewrite !buildSearchQuery_clauses;
    unfold leadingClauses, mustNotOf; cbn [opt_chain with_id with_name with_states
      with_snapshots with_regionIds id name labels includeErroredDeleted states snapshots
      regionIds minCpu maxCpu minMemoryGiB maxMemoryGiB minDiskGiB maxDiskGiB isPublic
      isRecoverable createdAtAfter createdAtBefore lastEventAfter lastEventBefore];
    rewrite H; reflexivity.
Qed.

End FilterCompilerFacts.

Lemma buildSearchQuery_organization_clause_witness :
  exists q,
    buildSearchQuery Sample.ERROR Sample.DESTROYED Sample.toLowerCase
      (js "org-1") (Some Sample.filters) = Ok q /\
    exists must must_not,
      q = QBool must must_not /\
      In (QTerm (js "organizationId") (JStr (js "org-1"))) must.
Proof.
  destruct (buildSearchQuery_organization_clause Sample.ERROR Sample.DESTROYED
              Sample.toLowerCase (js "org-1") (Some Sample.filters)) as [Hret Hin].
  destruct Hret as [q Hq].
  - repeat split; discriminate.
  - exists q. split; [exact Hq | exact (Hin q Hq)].
Defined.

Lemma buildSearchQuery_errored_deleted_witness :
  (exists q,
     buildSearchQuery Sample.ERROR Sample.DESTROYED Sample.toLowerCase
       (js "org-1") (Some Sample.filters) = Ok q /\
     query_must_not q
     = Some [QBool [QTerm (js "state") (JStr Sample.ERROR);
                    QTerm (js "desiredState") (JStr Sample.DESTROYED)] None]) /\
  (exists q,
     buildSearchQuery Sample.ERROR Sample.DESTROYED Sample.toLowerCase
       (js "org-1") (Some Sample.including) = Ok q /\
     query_must_not q = None).
Proof.
  split; eexists; (split; [reflexivity |]).
  - apply (proj1 (@buildSearchQuery_errored_deleted Sample.ERROR Sample.DESTROYED
                    Sample.toLowerCase (js "org-1") (Some Sample.filters) _ eq_refl)).
    right. reflexivity.
  - apply (proj2 (@buildSearchQuery_errored_deleted Sample.ERROR Sample.DESTROYED
                    Sample.toLowerCase (js "org-1") (Some Sample.including) _ eq_refl)).
    reflexivity.
Defined.

Lemma buildSearchQuery_numeric_ranges_witness :
  exists q,
    buildSearchQuery Sample.ERROR Sample.DESTROYED Sample.toLowerCase
      (js "org-1") (Some Sample.filters) = Ok q /\
    rangeClausesOn (js "cpu") (query_must q)
      = [QRange (js "cpu") (Some (JNum (Num 2 0))) None] /\
    rangeClausesOn (js "mem") (query_must q)
      = [QRange (js "mem") None (Some (JNum (Num 8 0)))] /\
    rangeClausesOn (js "disk") (query_must q) = [].
Proof.
  eexists. split; [reflexivity |].
  apply (@buildSearchQuery_numeric_ranges Sample.ERROR Sample.DESTROYED
           Sample.toLowerCase (js "org-1") (Some Sample.filters) _ eq_refl).
Defined.

(** * The sort resolver *)

Lemma jsstring_eqb_eq (a b : jsstring) : jsstring_eqb a b = true <-> a = b.
Proof.
  revert b. induction a as [| x a IH]; intros [| y b]; simpl; split;
    try congruence; try discriminate.
  - intros H. apply andb_prop in H. destruct H as [Hx Ha].
    apply N.eqb_eq in Hx. apply IH in Ha. congruence.
  - intros [= -> ->]. rewrite N.eqb_refl. now apply IH.
Qed.

Lemma lookup_absent {A} (key : jsstring) (props : list (jsstring * A)) :
  ~ In key (map fst props) -> lookup key props = None.
Proof.
  induction props as [| [k v] props IH]; simpl; intros H; [reflexivity |].
  destruct (jsstring_eqb k key) eqn:E.
  - apply jsstring_eqb_eq in E. tauto.
  - apply IH. tauto.
Qed.

(** C7, as the code has it: each logical sort field is mapped per the
    table (name, state, cpu, memory to mem, disk, lastActivityAt,
    createdAt); for an input outside the table no error is raised: the
    table has no own entry, and what is returned is the member of
    [Object.prototype] of that name where there is one ([toString],
    [constructor], [__proto__] and the like) and [undefined] otherwise,
    in no case a string of the table. *)
Theorem getSortFieldMapping_table :
  getSortFieldMapping SandboxSearchSortField.NAME = Ok (Mapped (js "name")) /\
  getSortFieldMapping SandboxSearchSortField.STATE = Ok (Mapped (js "state")) /\
  getSortFieldMapping SandboxSearchSortField.CPU = Ok (Mapped (js "cpu")) /\
  getSortFieldMapping SandboxSearchSortField.MEMORY = Ok (Mapped (js "mem")) /\
  getSortFieldMapping SandboxSearchSortField.DISK = Ok (Mapped (js "disk")) /\
  getSortFieldMapping SandboxSearchSortField.LAST_ACTIVITY_AT
    = Ok (Mapped (js "lastActivityAt")) /\
  getSortFieldMapping SandboxSearchSortField.CREATED_AT = Ok (Mapped (js "createdAt")) /\
  (forall sortField, ~ In sortField SandboxSearchSortField.members ->
     getSortFieldMapping sortField
     = Ok (if ObjectPrototype.has sortField then Inherited sortField else Undefined)).
Proof.
  repeat split; try reflexivity.
  intros sortField Hout. unfold getSortFieldMapping, fieldMappingAt.
  rewrite lookup_absent by exact Hout. reflexivity.
Qed.

Lemma getSortFieldMapping_table_witness :
  getSortFieldMapping (js "bogus") = Ok Undefined /\
  getSortFieldMapping (js "toString") = Ok (Inherited (js "toString")).
Proof.
  destruct getSortFieldMapping_table as (_ & _ & _ & _ & _ & _ & _ & Hout).
  split.
  - apply (Hout (js "bogus")).
    simpl. intros H. decompose [or] H; try discriminate; assumption.
  - apply (Hout (js "toString")).
    simpl. intros H. decompose [or] H; try discriminate; assumption.
Defined.

(** C7 as stated fails: a sort field outside the known set makes
    [getSortFieldMapping] return, it raises no error; it returns
    [undefined] for [bogus] and the inherited function for [toString]. *)
Lemma getSortFieldMapping_unknown_returns :
  ~ (~ In (js "bogus") SandboxSearchSortField.members ->
     exists error, getSortFieldMapping (js "bogus") = Throw error) /\
  ~ (~ In (js "toString") SandboxSearchSortField.members ->
     exists error, getSortFieldMapping (js "toString") = Throw error).
Proof.
  split; intros H; destruct H as [error H];
    solve [ simpl; intros K; decompose [or] K; try discriminate; assumption
          | discriminate H ].
Qed.

(** A document is read under keys that [Object.prototype] does not
    define: the property key of what the resolver returns is never the
    name of an inherited member. *)
Lemma lookup_In {A} (key : jsstring) (props : list (jsstring * A)) (v : A) :
  lookup key props = Some v -> In v (map snd props).
Proof.
  induction props as [| [k x] props IH]; simpl; [discriminate |].
  destruct (jsstring_eqb k key); [intros [= ->]; now left | intros H; right; now apply IH].
Qed.

Lemma propertyKey_not_inherited (sortField : jsstring) :
  ObjectPrototype.has (propertyKey (fieldMappingAt sortField)) = false.
Proof.
  unfold fieldMappingAt.
  destruct (lookup sortField fieldMapping) as [physical |] eqn:E.
  - apply lookup_In in E. cbn in E.
    decompose [or] E; try contradiction; subst physical; reflexivity.
  - destruct (ObjectPrototype.has sortField) eqn:Hhas; [| reflexivity].
    unfold ObjectPrototype.has in Hhas. apply existsb_exists in Hhas.
    destruct Hhas as (name & Hin & Heq). apply jsstring_eqb_eq in Heq. subst name.
    cbn in Hin. decompose [or] Hin; try contradiction; subst sortField; reflexivity.
Qed.

(** * The cursor codec *)

(** Arithmetic with division and remainder by constants. *)
Ltac divlia := zify; Z.to_euclidean_division_equations; lia.

Lemma list_ind2 {A} (P : list A -> Prop) :
  P [] -> (forall a, P [a]) -> (forall a b l, P l -> P (b :: l) -> P (a :: b :: l)) ->
  forall l, P l.
Proof.
  intros H0 H1 H2.
  assert (H : forall l, P l /\ forall a, P (a :: l)).
  { induction l as [| b l [IHl IHbl]]; split; auto. }
  intros l. apply H.
Qed.

Lemma list_ind3 {A} (P : list A -> Prop) :
  P [] -> (forall a, P [a]) -> (forall a b, P [a; b]) ->
  (forall a b c l, P l -> P (a :: b :: c :: l)) ->
  forall l, P l.
Proof.
  intros H0 H1 H2 H3.
  assert (H : forall l, P l /\ (forall a, P (a :: l)) /\ forall a b, P (a :: b :: l)).
  { induction l as [| c l (IH0 & IH1 & IH2)]; repeat split; auto. }
  intros l. apply H.
Qed.

(** A property checked on every number below [n] holds below [n]. *)
Lemma N_below_forallb (p : N -> bool) (n : nat) :
  forallb p (map N.of_nat (seq 0 n)) = true ->
  forall x, (x < N.of_nat n)%N -> p x = true.
Proof.
  intros H x Hx. rewrite forallb_forall in H. apply H.
  rewrite <- (N2Nat.id x). apply in_map. apply in_seq. lia.
Qed.

Module Base64Facts.

Import Base64.
Local Open Scope N_scope.

Lemma value_char x :
  x < 64 -> (char x =? pad) = false /\ value (char x) = Some x.
Proof.
  intros Hx.
  assert (H : (negb (char x =? pad)
               && match value (char x) with Some y => y =? x | None => false end)%bool
              = true).
  { revert x Hx. apply (N_below_forallb _ 64). vm_compute. reflexivity. }
  apply andb_prop in H. destruct H as [Hp Hv].
  split.
  - now apply negb_true_iff.
  - destruct (value (char x)) as [y |]; [| discriminate].
    apply N.eqb_eq in Hv. now subst.
Qed.

Lemma sextets_char x text :
  x < 64 -> sextets (char x :: text) = x :: sextets text.
Proof.
  intros Hx. destruct (value_char Hx) as [Hp Hv].
  cbn [sextets]. now rewrite Hp, Hv.
Qed.

Lemma sextets_pad text : sextets (pad :: text) = [].
Proof. reflexivity. Qed.

(** [Buffer.from(buf.toString('base64'), 'base64')] is [buf]. *)
Lemma base64_decode_encode (bytes : list N) :
  Forall (fun b => b < 256) bytes -> decode (encode bytes) = bytes.
Proof.
  unfold decode. induction bytes as [| a | a b | a b c rest IH] using list_ind3;
    intros Hb.
  - reflexivity.
  - inversion_clear Hb as [| ? ? Ha _].
    cbn [encode]. rewrite !sextets_char, sextets_pad by divlia.
    cbn [bytes_of]. f_equal. divlia.
  - inversion_clear Hb as [| ? ? Ha Hb']. inversion_clear Hb' as [| ? ? Hb _].
    cbn [encode]. rewrite !sextets_char, sextets_pad by divlia.
    cbn [bytes_of]. f_equal; [| f_equal]; divlia.
  - inversion_clear Hb as [| ? ? Ha Hb']. inversion_clear Hb' as [| ? ? Hb Hb''].
    inversion_clear Hb'' as [| ? ? Hc Hrest].
    cbn [encode]. rewrite !sextets_char by divlia.
    cbn [bytes_of]. rewrite (IH Hrest).
    f_equal; [| f_equal; [| f_equal]]; divlia.
Qed.

End Base64Facts.

(** Boolean tests on numbers, as inequalities. *)
Ltac bool_hyps :=
  repeat match goal with
    | H : (_ && _)%bool = true |- _ => apply andb_prop in H; destruct H
    | H : (_ || _)%bool = false |- _ => apply orb_false_elim in H; destruct H
    | H : (_ <=? _)%N = true |- _ => apply N.leb_le in H
    | H : (_ <=? _)%N = false |- _ => apply N.leb_gt in H
    | H : (_ <? _)%N = true |- _ => apply N.ltb_lt in H
    | H : (_ <? _)%N = false |- _ => apply N.ltb_ge in H
    | H : (_ =? _)%N = true |- _ => apply N.eqb_eq in H
    | H : (_ =? _)%N = false |- _ => apply N.eqb_neq in H
    end.

Module Utf8Facts.

Import Utf8.
Local Open Scope N_scope.

Lemma within_true lo hi b : lo <= b -> b <= hi -> within lo hi b = true.
Proof.
  intros H1 H2. unfold within. apply andb_true_intro. split; now apply N.leb_le.
Qed.

Lemma within_false lo hi b : b < lo \/ hi < b -> within lo hi b = false.
Proof.
  intros H. unfold within. apply andb_false_iff.
  destruct H; [left | right]; now apply N.leb_gt.
Qed.

Lemma high_range c : is_high c = true -> 0xD800 <= c <= 0xDBFF.
Proof. unfold is_high. intros H. bool_hyps. lia. Qed.

Lemma low_range c : is_low c = true -> 0xDC00 <= c <= 0xDFFF.
Proof. unfold is_low. intros H. bool_hyps. lia. Qed.

Lemma not_surrogate c :
  is_high c = false -> is_low c = false -> c < 0xD800 \/ 0xDFFF < c.
Proof.
  unfold is_high, is_low. intros H1 H2.
  apply andb_false_iff in H1, H2. destruct H1, H2; bool_hyps; lia.
Qed.

Lemma decode_1 b1 r : b1 < 0x80 -> decode (b1 :: r) = b1 :: decode r.
Proof.
  intros H. cbn [decode]. apply N.ltb_lt in H. now rewrite H.
Qed.

Lemma decode_2 b1 b2 r :
  0xC2 <= b1 <= 0xDF -> 0x80 <= b2 <= 0xBF ->
  decode (b1 :: b2 :: r) = ((b1 - 0xC0) * 64 + (b2 - 0x80)) :: decode r.
Proof.
  intros H1 H2. cbn [decode].
  replace (b1 <? 0x80) with false by (symmetry; apply N.ltb_ge; lia).
  unfold trail. now rewrite !within_true by lia.
Qed.

Lemma decode_3 b1 b2 b3 r :
  0xE0 <= b1 <= 0xEF ->
  (if b1 =? 0xE0 then 0xA0 else 0x80) <= b2 ->
  b2 <= (if b1 =? 0xED then 0x9F else 0xBF) ->
  0x80 <= b3 <= 0xBF ->
  decode (b1 :: b2 :: b3 :: r)
  = ((b1 - 0xE0) * 4096 + (b2 - 0x80) * 64 + (b3 - 0x80)) :: decode r.
Proof.
  intros H1 H2 H2' H3. cbn [decode].
  replace (b1 <? 0x80) with false by (symmetry; apply N.ltb_ge; lia).
  rewrite (@within_false 0xC2 0xDF b1) by lia.
  rewrite (@within_true 0xE0 0xEF b1) by lia.
  unfold trail. now rewrite !within_true by lia.
Qed.

Lemma decode_4 b1 b2 b3 b4 r :
  0xF0 <= b1 <= 0xF4 ->
  (if b1 =? 0xF0 then 0x90 else 0x80) <= b2 ->
  b2 <= (if b1 =? 0xF4 then 0x8F else 0xBF) ->
  0x80 <= b3 <= 0xBF -> 0x80 <= b4 <= 0xBF ->
  decode (b1 :: b2 :: b3 :: b4 :: r)
  = code_units ((b1 - 0xF0) * 262144 + (b2 - 0x80) * 4096
                + (b3 - 0x80) * 64 + (b4 - 0x80)) ++ decode r.
Proof.
  intros H1 H2 H2' H3 H4. cbn [decode].
  replace (b1 <? 0x80) with false by (symmetry; apply N.ltb_ge; lia).
  rewrite (@within_false 0xC2 0xDF b1) by lia.
  rewrite (@within_false 0xE0 0xEF b1) by lia.
  rewrite (@within_true 0xF0 0xF4 b1) by lia.
  unfold trail. now rewrite !within_true by lia.
Qed.

(** One code unit that is no surrogate. *)
Lemma decode_unit c r :
  c < 65536 -> is_high c = false -> is_low c = false ->
  decode (encode_code_point c ++ r) = c :: decode r.
Proof.
  intros Hc Hh Hl. pose proof (not_surrogate _ Hh Hl) as Hs.
  unfold encode_code_point.
  destruct (N.ltb_spec c 0x80) as [H1 | H1].
  { cbn [app]. now apply decode_1. }
  destruct (N.ltb_spec c 0x800) as [H2 | H2].
  { cbn [app]. rewrite decode_2 by divlia. f_equal. divlia. }
  destruct (N.ltb_spec c 0x10000) as [H3 | H3]; [| lia].
  cbn [app]. rewrite decode_3.
  - f_equal. divlia.
  - divlia.
  - destruct (N.eqb_spec (0xE0 + c / 4096) 0xE0); divlia.
  - destruct (N.eqb_spec (0xE0 + c / 4096) 0xED); divlia.
  - divlia.
Qed.

(** A surrogate pair. *)
Lemma decode_pair c d r :
  is_high c = true -> is_low d = true ->
  decode (encode_code_point (code_point c d) ++ r) = c :: d :: decode r.
Proof.
  intros Hh Hl. apply high_range in Hh. apply low_range in Hl.
  assert (Hcp : 0x10000 <= code_point c d <= 0x10FFFF) by (unfold code_point; lia).
  unfold encode_code_point.
  destruct (N.ltb_spec (code_point c d) 0x80); [lia |].
  destruct (N.ltb_spec (code_point c d) 0x800); [lia |].
  destruct (N.ltb_spec (code_point c d) 0x10000); [lia |].
  cbn [app]. rewrite decode_4.
  - replace ((0xF0 + code_point c d / 262144 - 0xF0) * 262144
             + (0x80 + code_point c d / 4096 mod 64 - 0x80) * 4096
             + (0x80 + code_point c d / 64 mod 64 - 0x80) * 64
             + (0x80 + code_point c d mod 64 - 0x80))
      with (code_point c d) by divlia.
    unfold code_units.
    destruct (N.ltb_spec (code_point c d) 0x10000); [lia |].
    cbn [app]. unfold code_point. f_equal; [| f_equal]; divlia.
  - divlia.
  - destruct (N.eqb_spec (0xF0 + code_point c d / 262144) 0xF0); divlia.
  - destruct (N.eqb_spec (0xF0 + code_point c d / 262144) 0xF4); divlia.
  - divlia.
  - divlia.
Qed.

Lemma encode_unit c s :
  is_high c = false -> is_low c = false ->
  encode (c :: s) = encode_code_point c ++ encode s.
Proof. intros Hh Hl. cbn [encode]. now rewrite Hh, Hl. Qed.

Lemma encode_pair c d s :
  is_high c = true -> is_low d = true ->
  encode (c :: d :: s) = encode_code_point (code_point c d) ++ encode s.
Proof. intros Hh Hl. cbn [encode]. now rewrite Hh, Hl. Qed.

(** [Buffer.from(text).toString()] is [text] for a well-formed text. *)
Lemma utf8_decode_encode (text : jsstring) :
  wellPaired text -> forall r, decode (encode text ++ r) = text ++ decode r.
Proof.
  induction 1 as [| c s Hc Hh Hl _ IH | c d s Hh Hl _ IH]; intros r.
  - reflexivity.
  - rewrite encode_unit, <- app_assoc, decode_unit, IH by assumption. reflexivity.
  - rewrite encode_pair, <- app_assoc, decode_pair, IH by assumption. reflexivity.
Qed.

Lemma encode_code_point_bytes cp :
  cp <= 0x10FFFF -> Forall (fun b => b < 256) (encode_code_point cp).
Proof.
  intros H. unfold encode_code_point.
  destruct (N.ltb_spec cp 0x80); [| destruct (N.ltb_spec cp 0x800);
    [| destruct (N.ltb_spec cp 0x10000)]];
    repeat constructor; divlia.
Qed.

Lemma encode_bytes (text : jsstring) :
  wellPaired text -> Forall (fun b => b < 256) (encode text).
Proof.
  induction 1 as [| c s Hc Hh Hl _ IH | c d s Hh Hl _ IH].
  - constructor.
  - rewrite encode_unit by assumption. apply Forall_app. split; [| exact IH].
    apply encode_code_point_bytes. lia.
  - rewrite encode_pair by assumption. apply Forall_app. split; [| exact IH].
    apply encode_code_point_bytes.
    apply high_range in Hh. apply low_range in Hl. unfold code_point. lia.
Qed.

Lemma wellPaired_app (a b : jsstring) :
  wellPaired a -> wellPaired b -> wellPaired (a ++ b).
Proof.
  induction 1; intros Hb; cbn [app]; [assumption | |].
  - apply wellPaired_unit; auto.
  - apply wellPaired_pair; auto.
Qed.

(** Text outside the surrogate range, ASCII for one. *)
Lemma wellPaired_below (a : jsstring) :
  Forall (fun c => c < 0xD800) a -> wellPaired a.
Proof.
  induction 1 as [| c s Hc _ IH]; [constructor |].
  apply wellPaired_unit; [lia | | | exact IH].
  - unfold is_high. apply andb_false_iff. left. apply N.leb_gt. lia.
  - unfold is_low. apply andb_false_iff. left. apply N.leb_gt. lia.
Qed.

End Utf8Facts.

Module JsonFacts.

Import Json.
Local Open Scope N_scope.

(** *** Strings *)

Lemma hex_value_digit n : n < 16 -> hex_value (hex_digit n) = Some n.
Proof.
  intros Hn.
  assert (H : match hex_value (hex_digit n) with Some m => m =? n | None => false end
              = true).
  { revert n Hn. apply (N_below_forallb _ 16). vm_compute. reflexivity. }
  destruct (hex_value (hex_digit n)) as [m |]; [| discriminate].
  apply N.eqb_eq in H. now subst.
Qed.

Lemma hex_digit_ascii n : n < 16 -> hex_digit n < 128.
Proof. intros Hn. unfold hex_digit. destruct (n <? 10); lia. Qed.

Lemma parse_chars_escape c r :
  c < 65536 -> parse_chars (unicode_escape c ++ r) = prepend c (parse_chars r).
Proof.
  intros Hc. unfold unicode_escape. cbn [app parse_chars].
  change (92 =? 34) with false. change (92 =? 92) with true.
  change (117 =? 117) with true. cbv iota.
  unfold hex4. rewrite !hex_value_digit by divlia.
  replace (((c / 4096 * 16 + c / 256 mod 16) * 16 + c / 16 mod 16) * 16 + c mod 16)
    with c by divlia.
  reflexivity.
Qed.

Lemma parse_chars_literal c r :
  c <> 34 -> c <> 92 -> 32 <= c ->
  parse_chars (c :: r) = prepend c (parse_chars r).
Proof.
  intros H1 H2 H3. cbn [parse_chars].
  apply N.eqb_neq in H1, H2. rewrite H1, H2.
  replace (c <? 32) with false by (symmetry; apply N.ltb_ge; lia).
  reflexivity.
Qed.

Lemma parse_chars_quote_unit c r :
  c < 65536 -> parse_chars (quote_unit c ++ r) = prepend c (parse_chars r).
Proof.
  intros Hc. unfold quote_unit.
  repeat match goal with
         | |- context [if ?x =? ?k then _ else _] =>
             destruct (N.eqb_spec x k); [subst; reflexivity |]
         end.
  destruct ((c <? 32) || Utf8.is_high c || Utf8.is_low c)%bool eqn:E.
  - now apply parse_chars_escape.
  - bool_hyps. cbn [app]. apply parse_chars_literal; lia.
Qed.

Lemma quote_units_cons c s :
  Utf8.is_high c = false -> quote_units (c :: s) = quote_unit c ++ quote_units s.
Proof. intros H. cbn [quote_units]. now rewrite H. Qed.

Lemma quote_units_pair c d s :
  Utf8.is_high c = true -> Utf8.is_low d = true ->
  quote_units (c :: d :: s) = c :: d :: quote_units s.
Proof. intros Hc Hd. cbn [quote_units]. now rewrite Hc, Hd. Qed.

Lemma quote_units_lone c s :
  Utf8.is_high c = true ->
  match s with d :: _ => Utf8.is_low d = false | [] => True end ->
  quote_units (c :: s) = unicode_escape c ++ quote_units s.
Proof.
  intros Hc Hs. cbn [quote_units]. rewrite Hc.
  destruct s as [| d s]; [now rewrite app_nil_r | now rewrite Hs].
Qed.

(** The four ways a non-empty string starts. *)
Lemma quote_units_cases c s :
  (Utf8.is_high c = false /\ quote_units (c :: s) = quote_unit c ++ quote_units s) \/
  (Utf8.is_high c = true /\ quote_units (c :: s) = unicode_escape c ++ quote_units s) \/
  (exists d s', s = d :: s' /\ Utf8.is_high c = true /\ Utf8.is_low d = true /\
                quote_units (c :: s) = c :: d :: quote_units s').
Proof.
  destruct (Utf8.is_high c) eqn:Hc.
  - destruct s as [| d s'].
    + right. left. split; [reflexivity |]. now apply quote_units_lone.
    + destruct (Utf8.is_low d) eqn:Hd.
      * right. right. exists d, s'. repeat split; auto. now apply quote_units_pair.
      * right. left. split; [reflexivity |]. now apply quote_units_lone.
  - left. split; [reflexivity |]. now apply quote_units_cons.
Qed.

(** Reading back what [quote] wrote. *)
Lemma parse_chars_quote_units (s : jsstring) :
  codeUnits s -> forall r, parse_chars (quote_units s ++ 34 :: r) = Some (s, r).
Proof.
  induction s as [| a | a b l IHl IHbl] using list_ind2; intros Hs r.
  - reflexivity.
  - inversion_clear Hs as [| ? ? Ha _].
    destruct (quote_units_cases a []) as [[_ ->] | [[_ ->] | (d & s' & E & _)]];
      [| | discriminate].
    + rewrite <- app_assoc, parse_chars_quote_unit by assumption. reflexivity.
    + rewrite <- app_assoc, parse_chars_escape by assumption. reflexivity.
  - inversion Hs as [| ? ? Ha Hbl]. subst. inversion Hbl as [| ? ? Hb Hl]. subst.
    destruct (quote_units_cases a (b :: l))
      as [[_ ->] | [[_ ->] | (d & s' & [= <- <-] & Hh & Hlw & ->)]].
    + rewrite <- app_assoc, parse_chars_quote_unit, IHbl by assumption. reflexivity.
    + rewrite <- app_assoc, parse_chars_escape, IHbl by assumption. reflexivity.
    + apply Utf8Facts.high_range in Hh. apply Utf8Facts.low_range in Hlw.
      cbn [app]. rewrite !parse_chars_literal, IHl by (assumption || lia).
      reflexivity.
Qed.

Lemma wellPaired_escape c : c < 65536 -> wellPaired (unicode_escape c).
Proof.
  intros Hc. apply Utf8Facts.wellPaired_below. unfold unicode_escape.
  repeat constructor; try lia;
    match goal with
    | |- hex_digit ?n < _ => pose proof (@hex_digit_ascii n ltac:(divlia)); lia
    end.
Qed.

Lemma wellPaired_quote_unit c :
  c < 65536 -> Utf8.is_high c = false -> wellPaired (quote_unit c).
Proof.
  intros Hc Hh. unfold quote_unit.
  repeat match goal with
         | |- context [if ?x =? ?k then _ else _] =>
             destruct (N.eqb_spec x k);
             [apply Utf8Facts.wellPaired_below; repeat constructor; lia |]
         end.
  destruct ((c <? 32) || Utf8.is_high c || Utf8.is_low c)%bool eqn:E.
  - now apply wellPaired_escape.
  - bool_hyps. apply wellPaired_unit; auto. constructor.
Qed.

Lemma wellPaired_quote_units (s : jsstring) :
  codeUnits s -> wellPaired (quote_units s).
Proof.
  induction s as [| a | a b l IHl IHbl] using list_ind2; intros Hs.
  - constructor.
  - inversion_clear Hs as [| ? ? Ha _].
    destruct (quote_units_cases a []) as [[Hh ->] | [[_ ->] | (d & s' & E & _)]];
      [| | discriminate]; rewrite app_nil_r.
    + now apply wellPaired_quote_unit.
    + now apply wellPaired_escape.
  - inversion Hs as [| ? ? Ha Hbl]. subst. inversion Hbl as [| ? ? Hb Hl]. subst.
    destruct (quote_units_cases a (b :: l))
      as [[Hh ->] | [[_ ->] | (d & s' & [= <- <-] & Hh & Hlw & ->)]].
    + apply Utf8Facts.wellPaired_app; [now apply wellPaired_quote_unit | auto].
    + apply Utf8Facts.wellPaired_app; [now apply wellPaired_escape | auto].
    + apply wellPaired_pair; auto.
Qed.

Lemma wellPaired_quote (s : jsstring) : codeUnits s -> wellPaired (quote s).
Proof.
  intros Hs. unfold quote.
  change (34 :: quote_units s ++ [34]) with ([34] ++ quote_units s ++ [34]).
  repeat apply Utf8Facts.wellPaired_app.
  - apply Utf8Facts.wellPaired_below. repeat constructor.
  - now apply wellPaired_quote_units.
  - apply Utf8Facts.wellPaired_below. repeat constructor.
Qed.

(** *** Numbers *)

Lemma digits_value_snoc ds d : digits_value (ds ++ [d]) = digits_value ds * 10 + d.
Proof. unfold digits_value. now rewrite fold_left_app. Qed.

(** With fuel for its bits, [n] is written in full: the digits are
    digits, they denote [n], and the first is [0] for [0] only. *)
Lemma digits_spec (fuel : nat) :
  forall n, n < 2 ^ N.of_nat (S fuel) ->
    Forall (fun d => d < 10) (digits (S fuel) n) /\
    digits_value (digits (S fuel) n) = n /\
    exists d ds, digits (S fuel) n = d :: ds /\ (d = 0 -> n = 0 /\ ds = []).
Proof.
  assert (One : forall n, n < 10 ->
            Forall (fun d => d < 10) [n] /\ digits_value [n] = n /\
            exists d ds, [n] = d :: ds /\ (d = 0 -> n = 0 /\ ds = [])).
  { intros n Hlt. repeat split.
    - repeat constructor. exact Hlt.
    - exists n, []. split; [reflexivity | auto]. }
  induction fuel as [| fuel IH]; intros n Hn.
  - cbn [digits]. change (2 ^ N.of_nat 1) with 2 in Hn.
    destruct (N.ltb_spec n 10) as [Hlt | Hge]; [now apply One | lia].
  - change (digits (S (S fuel)) n)
      with (if n <? 10 then [n] else digits (S fuel) (n / 10) ++ [n mod 10]).
    destruct (N.ltb_spec n 10) as [Hlt | Hge]; [now apply One |].
    rewrite Nat2N.inj_succ, N.pow_succ_r' in Hn.
    destruct (IH (n / 10)) as (Hall & Hval & d & ds & Hds & Hd); [divlia |].
    repeat split.
    + apply Forall_app. split; [exact Hall |]. repeat constructor. divlia.
    + rewrite digits_value_snoc, Hval. divlia.
    + exists d, (ds ++ [n mod 10]). rewrite Hds. split; [reflexivity |].
      intros ->. destruct Hd as [Hz _]; [reflexivity | divlia].
Qed.

Lemma decimal_spec n :
  exists d ds,
    decimal n = (48 + d) :: map (N.add 48) ds /\
    Forall (fun x => x < 10) (d :: ds) /\
    digits_value (d :: ds) = n /\
    (d = 0 -> ds = []).
Proof.
  unfold decimal.
  destruct (@digits_spec (N.to_nat (N.log2 n)) n) as (Hall & Hval & d & ds & Hds & Hd).
  { rewrite Nat2N.inj_succ, N2Nat.id.
    destruct (N.eq_dec n 0) as [-> | Hn]; [reflexivity |].
    apply N.log2_spec. lia. }
  exists d, ds. rewrite Hds in *. repeat split; auto.
  intros Hz. now apply Hd.
Qed.

(** The digits are the significant ones and the zeros taken off. *)
Lemma significant_spec (ds : jsstring) :
  ds = fst (significant ds) ++ repeat 48 (snd (significant ds)).
Proof.
  induction ds as [| d ds IH]; [reflexivity |].
  cbn [significant]. destruct (significant ds) as [[| c sig] zeros]; cbn [fst snd] in *.
  - destruct (N.eqb_spec d 48) as [-> | _]; cbn [fst snd app repeat]; now rewrite IH at 1.
  - cbn [app]. now rewrite IH at 1.
Qed.

(** A number below 10^k has at most [k] digits. *)
Lemma digits_length (fuel : nat) :
  forall (k : nat) n, n < 10 ^ N.of_nat k -> (0 < k)%nat ->
    (List.length (digits fuel n) <= k)%nat.
Proof.
  induction fuel as [| fuel IH]; intros k n Hn Hk; cbn [digits]; [cbn; lia |].
  destruct (N.ltb_spec n 10) as [Hlt | Hge]; [cbn; lia |].
  rewrite length_app. cbn [List.length].
  destruct k as [| [| k]]; [lia | change (10 ^ N.of_nat 1) with 10 in Hn; lia |].
  assert (List.length (digits fuel (n / 10)) <= S k)%nat; [| lia].
  apply IH; [| lia].
  rewrite Nat2N.inj_succ, N.pow_succ_r' in Hn.
  apply N.Div0.div_lt_upper_bound; lia.
Qed.

(** Below 10^21 an integer is written with all its digits. *)
Lemma number_text_integer (z : Z) :
  (Z.abs z < 10 ^ 21)%Z -> number_text (Num z 0) = integer z.
Proof.
  intros Hz. unfold number_text, integer. cbn [mant exp10].
  destruct (Z.eqb_spec z 0) as [-> | Hnz]; [reflexivity |].
  pose proof (significant_spec (decimal (Z.abs_N z))) as Hds.
  assert (Hlen : (List.length (decimal (Z.abs_N z)) <= 21)%nat).
  { unfold decimal. rewrite length_map. apply digits_length; [| lia].
    change (10 ^ N.of_nat 21) with (Z.to_N (10 ^ 21)). lia. }
  destruct (significant (decimal (Z.abs_N z))) as [sig zeros]. cbn [fst snd] in Hds.
  rewrite Hds, length_app, repeat_length in Hlen.
  assert (Hbody : number_body sig (Z.of_nat (List.length sig) + Z.of_nat zeros + 0)
                  = decimal (Z.abs_N z)).
  { unfold number_body.
    destruct (Z.leb_spec (Z.of_nat (List.length sig))
                (Z.of_nat (List.length sig) + Z.of_nat zeros + 0)); [| lia].
    destruct (Z.leb_spec (Z.of_nat (List.length sig) + Z.of_nat zeros + 0) 21); [| lia].
    cbn [andb].
    replace (Z.to_nat (Z.of_nat (List.length sig) + Z.of_nat zeros + 0
                       - Z.of_nat (List.length sig))) with zeros by lia.
    now rewrite Hds. }
  rewrite Hbody. reflexivity.
Qed.

Lemma element_integer (z : Z) :
  (Z.abs z <= 2 ^ 53 - 1)%Z -> element (JNum (Num z 0)) = integer z.
Proof.
  intros Hz. unfold element. cbn [stringify].
  rewrite number_text_integer; [reflexivity | lia].
Qed.

Lemma take_digits_digits ds r :
  Forall (fun d => d < 10) ds -> take_digits r = ([], r) ->
  take_digits (map (N.add 48) ds ++ r) = (ds, r).
Proof.
  intros Hds Hr. induction Hds as [| d ds Hd _ IH]; [exact Hr |].
  cbn [map app take_digits]. unfold is_digit.
  rewrite Utf8Facts.within_true, IH by lia.
  f_equal. f_equal. lia.
Qed.

Lemma signed_abs z : signed (z <? 0)%Z (Z.abs_N z) = z.
Proof. unfold signed. destruct (Z.ltb_spec z 0); lia. Qed.

(** Reading back an integer that a comma follows. *)
Lemma parse_number_integer z r :
  parse_number (integer z ++ 44 :: r) = Some (Num z 0, 44 :: r).
Proof.
  destruct (decimal_spec (Z.abs_N z)) as (d & ds & Hdec & Hall & Hval & Hd).
  assert (Hint : parse_int (decimal (Z.abs_N z) ++ 44 :: r) = Some (d :: ds, 44 :: r)).
  { unfold parse_int. rewrite Hdec.
    change ((48 + d) :: map (N.add 48) ds) with (map (N.add 48) (d :: ds)).
    rewrite take_digits_digits by (assumption || reflexivity).
    destruct ds as [| d' ds']; [reflexivity |].
    destruct (N.eqb_spec d 0) as [Hz | _]; [| reflexivity].
    specialize (Hd Hz). discriminate. }
  assert (Hminus : take_minus (decimal (Z.abs_N z) ++ 44 :: r)
                   = (false, decimal (Z.abs_N z) ++ 44 :: r)).
  { rewrite Hdec. cbn [app take_minus].
    inversion_clear Hall as [| ? ? Hd10 _].
    destruct (N.eqb_spec (48 + d) 45); [lia | reflexivity]. }
  assert (Htail : forall neg,
            signed neg (digits_value (d :: ds)) = z ->
            match parse_frac (44 :: r) with
            | Some (fds, t3) =>
                match parse_exp t3 with
                | Some (e, t4) =>
                    Some (Num (signed neg (digits_value ((d :: ds) ++ fds)))
                              (e - Z.of_nat (List.length fds)), t4)
                | None => None
                end
            | None => None
            end = Some (Num z 0, 44 :: r)).
  { intros neg Hz.
    change (parse_frac (44 :: r)) with (Some (@nil N, 44 :: r)). cbv iota beta.
    change (parse_exp (44 :: r)) with (Some (0%Z, 44 :: r)). cbv iota beta.
    rewrite app_nil_r, Hz. reflexivity. }
  unfold parse_number, integer.
  destruct (Z.ltb_spec z 0) as [Hneg | Hpos].
  - cbn [app take_minus]. change (45 =? 45) with true. cbv iota.
    rewrite Hint. apply Htail. unfold signed. rewrite Hval. lia.
  - rewrite Hminus, Hint. apply Htail. unfold signed. rewrite Hval. lia.
Qed.

Lemma decimal_ascii n : Forall (fun c => c < 0xD800) (decimal n).
Proof.
  destruct (decimal_spec n) as (d & ds & -> & Hall & _).
  change ((48 + d) :: map (N.add 48) ds) with (map (N.add 48) (d :: ds)).
  apply Forall_map. eapply Forall_impl; [| exact Hall].
  intros a Ha. cbv beta in Ha. lia.
Qed.

Lemma wellPaired_integer z : wellPaired (integer z).
Proof.
  apply Utf8Facts.wellPaired_below. unfold integer.
  destruct (z <? 0)%Z; [constructor; [lia |] |]; apply decimal_ascii.
Qed.

Lemma integer_head z :
  exists c t, integer z = c :: t /\ ((c =? 45) || is_digit c)%bool = true /\
              is_ws c = false /\ (c =? 34) = false /\ (c =? 91) = false /\
              (c =? 93) = false /\ (c =? 123) = false.
Proof.
  unfold integer. destruct (z <? 0)%Z.
  - eexists _, _. split; [reflexivity |]. repeat split; reflexivity.
  - destruct (decimal_spec (Z.abs_N z)) as (d & ds & -> & Hall & _).
    inversion_clear Hall as [| ? ? Hd _].
    eexists _, _. split; [reflexivity |].
    unfold is_digit, is_ws.
    rewrite Utf8Facts.within_true by lia. rewrite orb_true_r.
    repeat split; repeat (apply orb_false_intro); apply N.eqb_neq; lia.
Qed.

(** *** Values *)

Lemma parse_value_string fuel s r :
  codeUnits s -> parse_value (S fuel) (quote s ++ r) = Some (JStr s, r).
Proof.
  intros Hs. unfold quote. cbn [app parse_value skip_ws].
  change (is_ws 34) with false. change (34 =? 34) with true. cbv iota.
  rewrite <- app_assoc. cbn [app].
  now rewrite parse_chars_quote_units.
Qed.

Lemma parse_value_integer fuel z r :
  parse_value (S fuel) (integer z ++ 44 :: r) = Some (JNum (Num z 0), 44 :: r).
Proof.
  destruct (integer_head z) as (c & t & E & Hnum & Hws & H34 & H91 & _ & H123).
  pose proof (parse_number_integer z r) as Hp. rewrite E in *.
  cbn [app parse_value skip_ws] in *.
  rewrite Hws, H34, H91, H123, Hnum, Hp. reflexivity.
Qed.

Lemma element_head v :
  validSortValue v ->
  exists c t, element v = c :: t /\ is_ws c = false /\ (c =? 93) = false.
Proof.
  destruct v as [| | b | [m e] | s | xs | props]; cbn [validSortValue]; try tauto.
  - intros [He Hm]. cbn in He, Hm. subst e. rewrite element_integer by exact Hm.
    destruct (integer_head m) as (c & t & E & _ & Hws & _ & _ & H93 & _).
    exists c, t. rewrite E. auto.
  - intros _. exists 34, (quote_units s ++ [34]). repeat split.
Qed.

Lemma parse_value_element fuel v r :
  validSortValue v ->
  parse_value (S fuel) (element v ++ 44 :: r) = Some (v, 44 :: r).
Proof.
  destruct v as [| | b | [m e] | s | xs | props]; cbn [validSortValue]; try tauto.
  - intros [He Hm]. cbn in He, Hm. subst e. rewrite element_integer by exact Hm.
    apply parse_value_integer.
  - intros Hs. now apply parse_value_string.
Qed.

Lemma wellPaired_element v : validSortValue v -> wellPaired (element v).
Proof.
  destruct v as [| | b | [m e] | s | xs | props]; cbn [validSortValue]; try tauto.
  - intros [He Hm]. cbn in He, Hm. subst e. rewrite element_integer by exact Hm.
    apply wellPaired_integer.
  - intros Hs. now apply wellPaired_quote.
Qed.

(** The text of the pair that a cursor holds. *)
Lemma stringify_pair v s :
  stringify (JArr [v; JStr s]) = Some (91 :: element v ++ 44 :: quote s ++ [93]).
Proof.
  cbn [stringify map join app]. unfold element.
  now rewrite <- !app_assoc.
Qed.

Lemma parse_pair v s :
  validSortValue v -> codeUnits s ->
  parse (91 :: element v ++ 44 :: quote s ++ [93]) = Some (JArr [v; JStr s]).
Proof.
  intros Hv Hs. unfold parse.
  set (rest := element v ++ 44 :: quote s ++ [93]).
  replace (2 * List.length (91%N :: rest) + 2)%nat
    with (S (S (S (S (2 * List.length rest))))) by (cbn [List.length]; lia).
  set (fuel := (2 * List.length rest)%nat).
  assert (E : parse_value (S (S (S (S fuel)))) (91 :: rest)
              = Some (JArr [v; JStr s], [])).
  { destruct (@element_head v Hv) as (c & t & Ec & Hws & H93).
    change (parse_value (S (S (S (S fuel)))) (91 :: rest))
      with (match skip_ws rest with
            | d :: r' =>
                if d =? 93 then Some (JArr [], r')
                else match parse_elements (S (S (S fuel))) rest with
                     | Some (xs, rest') => Some (JArr xs, rest')
                     | None => None
                     end
            | [] => None
            end).
    assert (Hskip : skip_ws rest = rest).
    { unfold rest. rewrite Ec. cbn [app skip_ws]. now rewrite Hws. }
    rewrite Hskip. unfold rest at 1. rewrite Ec. cbn [app]. rewrite H93.
    change (parse_elements (S (S (S fuel))) rest)
      with (match parse_value (S (S fuel)) rest with
            | Some (x, after) =>
                match skip_ws after with
                | d :: after' =>
                    if d =? 44 then
                      match parse_elements (S (S fuel)) after' with
                      | Some (xs, after'') => Some (x :: xs, after'')
                      | None => None
                      end
                    else if d =? 93 then Some ([x], after')
                    else None
                | [] => None
                end
            | None => None
            end).
    unfold rest. rewrite (@parse_value_element _ v _ Hv).
    cbn [skip_ws]. change (is_ws 44) with false. change (44 =? 44) with true.
    cbv iota.
    change (parse_elements (S (S fuel)) (quote s ++ [93]))
      with (match parse_value (S fuel) (quote s ++ [93]) with
            | Some (x, after) =>
                match skip_ws after with
                | d :: after' =>
                    if d =? 44 then
                      match parse_elements (S fuel) after' with
                      | Some (xs, after'') => Some (x :: xs, after'')
                      | None => None
                      end
                    else if d =? 93 then Some ([x], after')
                    else None
                | [] => None
                end
            | None => None
            end).
    rewrite (@parse_value_string _ s _ Hs). reflexivity. }
  rewrite E. reflexivity.
Qed.

Lemma wellPaired_pair_text v s :
  validSortValue v -> codeUnits s ->
  wellPaired (91 :: element v ++ 44 :: quote s ++ [93]).
Proof.
  intros Hv Hs.
  change (91 :: element v ++ 44 :: quote s ++ [93])
    with ([91] ++ element v ++ [44] ++ quote s ++ [93]).
  repeat apply Utf8Facts.wellPaired_app;
    try solve [apply Utf8Facts.wellPaired_below; repeat constructor].
  - now apply wellPaired_element.
  - now apply wellPaired_quote.
Qed.

(** *** Fuel

    What [parse_value] reads with some fuel it reads with any fuel from
    twice the number of characters read, less one. *)

Lemma skip_ws_length t : (List.length (skip_ws t) <= List.length t)%nat.
Proof.
  induction t as [| c t IH]; cbn [skip_ws List.length]; [lia |].
  destruct (is_ws c); cbn [List.length]; lia.
Qed.

Lemma prepend_inv c x s r :
  prepend c x = Some (s, r) -> exists s', x = Some (s', r) /\ s = c :: s'.
Proof.
  destruct x as [[s' r'] |]; cbn [prepend]; [| discriminate].
  intros [= <- <-]. eauto.
Qed.

Lemma parse_chars_length (n : nat) :
  forall t s r, (List.length t <= n)%nat -> parse_chars t = Some (s, r) ->
                (List.length r < List.length t)%nat.
Proof.
  induction n as [| n IH]; intros t s r Hn H.
  - destruct t; [discriminate | cbn [List.length] in Hn; lia].
  - destruct t as [| c t]; [discriminate |].
    cbn [parse_chars List.length] in *.
    destruct (c =? 34).
    { injection H as _ <-. lia. }
    destruct (c =? 92).
    + destruct t as [| e t]; [discriminate |]. cbn [List.length] in *.
      destruct (e =? 117).
      * destruct t as [| h1 [| h2 [| h3 [| h4 t]]]]; try discriminate.
        cbn [List.length] in *.
        destruct (hex4 h1 h2 h3 h4); [| discriminate].
        apply prepend_inv in H. destruct H as (s' & H & _).
        apply IH in H; lia.
      * destruct (simple_escape e); [| discriminate].
        apply prepend_inv in H. destruct H as (s' & H & _).
        apply IH in H; lia.
    + destruct (c <? 32); [discriminate |].
      apply prepend_inv in H. destruct H as (s' & H & _).
      apply IH in H; lia.
Qed.

Lemma take_digits_length t :
  (List.length (snd (take_digits t)) + List.length (fst (take_digits t))
   = List.length t)%nat.
Proof.
  induction t as [| c t IH]; cbn [take_digits]; [reflexivity |].
  destruct (is_digit c); [| cbn [fst snd List.length]; lia].
  destruct (take_digits t) as [ds r]. cbn [fst snd List.length] in *. lia.
Qed.

Lemma parse_number_length t n r :
  parse_number t = Some (n, r) -> (List.length r < List.length t)%nat.
Proof.
  unfold parse_number.
  assert (Hm : (List.length (snd (take_minus t)) <= List.length t)%nat).
  { destruct t as [| c t]; cbn [take_minus]; [cbn; lia |].
    destruct (c =? 45); cbn [snd List.length]; lia. }
  destruct (take_minus t) as [neg t1]. cbn [snd] in Hm.
  destruct (parse_int t1) as [[ids t2] |] eqn:Hi; [| discriminate].
  assert (H2 : (List.length t2 < List.length t1)%nat).
  { unfold parse_int in Hi. pose proof (take_digits_length t1) as L.
    destruct (take_digits t1) as [[| d [| d' ds]] rest]; cbn [fst snd List.length] in L;
      try discriminate.
    - injection Hi as _ <-. lia.
    - destruct (d =? 0); [discriminate |]. injection Hi as _ <-. lia. }
  destruct (parse_frac t2) as [[fds t3] |] eqn:Hf; [| discriminate].
  assert (H3 : (List.length t3 <= List.length t2)%nat).
  { unfold parse_frac in Hf. destruct t2 as [| c t2]; [injection Hf as _ <-; lia |].
    destruct (c =? 46).
    - pose proof (take_digits_length t2) as L.
      destruct (take_digits t2) as [[| d ds] rest]; [discriminate |].
      injection Hf as _ <-. cbn [fst snd List.length] in *. lia.
    - injection Hf as _ <-. lia. }
  destruct (parse_exp t3) as [[e t4] |] eqn:He; [| discriminate].
  assert (H4 : (List.length t4 <= List.length t3)%nat).
  { unfold parse_exp in He. destruct t3 as [| c t3]; [injection He as _ <-; lia |].
    destruct ((c =? 101) || (c =? 69))%bool; [| injection He as _ <-; lia].
    assert (Hs : (List.length (snd (take_sign t3)) <= List.length t3)%nat).
    { destruct t3 as [| s t0]; cbn [take_sign]; [cbn; lia |].
      destruct (s =? 45); [cbn [snd List.length]; lia |].
      destruct (s =? 43); cbn [snd List.length]; lia. }
    destruct (take_sign t3) as [neg' t']. cbn [snd] in Hs.
    pose proof (take_digits_length t') as L.
    destruct (take_digits t') as [[| d ds] rest]; [discriminate |].
    injection He as _ <-. cbn [fst snd List.length] in *. lia. }
  intros [= _ <-]. lia.
Qed.

Lemma strip_prefix_length p :
  forall t r, strip_prefix p t = Some r ->
              List.length t = (List.length p + List.length r)%nat.
Proof.
  induction p as [| a p IH]; intros t r H.
  - cbn in H. injection H as <-. reflexivity.
  - destruct t as [| b t]; [discriminate |]. cbn [strip_prefix] in H.
    destruct (a =? b); [| discriminate].
    apply IH in H. cbn [List.length]. lia.
Qed.

Lemma parse_literal_length t v r :
  parse_literal t = Some (v, r) -> (List.length r < List.length t)%nat.
Proof.
  unfold parse_literal.
  destruct (strip_prefix (js "true") t) eqn:E1.
  { intros [= _ <-]. apply strip_prefix_length in E1. cbn in E1. lia. }
  destruct (strip_prefix (js "false") t) eqn:E2.
  { intros [= _ <-]. apply strip_prefix_length in E2. cbn in E2. lia. }
  destruct (strip_prefix (js "null") t) eqn:E3; [| discriminate].
  intros [= _ <-]. apply strip_prefix_length in E3. cbn in E3. lia.
Qed.


Ltac refuel :=
  split; [lia |];
  intros [| fuel'] Hfuel; [exfalso; lia |];
  cbn [parse_value parse_elements parse_members];
  repeat match goal with
    | H : forall f : nat, _ -> ?p f ?t = _ |- context [?p ?F ?t] => rewrite (H F) by lia
    | H : ?x = _ |- context [match ?x with _ => _ end] => rewrite H
    | H : ?x = _ |- context [if ?x then _ else _] => rewrite H
    end;
  first [reflexivity | assumption].

Lemma reads_all (fuel : nat) :
  reads parse_value fuel /\ reads parse_elements fuel /\ reads parse_members fuel.
Proof.
  induction fuel as [| fuel (IHv & IHe & IHm)].
  - repeat split; discriminate.
  - split; [| split]; intros t x r H.
    + cbn [parse_value] in H.
      pose proof (skip_ws_length t) as Lt.
      destruct (skip_ws t) as [| c r0] eqn:Hws; [discriminate |].
      cbn [List.length] in Lt.
      destruct (c =? 34) eqn:H34.
      { destruct (parse_chars r0) as [[s rest] |] eqn:Hs; [| discriminate].
        injection H as <- <-.
        pose proof (@parse_chars_length _ r0 s rest (le_n _) Hs) as Ls.
        refuel. }
      destruct (c =? 91) eqn:H91.
      { pose proof (skip_ws_length r0) as Lr.
        destruct (skip_ws r0) as [| d r'] eqn:Hws'; [discriminate |].
        cbn [List.length] in Lr.
        destruct (d =? 93) eqn:H93.
        { injection H as <- <-. refuel. }
        destruct (parse_elements fuel r0) as [[xs rest] |] eqn:He; [| discriminate].
        injection H as <- <-. apply IHe in He. destruct He as [Le Fe].
        refuel. }
      destruct (c =? 123) eqn:H123.
      { pose proof (skip_ws_length r0) as Lr.
        destruct (skip_ws r0) as [| d r'] eqn:Hws'; [discriminate |].
        cbn [List.length] in Lr.
        destruct (d =? 125) eqn:H125.
        { injection H as <- <-. refuel. }
        destruct (parse_members fuel r0) as [[kvs rest] |] eqn:Hm; [| discriminate].
        injection H as <- <-. apply IHm in Hm. destruct Hm as [Lm Fm].
        refuel. }
      destruct ((c =? 45) || is_digit c)%bool eqn:Hnum.
      { destruct (parse_number (c :: r0)) as [[n rest] |] eqn:Hn; [| discriminate].
        injection H as <- <-.
        pose proof (parse_number_length _ Hn) as Ln. cbn [List.length] in Ln.
        refuel. }
      pose proof (parse_literal_length _ H) as Ll. cbn [List.length] in Ll.
      refuel.
    + cbn [parse_elements] in H.
      destruct (parse_value fuel t) as [[v rest] |] eqn:Hv; [| discriminate].
      apply IHv in Hv. destruct Hv as [Lv Fv].
      pose proof (skip_ws_length rest) as Lr.
      destruct (skip_ws rest) as [| d rest'] eqn:Hws; [discriminate |].
      cbn [List.length] in Lr.
      destruct (d =? 44) eqn:H44.
      { destruct (parse_elements fuel rest') as [[vs rest''] |] eqn:He; [| discriminate].
        injection H as <- <-. apply IHe in He. destruct He as [Le Fe].
        refuel. }
      destruct (d =? 93) eqn:H93; [| discriminate].
      injection H as <- <-. refuel.
    + cbn [parse_members] in H.
      pose proof (skip_ws_length t) as Lt.
      destruct (skip_ws t) as [| q r0] eqn:Hws; [discriminate |].
      cbn [List.length] in Lt.
      destruct (q =? 34) eqn:H34; [| discriminate].
      destruct (parse_chars r0) as [[key rest] |] eqn:Hk; [| discriminate].
      pose proof (@parse_chars_length _ r0 key rest (le_n _) Hk) as Lk.
      pose proof (skip_ws_length rest) as Lr.
      destruct (skip_ws rest) as [| colon rest1] eqn:Hws1; [discriminate |].
      cbn [List.length] in Lr.
      destruct (colon =? 58) eqn:H58; [| discriminate].
      destruct (parse_value fuel rest1) as [[v rest2] |] eqn:Hv; [| discriminate].
      apply IHv in Hv. destruct Hv as [Lv Fv].
      pose proof (skip_ws_length rest2) as Lr2.
      destruct (skip_ws rest2) as [| d rest3] eqn:Hws2; [discriminate |].
      cbn [List.length] in Lr2.
      destruct (d =? 44) eqn:H44.
      { destruct (parse_members fuel rest3) as [[kvs rest4] |] eqn:Hm; [| discriminate].
        injection H as <- <-. apply IHm in Hm. destruct Hm as [Lm Fm].
        refuel. }
      destruct (d =? 125) eqn:H125; [| discriminate].
      injection H as <- <-. refuel.
Qed.

(** Whatever fuel a reading took, [parse] has enough. *)
Lemma parse_complete fuel t v r :
  parse_value fuel t = Some (v, r) -> skip_ws r = [] -> parse t = Some v.
Proof.
  intros H Hr. destruct (reads_all fuel) as [Hv _].
  apply Hv in H. destruct H as [L F].
  unfold parse. rewrite F by lia. now rewrite Hr.
Qed.

Lemma parse_None text : parse text = None <-> ~ jsonText text.
Proof.
  split.
  - intros Hnone (fuel & v & rest & Hv & Hrest).
    rewrite (parse_complete _ _ Hv Hrest) in Hnone. discriminate.
  - intros Hno. destruct (parse text) as [v |] eqn:E; [| reflexivity].
    exfalso. apply Hno. unfold parse in E.
    destruct (parse_value _ text) as [[v' rest] |] eqn:Hv; [| discriminate].
    destruct (skip_ws rest) eqn:Hrest; [| discriminate].
    exists (2 * List.length text + 2)%nat, v', rest. auto.
Qed.

End JsonFacts.

(** * The query executor's request *)

(** Below 2^53 in magnitude every integer is a double. *)
Lemma roundDouble_exact (z : Z) : (- 2 ^ 53 <= z <= 2 ^ 53)%Z -> roundDouble z = z.
Proof.
  intros Hz. unfold roundDouble.
  destruct (Z.eq_dec (Z.abs z) (2 ^ 53)) as [Htop | Hlow].
  - assert (z = 2 ^ 53 \/ z = - 2 ^ 53)%Z as [-> | ->] by lia; reflexivity.
  - assert (Hlog : (Z.log2 (Z.abs z) <= 52)%Z).
    { destruct (Z.eq_dec z 0) as [-> | Hnz]; [discriminate |].
      assert (Z.log2 (Z.abs z) < 53)%Z; [| lia].
      apply Z.log2_lt_pow2; lia. }
    replace (Z.max 0 (Z.log2 (Z.abs z) - 52)) with 0%Z by lia.
    change (2 ^ 0)%Z with 1%Z.
    rewrite Z.mod_1_r, Z.div_1_r. cbn. lia.
Qed.

Lemma addDouble_exact (limit : Z) :
  (- 2 ^ 53 <= limit < 2 ^ 53)%Z -> addDouble limit 1 = (limit + 1)%Z.
Proof. intros H. unfold addDouble. apply roundDouble_exact. lia. Qed.

Section QueryExecutorFacts.

Variable DEFAULT_FIELD DEFAULT_DIRECTION : jsstring.

Local Abbreviation buildBody := (buildSearchBody DEFAULT_FIELD DEFAULT_DIRECTION).

(** What [buildSearchBody] returns: the body without a position, or
    with the decoded cursor as its position. *)
Lemma buildSearchBody_inv query limit cursor sortField sortDirection body :
  buildBody query limit cursor sortField sortDirection = Ok body ->
  Search_RequestBody.query body = query /\
  Search_RequestBody.sort body
    = [(propertyKey (fieldMappingAt (the DEFAULT_FIELD sortField)),
        the DEFAULT_DIRECTION sortDirection);
       (js "id", js "desc")] /\
  Search_RequestBody.size body = addDouble limit 1 /\
  Search_RequestBody.search_after body
    = if truthy_string cursor then decodeCursor (the [] cursor) else None.
Proof.
  unfold buildSearchBody, getSortFieldMapping. simpl.
  destruct (truthy_string cursor).
  - destruct (decodeCursor (the [] cursor)) as [v |]; [| discriminate].
    intros [= <-]. simpl. auto.
  - intros [= <-]. simpl. auto.
Qed.

(** A non-empty cursor that decodes is accepted. *)
Lemma buildSearchBody_accepts query limit (cursor : jsstring) sortField sortDirection
    searchAfter :
  cursor <> [] -> decodeCursor cursor = Some searchAfter ->
  exists body,
    buildBody query limit (Some cursor) sortField sortDirection = Ok body /\
    Search_RequestBody.search_after body = Some searchAfter.
Proof.
  intros Hne Hdec. unfold buildSearchBody, getSortFieldMapping. cbn [bind].
  destruct cursor as [| c cursor']; [congruence |].
  cbn [truthy_string the]. rewrite Hdec.
  eexists. split; reflexivity.
Qed.

(** A non-empty cursor that does not decode is rejected. *)
Lemma buildSearchBody_rejects query limit (cursor : jsstring) sortField sortDirection :
  cursor <> [] -> decodeCursor cursor = None ->
  buildBody query limit (Some cursor) sortField sortDirection
  = Throw (BadRequestException (js "Invalid cursor provided: " ++ cursor)).
Proof.
  intros Hne Hdec. unfold buildSearchBody, getSortFieldMapping. cbn [bind].
  destruct cursor as [| c cursor']; [congruence |].
  cbn [truthy_string the]. rewrite Hdec. reflexivity.
Qed.

(** C5: for a sort field that the resolver maps to the physical field
    [physical] and for every direction, the body that [buildSearchBody]
    returns sorts first on [physical] in that direction and then on
    [id], descending; without a cursor a body is always returned. *)
Theorem buildSearchBody_sort query limit cursor sortField sortDirection physical :
  getSortFieldMapping sortField = Ok (Mapped physical) ->
  (exists body,
     buildBody query limit None (Some sortField) (Some sortDirection) = Ok body) /\
  (forall body,
     buildBody query limit cursor (Some sortField) (Some sortDirection) = Ok body ->
     Search_RequestBody.sort body = [(physical, sortDirection); (js "id", js "desc")]).
Proof.
  intros Hf. split.
  - unfold buildSearchBody. cbn [the]. rewrite Hf. simpl. eauto.
  - intros body Hb. apply buildSearchBody_inv in Hb.
    destruct Hb as (_ & -> & _). simpl.
    unfold getSortFieldMapping in Hf. injection Hf as ->. reflexivity.
Qed.

(** The three outcomes of a cursor. *)
Lemma buildSearchBody_cursor query limit (cursor : jsstring)
    sortField sortDirection :
  ((exists error,
      buildBody query limit (Some cursor) sortField sortDirection = Throw error)
   <-> cursor <> [] /\ decodeCursor cursor = None) /\
  (cursor <> [] /\ decodeCursor cursor = None ->
   buildBody query limit (Some cursor) sortField sortDirection
   = Throw (BadRequestException (js "Invalid cursor provided: " ++ cursor))) /\
  (forall searchAfter,
     cursor <> [] -> decodeCursor cursor = Some searchAfter ->
     exists body,
       buildBody query limit (Some cursor) sortField sortDirection = Ok body /\
       Search_RequestBody.search_after body = Some searchAfter).
Proof.
  destruct (list_eq_dec N.eq_dec cursor []) as [-> | Hne].
  - assert (E : exists body,
               buildBody query limit (@Some jsstring []) sortField sortDirection
               = Ok body) by (eexists; reflexivity).
    destruct E as [body E]. rewrite E.
    split; [split |]; [| | split].
    + intros [error H]. discriminate.
    + intros [H _]. congruence.
    + intros [H _]. congruence.
    + intros v H. congruence.
  - destruct (decodeCursor cursor) as [v |] eqn:Hdec.
    + destruct (buildSearchBody_accepts query limit sortField sortDirection Hne Hdec)
        as (body & E & Hafter).
      rewrite E. split; [split |]; [| | split].
      * intros [error H]. discriminate.
      * intros [_ H]. discriminate.
      * intros [_ H]. discriminate.
      * intros v' _ [= <-]. eauto.
    + rewrite (buildSearchBody_rejects query limit sortField sortDirection Hne Hdec).
      split; [split |]; [| | split].
      * intros _. split; [assumption | reflexivity].
      * intros _. eauto.
      * intros _. reflexivity.
      * intros v' _ H. discriminate.
Qed.

(** C6, as the code has it: [buildSearchBody] rejects a cursor, with a
    BadRequestException, exactly when the cursor is a non-empty string
    whose base64-decoded text is not a JSON text; a cursor that decodes
    to any JSON value, a two-element sequence or not, is accepted and
    that value becomes [search_after]. *)
Theorem buildSearchBody_invalid_cursor query limit (cursor : jsstring)
    sortField sortDirection :
  ((exists error,
      buildBody query limit (Some cursor) sortField sortDirection = Throw error)
   <-> cursor <> [] /\ ~ Json.jsonText (Utf8.decode (Base64.decode cursor))) /\
  (cursor <> [] /\ ~ Json.jsonText (Utf8.decode (Base64.decode cursor)) ->
   buildBody query limit (Some cursor) sortField sortDirection
   = Throw (BadRequestException (js "Invalid cursor provided: " ++ cursor))) /\
  (forall searchAfter,
     cursor <> [] -> decodeCursor cursor = Some searchAfter ->
     exists body,
       buildBody query limit (Some cursor) sortField sortDirection = Ok body /\
       Search_RequestBody.search_after body = Some searchAfter).
Proof.
  destruct (buildSearchBody_cursor query limit cursor sortField sortDirection)
    as (Hiff & Hthrow & Hok).
  pose proof (JsonFacts.parse_None (Utf8.decode (Base64.decode cursor))) as HN.
  fold (decodeCursor cursor) in HN.
  split; [split |]; [| | split].
  - intros H. apply Hiff in H. destruct H as [Hne Hd]. split; [exact Hne |].
    apply HN. exact Hd.
  - intros [Hne Hd]. apply Hiff. split; [exact Hne |]. apply HN. exact Hd.
  - intros [Hne Hd]. apply Hthrow. split; [exact Hne |]. apply HN. exact Hd.
  - exact Hok.
Qed.

End QueryExecutorFacts.

Lemma buildSearchBody_sort_witness :
  (exists body,
     buildSearchBody (js "createdAt") (js "desc") (QBool [] None) 10 None
       (Some SandboxSearchSortField.MEMORY) (Some (js "asc")) = Ok body) /\
  (forall body,
     buildSearchBody (js "createdAt") (js "desc") (QBool [] None) 10 (Some (js "WzFd"))
       (Some SandboxSearchSortField.MEMORY) (Some (js "asc")) = Ok body ->
     Search_RequestBody.sort body = [(js "mem", js "asc"); (js "id", js "desc")]).
Proof.
  apply (@buildSearchBody_sort (js "createdAt") (js "desc") (QBool [] None) 10
           (Some (js "WzFd")) SandboxSearchSortField.MEMORY (js "asc") (js "mem")).
  reflexivity.
Defined.

Lemma buildSearchBody_invalid_cursor_witness :
  buildSearchBody (js "createdAt") (js "desc") (QBool [] None) 10
    (Some (js "%%%")) None None
  = Throw (BadRequestException (js "Invalid cursor provided: %%%")) /\
  exists body,
    buildSearchBody (js "createdAt") (js "desc") (QBool [] None) 10
      (Some (js "e30")) None None = Ok body /\
    Search_RequestBody.search_after body = Some (JObj []).
Proof.
  split.
  - apply (proj1 (proj2 (buildSearchBody_invalid_cursor (js "createdAt") (js "desc")
                           (QBool [] None) 10 (js "%%%") None None))).
    split; [discriminate |].
    apply (proj1 (JsonFacts.parse_None (Utf8.decode (Base64.decode (js "%%%"))))).
    reflexivity.
  - apply (proj2 (proj2 (buildSearchBody_invalid_cursor (js "createdAt") (js "desc")
                           (QBool [] None) 10 (js "e30") None None))).
    + discriminate.
    + reflexivity.
Defined.

(** C6 as stated fails: the cursor [WzFd] is the base64 text of [[1]],
    a one-element sequence, and [buildSearchBody] accepts it. *)
Lemma buildSearchBody_accepts_one_element_cursor :
  (forall a b, decodeCursor (js "WzFd") <> Some (JArr [a; b])) /\
  buildSearchBody (js "createdAt") (js "desc") (QBool [] None) 10
    (Some (js "WzFd")) None None
  = Ok {| Search_RequestBody.query := QBool [] None;
          Search_RequestBody.sort := [(js "createdAt", js "desc"); (js "id", js "desc")];
          Search_RequestBody.size := 11;
          Search_RequestBody.search_after := Some (JArr [JNum (Num 1 0)]) |}.
Proof.
  split.
  - intros a b. vm_compute. discriminate.
  - vm_compute. reflexivity.
Qed.

(** * The result mapper *)

Section ResultMapperFacts.

Variable newSandbox : JSValue -> JSValue -> Sandbox.t.

Local Abbreviation toSandbox := (fun hit => mapSourceToSandbox newSandbox (_source hit)).

Lemma encodeCursor_array (xs : list JSValue) :
  exists cursor, encodeCursor (JArr xs) = Ok cursor.
Proof. unfold encodeCursor. simpl. eauto. Qed.

Lemma slice0_firstn {A} (xs : list A) (limit : Z) :
  (0 <= limit <= Z.of_nat (List.length xs))%Z ->
  slice0 xs limit = firstn (Z.to_nat limit) xs.
Proof.
  intros H. unfold slice0.
  destruct (Z.ltb_spec limit 0); [lia |].
  now rewrite Z.min_l by lia.
Qed.

Lemma lastOf_firstn {A} (xs : list A) (n : nat) :
  (0 < n <= List.length xs)%nat ->
  exists x, nth_error xs (n - 1) = Some x /\ lastOf (firstn n xs) = Some x.
Proof.
  intros H. unfold lastOf.
  rewrite firstn_length_le, nth_error_firstn by lia.
  destruct (Nat.ltb_spec (n - 1) n); [| lia].
  destruct (nth_error xs (n - 1)) as [x |] eqn:E; [eauto |].
  apply nth_error_None in E. lia.
Qed.

(** C3: for a positive [limit], a page with more than [limit] hits
    yields the first [limit] hits, mapped in page order, and as
    [nextCursor] the encoding of the pair of the last retained hit's
    value under the physical sort field and its id; a page with at most
    [limit] hits yields all its hits and no [nextCursor].  The request
    built for a [limit] below 2^53 asks for [limit + 1] hits; from 2^53
    on the sum is rounded to a double and is no longer [limit + 1]. *)
Theorem processSearchResponse_page response limit sortField sortDirection physical :
  (0 < limit)%Z ->
  getSortFieldMapping sortField = Ok physical ->
  let page := the [] (body_hits response)?.hits in
  ((limit < Z.of_nat (List.length page))%Z ->
     exists lastItem cursor,
       nth_error page (Z.to_nat limit - 1) = Some lastItem /\
       encodeCursor (JArr [get (propertyKey physical) (_source lastItem);
                           get (js "id") (_source lastItem)]) = Ok cursor /\
       processSearchResponse newSandbox response limit sortField sortDirection
       = Ok {| items := map toSandbox (firstn (Z.to_nat limit) page);
               nextCursor := Some cursor |}) /\
  ((Z.of_nat (List.length page) <= limit)%Z ->
     processSearchResponse newSandbox response limit sortField sortDirection
     = Ok {| items := map toSandbox page; nextCursor := None |}) /\
  (forall defaultField defaultDirection query cursor field direction body,
     (limit < 2 ^ 53)%Z ->
     buildSearchBody defaultField defaultDirection query limit cursor field direction
     = Ok body ->
     Search_RequestBody.size body = (limit + 1)%Z).
Proof.
  intros Hpos Hf page. unfold processSearchResponse. fold page.
  split; [| split].
  - intros Hmore.
    destruct (Z.gtb_spec (Z.of_nat (List.length page)) limit) as [_ | Hle]; [| lia].
    rewrite slice0_firstn by lia.
    destruct (@lastOf_firstn _ page (Z.to_nat limit)) as (lastItem & Hnth & Hlast);
      [lia |].
    rewrite firstn_length_le by lia.
    destruct (Nat.ltb_spec 0 (Z.to_nat limit)); [| lia].
    cbn [andb]. rewrite Hlast, Hf. cbn [bind].
    destruct (encodeCursor_array
                [get (propertyKey physical) (_source lastItem);
                 get (js "id") (_source lastItem)]) as [cursor Hc].
    exists lastItem, cursor. rewrite Hc. cbn [bind]. auto.
  - intros Hle.
    destruct (Z.gtb_spec (Z.of_nat (List.length page)) limit) as [Hlt | _]; [lia |].
    reflexivity.
  - intros defaultField defaultDirection query cursor field direction body Hlt Hb.
    apply buildSearchBody_inv in Hb. destruct Hb as (_ & _ & -> & _).
    apply addDouble_exact. lia.
Qed.

End ResultMapperFacts.

Lemma processSearchResponse_page_witness :
  (exists lastItem cursor,
     nth_error Sample.page 1 = Some lastItem /\
     encodeCursor (JArr [get (js "mem") (_source lastItem);
                         get (js "id") (_source lastItem)]) = Ok cursor /\
     processSearchResponse Sample.newSandbox Sample.response 2
       SandboxSearchSortField.MEMORY (js "asc")
     = Ok {| items := map (fun hit => mapSourceToSandbox Sample.newSandbox (_source hit))
                          (firstn 2 Sample.page);
             nextCursor := Some cursor |}) /\
  processSearchResponse Sample.newSandbox Sample.response 3
    SandboxSearchSortField.MEMORY (js "asc")
  = Ok {| items := map (fun hit => mapSourceToSandbox Sample.newSandbox (_source hit))
                       Sample.page;
          nextCursor := None |} /\
  (forall body,
     buildSearchBody (js "createdAt") (js "desc") (QBool [] None) 2 None None None
     = Ok body ->
     Search_RequestBody.size body = 3%Z).
Proof.
  split; [| split].
  - apply (proj1 (@processSearchResponse_page Sample.newSandbox Sample.response 2
                    SandboxSearchSortField.MEMORY (js "asc") (Mapped (js "mem"))
                    eq_refl eq_refl)).
    reflexivity.
  - apply (proj1 (proj2 (@processSearchResponse_page Sample.newSandbox Sample.response 3
                           SandboxSearchSortField.MEMORY (js "asc") (Mapped (js "mem"))
                           eq_refl eq_refl))).
    discriminate.
  - intros body Hb.
    apply (proj2 (proj2 (@processSearchResponse_page Sample.newSandbox Sample.response 2
                           SandboxSearchSortField.MEMORY (js "asc") (Mapped (js "mem"))
                           eq_refl eq_refl))
             (js "createdAt") (js "desc") (QBool [] None) None None None body);
      [reflexivity | exact Hb].
Defined.

(** The cursor of the pair of 4 and b is the base64 text of its JSON
    text, and the first page of two of the sample ends on that pair. *)
Example encodeCursor_pair :
  encodeCursor (JArr [JNum (Num 4 0); JStr (js "b")]) = Ok (js "WzQsImIiXQ==").
Proof. reflexivity. Qed.

Example processSearchResponse_first_page :
  option_map nextCursor
    (match processSearchResponse Sample.newSandbox Sample.response 2
             SandboxSearchSortField.MEMORY (js "asc") with
     | Ok page => Some page
     | Throw _ => None
     end)
  = Some (Some (js "WzQsImIiXQ==")).
Proof. reflexivity. Qed.

Example decodeCursor_pair :
  decodeCursor (js "WzQsImIiXQ==") = Some (JArr [JNum (Num 4 0); JStr (js "b")]).
Proof. reflexivity. Qed.

(** C4: for a valid sort value [v] (a string, or an integer that a
    double holds exactly) and an id, the pair is encoded into a cursor,
    and decoding that cursor gives the pair back; handed to
    [buildSearchBody], the cursor puts the pair into [search_after]. *)
Theorem cursor_round_trip (v : JSValue) (id' : jsstring) :
  validSortValue v -> codeUnits id' ->
  exists cursor,
    encodeCursor (JArr [v; JStr id']) = Ok cursor /\
    decodeCursor cursor = Some (JArr [v; JStr id']) /\
    forall defaultField defaultDirection query limit sortField sortDirection,
    exists body,
      buildSearchBody defaultField defaultDirection query limit (Some cursor)
        sortField sortDirection = Ok body /\
      Search_RequestBody.search_after body = Some (JArr [v; JStr id']).
Proof.
  intros Hv Hid.
  set (text := (91 :: Json.element v ++ 44 :: Json.quote id' ++ [93])%N).
  pose proof (@JsonFacts.wellPaired_pair_text v id' Hv Hid) as Hwp. fold text in Hwp.
  exists (Base64.encode (Utf8.encode text)).
  assert (Henc : encodeCursor (JArr [v; JStr id']) = Ok (Base64.encode (Utf8.encode text))).
  { unfold encodeCursor. now rewrite JsonFacts.stringify_pair. }
  assert (Hdec : decodeCursor (Base64.encode (Utf8.encode text))
                 = Some (JArr [v; JStr id'])).
  { unfold decodeCursor.
    rewrite Base64Facts.base64_decode_encode by now apply Utf8Facts.encode_bytes.
    rewrite <- (app_nil_r (Utf8.encode text)), Utf8Facts.utf8_decode_encode by assumption.
    cbn [Utf8.decode]. rewrite app_nil_r.
    now apply JsonFacts.parse_pair. }
  split; [exact Henc |]. split; [exact Hdec |].
  intros defaultField defaultDirection query limit sortField sortDirection.
  apply buildSearchBody_accepts; [| exact Hdec].
  unfold text. cbn [Utf8.encode]. change (Utf8.is_high 91) with false.
  change (Utf8.is_low 91) with false. cbv iota.
  change (Utf8.encode_code_point 91) with [91%N]. cbn [app].
  destruct (Utf8.encode (Json.element v ++ _)) as [| b [| c rest]];
    cbn [Base64.encode]; discriminate.
Qed.

Lemma cursor_round_trip_witness :
  exists cursor,
    encodeCursor (JArr [JNum (Num 4 0); JStr (js "sandbox-1")]) = Ok cursor /\
    decodeCursor cursor = Some (JArr [JNum (Num 4 0); JStr (js "sandbox-1")]).
Proof.
  destruct (@cursor_round_trip (JNum (Num 4 0)) (js "sandbox-1")) as (cursor & He & Hd & _).
  - split; [reflexivity | discriminate].
  - repeat constructor.
  - exists cursor. split; assumption.
Defined.

(** * The index lifecycle *)

Section IndexLifecycleFacts.

Variable World : Type.
Variable indices_exists : jsstring -> World -> result bool * World.
Variable indices_create : jsstring -> IndexBody -> World -> result unit * World.
Variable indexName : jsstring.

Local Abbreviation create := (createIndex indices_exists indices_create indexName).

(** C8: [createIndex] surfaces no already-exists error.  Where the
    existence check finds the index it returns at once, the service
    left as the check left it (no creation call); where the creation
    call reports that the resource already exists it returns normally;
    and an error that it does throw is never an already-exists
    response. *)
Theorem createIndex_already_exists (w : World) :
  (forall w1, indices_exists indexName w = (Ok true, w1) -> create w = (Ok tt, w1)) /\
  (forall w1 w2 error,
     indices_exists indexName w = (Ok false, w1) ->
     indices_create indexName sandboxIndexBody w1 = (Throw error, w2) ->
     isAlreadyExists error = true ->
     create w = (Ok tt, w2)) /\
  (forall error w', create w = (Throw error, w') -> isAlreadyExists error = false).
Proof.
  unfold createIndex. split; [| split].
  - intros w1 ->. reflexivity.
  - intros w1 w2 error -> -> ->. reflexivity.
  - intros error w'.
    destruct (indices_exists indexName w) as [[[] | e] w1].
    + discriminate.
    + destruct (indices_create indexName sandboxIndexBody w1) as [[[] | e] w2].
      * discriminate.
      * destruct (isAlreadyExists e) eqn:E; [discriminate |].
        intros [= <- _]. exact E.
    + destruct (isAlreadyExists e) eqn:E; [discriminate |].
      intros [= <- _]. exact E.
Qed.

End IndexLifecycleFacts.

Lemma createIndex_already_exists_witness :
  fst (createIndex MemoryIndex.indices_exists MemoryIndex.indices_create
         (js "sandboxes") Sample.present) = Ok tt /\
  fst (createIndex MemoryIndex.indices_exists MemoryIndex.indices_create
         (js "sandboxes") Sample.raced) = Ok tt /\
  isAlreadyExists (JsError (js "connect ECONNREFUSED")) = false.
Proof.
  split; [| split].
  - erewrite (proj1 (createIndex_already_exists MemoryIndex.indices_exists
                       MemoryIndex.indices_create (js "sandboxes") Sample.present));
      reflexivity.
  - erewrite (proj1 (proj2 (createIndex_already_exists MemoryIndex.indices_exists
                              MemoryIndex.indices_create (js "sandboxes") Sample.raced)));
      reflexivity.
  - eapply (proj2 (proj2 (createIndex_already_exists MemoryIndex.indices_exists
                            MemoryIndex.indices_create (js "sandboxes")
                            Sample.unreachable))).
    reflexivity.
Defined.

(** * The adapter's entry point *)

Section SearchFacts.

Variable ERROR DESTROYED : jsstring.
Variable toLowerCase : jsstring -> jsstring.
Variable DEFAULT_FIELD DEFAULT_DIRECTION : jsstring.
Variable newSandbox : JSValue -> JSValue -> Sandbox.t.
Variable executeSearch : Search_RequestBody.t -> result SearchResponse.

Local Abbreviation searchSandboxes :=
  (search ERROR DESTROYED toLowerCase DEFAULT_FIELD DEFAULT_DIRECTION newSandbox
     executeSearch).

(** C10: an empty-string [id] or [name] and an empty [states],
    [snapshots] or [regionIds] array contribute no clause: the filters
    compile to the very query of the filters without that property, and
    [search] answers both alike. *)
Theorem search_empty_is_absent organizationId cursor limit (f f' : SandboxSearchFilters) :
  emptied f f' ->
  buildSearchQuery ERROR DESTROYED toLowerCase organizationId (Some f)
  = buildSearchQuery ERROR DESTROYED toLowerCase organizationId (Some f') /\
  searchSandboxes organizationId cursor limit (Some f)
  = searchSandboxes organizationId cursor limit (Some f').
Proof.
  intros He. pose proof (buildSearchQuery_emptied ERROR DESTROYED toLowerCase
                           organizationId He) as Hq.
  split; [exact Hq |].
  unfold search. rewrite Hq.
  assert (Hs : sort f' = sort f /\ order f' = order f).
  { destruct He as [[_ ->] | [[_ ->] | [[_ ->] | [[_ ->] | [_ ->]]]]]; split; reflexivity. }
  destruct Hs as [Hsort Horder]. cbn [opt_chain]. rewrite Hsort, Horder.
  reflexivity.
Qed.

End SearchFacts.

Lemma search_empty_is_absent_witness :
  buildSearchQuery Sample.ERROR Sample.DESTROYED Sample.toLowerCase
    (js "org-1") (Some Sample.filters)
  = buildSearchQuery Sample.ERROR Sample.DESTROYED Sample.toLowerCase
      (js "org-1") (Some (with_states None Sample.filters)) /\
  search Sample.ERROR Sample.DESTROYED Sample.toLowerCase (js "createdAt") (js "desc")
    Sample.newSandbox (fun _ => Ok Sample.response) (js "org-1") None 2
    (Some Sample.filters)
  = search Sample.ERROR Sample.DESTROYED Sample.toLowerCase (js "createdAt") (js "desc")
      Sample.newSandbox (fun _ => Ok Sample.response) (js "org-1") None 2
      (Some (with_states None Sample.filters)).
Proof.
  apply search_empty_is_absent.
  right. right. left. split; reflexivity.
Defined.


(** * The filter rules one by one *)

Section FilterRules.

Variable ERROR DESTROYED : jsstring.
Variable toLowerCase : jsstring -> jsstring.

Local Abbreviation compile := (buildSearchQuery ERROR DESTROYED toLowerCase).

Variable sel : QueryContainer -> bool.

Lemma filter_when_out (c : bool) (x : QueryContainer) :
  sel x = false -> filter sel (when c x) = [].
Proof. intros H. destruct c; cbn; [now rewrite H | reflexivity]. Qed.

Lemma filter_when_in (c : bool) (x : QueryContainer) :
  sel x = true -> filter sel (when c x) = when c x.
Proof. intros H. destruct c; cbn; [now rewrite H | reflexivity]. Qed.

Lemma filter_boolTerm_out field (b : option bool) :
  (forall v, sel (QTerm field v) = false) -> filter sel (boolTerm field b) = [].
Proof. intros H. destruct b; cbn; [now rewrite H | reflexivity]. Qed.

Lemma filter_boolTerm_in field (b : option bool) :
  (forall v, sel (QTerm field v) = true) -> filter sel (boolTerm field b) = boolTerm field b.
Proof. intros H. destruct b; cbn; [now rewrite H | reflexivity]. Qed.

Lemma filter_numberRange_out field lo hi :
  (forall a b, sel (QRange field a b) = false) -> filter sel (numberRange field lo hi) = [].
Proof. intros H. unfold numberRange. now apply filter_when_out. Qed.

Lemma filter_dateRange_out field after before c :
  dateRange field after before = Ok c ->
  (forall a b, sel (QRange field a b) = false) -> filter sel c = [].
Proof.
  intros Hc H. destruct (dateRange_ranges _ _ _ Hc) as [-> | (gte & lte & ->)].
  - reflexivity.
  - cbn. now rewrite H.
Qed.

Lemma filter_labels_out entries :
  (forall k v, sel (QTerm (labelField k) v) = false) ->
  filter sel (labelClauses entries) = [].
Proof.
  intros H. destruct entries as [kvs |]; [| reflexivity].
  induction kvs as [| kv kvs IH]; cbn [labelClauses map filter] in *; [reflexivity |].
  rewrite H. exact IH.
Qed.

Lemma filter_labels_in entries :
  (forall k v, sel (QTerm (labelField k) v) = true) ->
  filter sel (labelClauses entries) = labelClauses entries.
Proof.
  intros H. destruct entries as [kvs |]; [| reflexivity].
  induction kvs as [| kv kvs IH]; cbn [labelClauses map filter] in *; [reflexivity |].
  rewrite H. now rewrite IH.
Qed.

End FilterRules.

Lemma filter_single_out (sel : QueryContainer -> bool) (x : QueryContainer) :
  sel x = false -> filter sel [x] = [].
Proof. intros H. cbn. now rewrite H. Qed.

(** The clauses of [buildSearchQuery] that a selector keeps, where the
    selector keeps or drops each rule as a whole. *)
Ltac sift H1 H2 :=
  unfold leadingClauses;
  rewrite ?filter_app;
  repeat first
    [ rewrite filter_single_out by reflexivity
    | rewrite filter_when_out by reflexivity
    | rewrite filter_when_in by reflexivity
    | rewrite filter_boolTerm_out by (intros; reflexivity)
    | rewrite filter_boolTerm_in by (intros; reflexivity)
    | rewrite filter_numberRange_out by (intros; reflexivity)
    | rewrite (@filter_dateRange_out _ _ _ _ _ H1) by (intros; reflexivity)
    | rewrite (@filter_dateRange_out _ _ _ _ _ H2) by (intros; reflexivity)
    | rewrite filter_labels_out by (intros; reflexivity)
    | rewrite filter_labels_in by (intros; reflexivity) ];
  cbn [app]; rewrite ?app_nil_r.

Lemma dateRange_Ok field after before c :
  dateRange field after before = Ok c -> c = dateClauseFor field after before.
Proof.
  unfold dateRange, dateClauseFor.
  destruct after as [[ia |] |], before as [[ib |] |]; cbn; congruence.
Qed.

Lemma dateRange_Throw field after before error :
  dateRange field after before = Throw error ->
  error = RangeError (js "Invalid time value") /\
  (after = Some DateInvalid \/ before = Some DateInvalid).
Proof.
  unfold dateRange.
  destruct after as [[ia |] |], before as [[ib |] |]; cbn; try discriminate;
    intros [= <-]; auto.
Qed.

Section FilterRuleFacts.

Variable ERROR DESTROYED : jsstring.
Variable toLowerCase : jsstring -> jsstring.

Local Abbreviation compile := (buildSearchQuery ERROR DESTROYED toLowerCase).

(** X1: the [must] list of the returned query has one prefix clause on
    [id], with the lower-cased filter as its value, where the [id] filter
    is a non-empty string, and none otherwise; likewise for [name]. *)
Theorem buildSearchQuery_prefix_rules organizationId filters q :
  compile organizationId filters = Ok q ->
  prefixClausesOn (js "id") (query_must q)
    = match filters?.id with
      | Some (c :: s) => [QPrefix (js "id") (toLowerCase (c :: s))]
      | _ => []
      end /\
  prefixClausesOn (js "name") (query_must q)
    = match filters?.name with
      | Some (c :: s) => [QPrefix (js "name") (toLowerCase (c :: s))]
      | _ => []
      end.
Proof.
  intros Hq.
  destruct (buildSearchQuery_inv _ _ _ _ _ Hq) as (c1 & c2 & H1 & H2 & ->).
  cbn [query_must]. unfold prefixClausesOn. split; sift H1 H2.
  - destruct (filters?.id) as [[| c s] |]; reflexivity.
  - destruct (filters?.name) as [[| c s] |]; reflexivity.
Qed.

(** X2: the [must] list has one terms clause on [state] with exactly the
    [states] of the filters where that array is not empty, and none
    otherwise; likewise [snapshots] on [snapshot] and [regionIds] on
    [region]. *)
Theorem buildSearchQuery_terms_rules organizationId filters q :
  compile organizationId filters = Ok q ->
  termsClausesOn (js "state") (query_must q)
    = match filters?.states with
      | Some (s :: ss) => [QTerms (js "state") (s :: ss)]
      | _ => []
      end /\
  termsClausesOn (js "snapshot") (query_must q)
    = match filters?.snapshots with
      | Some (s :: ss) => [QTerms (js "snapshot") (s :: ss)]
      | _ => []
      end /\
  termsClausesOn (js "region") (query_must q)
    = match filters?.regionIds with
      | Some (s :: ss) => [QTerms (js "region") (s :: ss)]
      | _ => []
      end.
Proof.
  intros Hq.
  destruct (buildSearchQuery_inv _ _ _ _ _ Hq) as (c1 & c2 & H1 & H2 & ->).
  cbn [query_must]. unfold termsClausesOn. repeat split; sift H1 H2.
  - destruct (filters?.states) as [[| c s] |]; reflexivity.
  - destruct (filters?.snapshots) as [[| c s] |]; reflexivity.
  - destruct (filters?.regionIds) as [[| c s] |]; reflexivity.
Qed.

(** X3: [isPublic] and [isRecoverable] are tri-state: the [must] list has
    one term clause on [public] with the boolean given, [false] as well
    as [true], and none where the filter is undefined; likewise on
    [recoverable]. *)
Theorem buildSearchQuery_boolean_rules organizationId filters q :
  compile organizationId filters = Ok q ->
  termClausesOn (js "public") (query_must q)
    = match filters?.isPublic with
      | Some b => [QTerm (js "public") (JBool b)]
      | None => []
      end /\
  termClausesOn (js "recoverable") (query_must q)
    = match filters?.isRecoverable with
      | Some b => [QTerm (js "recoverable") (JBool b)]
      | None => []
      end.
Proof.
  intros Hq.
  destruct (buildSearchQuery_inv _ _ _ _ _ Hq) as (c1 & c2 & H1 & H2 & ->).
  cbn [query_must]. unfold termClausesOn. split; sift H1 H2; reflexivity.
Qed.

(** X4: the [must] list has, as its range clauses on [createdAt], none
    where both [createdAtAfter] and [createdAtBefore] are undefined and
    otherwise one, whose [gte] is the ISO text of [createdAtAfter] and
    whose [lte] is that of [createdAtBefore], each present exactly where
    the date is; likewise [lastEventAfter] and [lastEventBefore] on
    [lastActivityAt]. *)
Theorem buildSearchQuery_date_rules organizationId filters q :
  compile organizationId filters = Ok q ->
  rangeClausesOn (js "createdAt") (query_must q)
    = dateClauseFor (js "createdAt") filters?.createdAtAfter filters?.createdAtBefore /\
  rangeClausesOn (js "lastActivityAt") (query_must q)
    = dateClauseFor (js "lastActivityAt") filters?.lastEventAfter filters?.lastEventBefore.
Proof.
  intros Hq.
  destruct (buildSearchQuery_inv _ _ _ _ _ Hq) as (c1 & c2 & H1 & H2 & ->).
  cbn [query_must]. apply dateRange_Ok in H1, H2. subst c1 c2.
  split;
    rewrite !rangeClausesOn_app, rangeClausesOn_leading, !rangeClausesOn_numberRange,
      rangeClausesOn_labels;
    cbn [jsstring_eqb js list_ascii_of_string map N_of_ascii N.eqb Pos.eqb andb
         N_of_digits N.add N.mul app].
  - destruct (filters?.createdAtAfter), (filters?.createdAtBefore),
      (filters?.lastEventAfter), (filters?.lastEventBefore); reflexivity.
  - destruct (filters?.createdAtAfter), (filters?.createdAtBefore),
      (filters?.lastEventAfter), (filters?.lastEventBefore); reflexivity.
Qed.

(** X5: the term clauses of the [must] list on the sub-fields of [labels]
    are one per entry of the [labels] filter, in the order of the
    entries, each on the field [labels.] followed by the key and with the
    entry's value; an absent or empty [labels] gives none. *)
Theorem buildSearchQuery_label_rules organizationId filters q :
  compile organizationId filters = Ok q ->
  labelTerms (query_must q)
  = match filters?.labels with
    | Some entries =>
        map (fun kv => QTerm (js "labels." ++ fst kv) (JStr (snd kv))) entries
    | None => []
    end.
Proof.
  intros Hq.
  destruct (buildSearchQuery_inv _ _ _ _ _ Hq) as (c1 & c2 & H1 & H2 & ->).
  cbn [query_must]. unfold labelTerms. sift H1 H2. reflexivity.
Qed.

(** X6: [buildSearchQuery] throws exactly when one of the four date
    filters is an invalid [Date], and what it throws is the RangeError of
    [toISOString]. *)
Theorem buildSearchQuery_throws organizationId filters :
  ((exists error, compile organizationId filters = Throw error) <-> ~ datesValid filters) /\
  (forall error, compile organizationId filters = Throw error ->
     error = RangeError (js "Invalid time value")).
Proof.
  split; [split |].
  - intros [error H] Hvalid.
    destruct (buildSearchQuery_returns ERROR DESTROYED toLowerCase organizationId Hvalid)
      as [q Hq].
    congruence.
  - intros Hno. destruct (compile organizationId filters) as [q | error] eqn:E; [| eauto].
    exfalso. apply Hno.
    destruct (buildSearchQuery_inv _ _ _ _ _ E) as (c1 & c2 & H1 & H2 & _).
    unfold datesValid, dateRange in *.
    destruct (filters?.createdAtAfter) as [[|] |], (filters?.createdAtBefore) as [[|] |],
      (filters?.lastEventAfter) as [[|] |], (filters?.lastEventBefore) as [[|] |];
      cbn in H1, H2; try discriminate; repeat split; discriminate.
  - intros error. rewrite buildSearchQuery_clauses.
    destruct (dateRange (js "createdAt") _ _) as [c1 | e1] eqn:E1; cbn [bind].
    + destruct (dateRange (js "lastActivityAt") _ _) as [c2 | e2] eqn:E2; cbn [bind].
      * discriminate.
      * intros [= <-]. now apply dateRange_Throw in E2.
    + intros [= <-]. now apply dateRange_Throw in E1.
Qed.

End FilterRuleFacts.

Lemma buildSearchQuery_prefix_rules_witness :
  exists q,
    buildSearchQuery Sample.ERROR Sample.DESTROYED Sample.toLowerCase
      (js "org-1") (Some Sample.filters) = Ok q /\
    prefixClausesOn (js "id") (query_must q) = [] /\
    prefixClausesOn (js "name") (query_must q) = [QPrefix (js "name") (js "dev")].
Proof.
  eexists. split; [reflexivity |].
  apply (@buildSearchQuery_prefix_rules Sample.ERROR Sample.DESTROYED Sample.toLowerCase
           (js "org-1") (Some Sample.filters) _ eq_refl).
Defined.

Lemma buildSearchQuery_terms_rules_witness :
  exists q,
    buildSearchQuery Sample.ERROR Sample.DESTROYED Sample.toLowerCase
      (js "org-1") (Some Sample.filters) = Ok q /\
    termsClausesOn (js "state") (query_must q) = [] /\
    termsClausesOn (js "snapshot") (query_must q) = [QTerms (js "snapshot") [js "ubuntu"]] /\
    termsClausesOn (js "region") (query_must q) = [].
Proof.
  eexists. split; [reflexivity |].
  apply (@buildSearchQuery_terms_rules Sample.ERROR Sample.DESTROYED Sample.toLowerCase
           (js "org-1") (Some Sample.filters) _ eq_refl).
Defined.

Lemma buildSearchQuery_boolean_rules_witness :
  exists q,
    buildSearchQuery Sample.ERROR Sample.DESTROYED Sample.toLowerCase
      (js "org-1") (Some Sample.filters) = Ok q /\
    termClausesOn (js "public") (query_must q) = [QTerm (js "public") (JBool true)] /\
    termClausesOn (js "recoverable") (query_must q) = [].
Proof.
  eexists. split; [reflexivity |].
  apply (@buildSearchQuery_boolean_rules Sample.ERROR Sample.DESTROYED Sample.toLowerCase
           (js "org-1") (Some Sample.filters) _ eq_refl).
Defined.

Lemma buildSearchQuery_date_rules_witness :
  exists q,
    buildSearchQuery Sample.ERROR Sample.DESTROYED Sample.toLowerCase
      (js "org-1") (Some Sample.filters) = Ok q /\
    rangeClausesOn (js "createdAt") (query_must q)
    = [QRange (js "createdAt") (Some (JStr (js "2025-01-01T00:00:00.000Z"))) None] /\
    rangeClausesOn (js "lastActivityAt") (query_must q) = [].
Proof.
  eexists. split; [reflexivity |].
  apply (@buildSearchQuery_date_rules Sample.ERROR Sample.DESTROYED Sample.toLowerCase
           (js "org-1") (Some Sample.filters) _ eq_refl).
Defined.

Lemma buildSearchQuery_label_rules_witness :
  exists q,
    buildSearchQuery Sample.ERROR Sample.DESTROYED Sample.toLowerCase
      (js "org-1") (Some Sample.filters) = Ok q /\
    labelTerms (query_must q) = [QTerm (js "labels.team") (JStr (js "core"))].
Proof.
  eexists. split; [reflexivity |].
  apply (@buildSearchQuery_label_rules Sample.ERROR Sample.DESTROYED Sample.toLowerCase
           (js "org-1") (Some Sample.filters) _ eq_refl).
Defined.

Lemma buildSearchQuery_throws_witness :
  buildSearchQuery Sample.ERROR Sample.DESTROYED Sample.toLowerCase
    (js "org-1") (Some Specimen.invalidDate)
  = Throw (RangeError (js "Invalid time value")).
Proof.
  destruct (buildSearchQuery_throws Sample.ERROR Sample.DESTROYED Sample.toLowerCase
              (js "org-1") (Some Specimen.invalidDate)) as [[_ Hthrows] Hkind].
  destruct Hthrows as [error Herror].
  - intros (_ & H & _). now apply H.
  - rewrite Herror. f_equal. exact (Hkind error Herror).
Defined.

Section FilterFieldFacts.

Variable ERROR DESTROYED : jsstring.
Variable toLowerCase : jsstring -> jsstring.

Local Abbreviation searchable :=
  (fun c =>
     Forall (fun field => searchableField sandboxIndexBody field = true) (clauseFields c)).

Lemma searchable_when (c : bool) (x : QueryContainer) :
  searchable x -> Forall searchable (when c x).
Proof. intros H. destruct c; repeat constructor. exact H. Qed.

Lemma searchable_field (field : jsstring) :
  searchableField sandboxIndexBody field = true ->
  Forall (fun f => searchableField sandboxIndexBody f = true) [field].
Proof. intros H. repeat constructor. exact H. Qed.

(** X7: every field that a clause of the returned query constrains, the
    nested exclusion clause included, can be searched in the index that
    [createIndex] creates: it is a property of the strict mapping that
    the mapping indexes, or a sub-field of the flattened [labels].  The
    one property that the mapping does not index, [errorReason], is
    constrained by no clause. *)
Theorem buildSearchQuery_fields_searchable organizationId filters q :
  buildSearchQuery ERROR DESTROYED toLowerCase organizationId filters = Ok q ->
  Forall (fun field => searchableField sandboxIndexBody field = true) (clauseFields q) /\
  searchableField sandboxIndexBody (js "errorReason") = false /\
  ~ In (js "errorReason") (clauseFields q).
Proof.
  intros Hq.
  assert (Hall : Forall (fun field => searchableField sandboxIndexBody field = true)
                        (clauseFields q)).
  { destruct (buildSearchQuery_inv _ _ _ _ _ Hq) as (c1 & c2 & H1 & H2 & ->).
    cbn [clauseFields]. apply Forall_app. split.
    - apply Forall_flat_map. unfold leadingClauses, numberRange.
      repeat (apply Forall_app; split).
      + repeat constructor.
      + apply searchable_when, searchable_field. reflexivity.
      + apply searchable_when, searchable_field. reflexivity.
      + apply searchable_when, searchable_field. reflexivity.
      + apply searchable_when, searchable_field. reflexivity.
      + apply searchable_when, searchable_field. reflexivity.
      + apply searchable_when, searchable_field. reflexivity.
      + apply searchable_when, searchable_field. reflexivity.
      + apply searchable_when, searchable_field. reflexivity.
      + destruct (filters?.isPublic); repeat constructor.
      + destruct (filters?.isRecoverable); repeat constructor.
      + destruct (dateRange_ranges _ _ _ H1) as [-> | (gte & lte & ->)]; repeat constructor.
      + destruct (dateRange_ranges _ _ _ H2) as [-> | (gte & lte & ->)]; repeat constructor.
      + destruct (filters?.labels) as [kvs |]; [| constructor].
        clear Hq. induction kvs as [| kv kvs IH]; cbn [labelClauses map] in *; [constructor |].
        constructor; [| exact IH].
        apply searchable_field. reflexivity.
    - unfold mustNotOf. destruct (truthy_bool _); repeat constructor. }
  split; [exact Hall |]. split; [reflexivity |].
  intros Hin. rewrite Forall_forall in Hall. specialize (Hall _ Hin). discriminate Hall.
Qed.

(** X8: with the filters absent, and just as well with a filters object
    that has no property set, the query is the organization clause alone
    with the default exclusion as its [must_not]. *)
Theorem buildSearchQuery_no_filters organizationId :
  buildSearchQuery ERROR DESTROYED toLowerCase organizationId None
  = Ok (QBool [QTerm (js "organizationId") (JStr organizationId)]
              (Some [QBool [QTerm (js "state") (JStr ERROR);
                            QTerm (js "desiredState") (JStr DESTROYED)] None])) /\
  buildSearchQuery ERROR DESTROYED toLowerCase organizationId (Some emptyFilters)
  = buildSearchQuery ERROR DESTROYED toLowerCase organizationId None.
Proof. split; reflexivity. Qed.

End FilterFieldFacts.

Lemma buildSearchQuery_fields_searchable_witness :
  exists q,
    buildSearchQuery Sample.ERROR Sample.DESTROYED Sample.toLowerCase
      (js "org-1") (Some Sample.filters) = Ok q /\
    Forall (fun field => searchableField sandboxIndexBody field = true) (clauseFields q) /\
    searchableField sandboxIndexBody (js "errorReason") = false /\
    ~ In (js "errorReason") (clauseFields q).
Proof.
  eexists. split; [reflexivity |].
  apply (@buildSearchQuery_fields_searchable Sample.ERROR Sample.DESTROYED
           Sample.toLowerCase (js "org-1") (Some Sample.filters) _ eq_refl).
Defined.

(** * More on the request *)

Section RequestFacts.

Variable DEFAULT_FIELD DEFAULT_DIRECTION : jsstring.

Local Abbreviation request := (buildSearchBody DEFAULT_FIELD DEFAULT_DIRECTION).

(** X9: for each of the seven logical sort fields, the two sort keys of
    the request are distinct properties of the index mapping that can be
    sorted on (keyword, integer or date): the physical sort field is
    never [id], the tie-break key. *)
Theorem buildSearchBody_sort_keys query limit cursor sortField sortDirection body :
  In sortField SandboxSearchSortField.members ->
  request query limit cursor (Some sortField) sortDirection = Ok body ->
  Forall (fun key => sortableField sandboxIndexBody (fst key) = true)
         (Search_RequestBody.sort body) /\
  NoDup (map fst (Search_RequestBody.sort body)).
Proof.
  intros Hin Hb. apply buildSearchBody_inv in Hb. destruct Hb as (_ & -> & _).
  cbn [the]. cbn in Hin.
  decompose [or] Hin; try contradiction; subst sortField;
    (split;
     [ repeat constructor
     | cbn; constructor; [intros [H | []]; discriminate H | repeat constructor; intros [] ] ]).
Qed.

(** X10: the empty string as cursor is no cursor: the request is that of
    the first page.  A request is always built without a cursor, it
    carries the query unchanged and asks for [limit + 1] hits where
    [limit] and [limit + 1] are at most 2^53 in magnitude, and otherwise
    for the double nearest to [limit + 1]; and whatever the cursor, a
    request that was built has a [search_after] exactly when the cursor
    was a non-empty string. *)
Theorem buildSearchBody_first_page query limit sortField sortDirection :
  buildSearchBody DEFAULT_FIELD DEFAULT_DIRECTION query limit (Some []) sortField
    sortDirection
  = buildSearchBody DEFAULT_FIELD DEFAULT_DIRECTION query limit None sortField
      sortDirection /\
  (exists body,
     buildSearchBody DEFAULT_FIELD DEFAULT_DIRECTION query limit None sortField
       sortDirection = Ok body /\
     Search_RequestBody.query body = query /\
     Search_RequestBody.size body = roundDouble (limit + 1) /\
     ((- 2 ^ 53 <= limit < 2 ^ 53)%Z ->
      Search_RequestBody.size body = (limit + 1)%Z) /\
     Search_RequestBody.search_after body = None) /\
  (forall cursor body,
     buildSearchBody DEFAULT_FIELD DEFAULT_DIRECTION query limit cursor sortField
       sortDirection = Ok body ->
     (Search_RequestBody.search_after body = None <-> cursor = None \/ cursor = Some [])).
Proof.
  split; [reflexivity |]. split.
  - eexists. split; [reflexivity |].
    cbn [Search_RequestBody.query Search_RequestBody.size
         Search_RequestBody.search_after].
    repeat split. apply addDouble_exact.
  - intros cursor body Hb. pose proof (buildSearchBody_inv _ _ _ _ _ _ _ Hb) as (_ & _ & _ & Ha).
    rewrite Ha. destruct cursor as [[| c s] |]; cbn [truthy_string the].
    + split; auto.
    + split; [| intros [H | H]; discriminate H].
      intros Hd. exfalso.
      rewrite (@buildSearchBody_rejects DEFAULT_FIELD DEFAULT_DIRECTION query limit (c :: s)
                 sortField sortDirection) in Hb; [discriminate | discriminate | exact Hd].
    + split; auto.
Qed.

End RequestFacts.

(** At 2^53 the request asks for 2^53 hits, not for one more. *)
Example buildSearchBody_size_rounds :
  buildSearchBody (js "createdAt") (js "desc") (QBool [] None) (2 ^ 53) None None None
  = Ok {| Search_RequestBody.query := QBool [] None;
          Search_RequestBody.sort := [(js "createdAt", js "desc"); (js "id", js "desc")];
          Search_RequestBody.size := 2 ^ 53;
          Search_RequestBody.search_after := None |}.
Proof. reflexivity. Qed.

Lemma buildSearchBody_first_page_witness :
  exists body,
    buildSearchBody (js "createdAt") (js "desc") (QBool [] None) 10 None None None
    = Ok body /\
    Search_RequestBody.size body = 11%Z.
Proof.
  destruct (proj1 (proj2 (@buildSearchBody_first_page (js "createdAt") (js "desc")
                            (QBool [] None) 10 None None)))
    as (body & Hb & _ & _ & Hsize & _).
  exists body. split; [exact Hb |]. apply Hsize. lia.
Defined.

Lemma buildSearchBody_sort_keys_witness :
  exists body,
    buildSearchBody (js "createdAt") (js "desc") (QBool [] None) 10 None
      (Some SandboxSearchSortField.MEMORY) (Some (js "asc")) = Ok body /\
    Forall (fun key => sortableField sandboxIndexBody (fst key) = true)
           (Search_RequestBody.sort body) /\
    NoDup (map fst (Search_RequestBody.sort body)).
Proof.
  eexists. split; [reflexivity |].
  apply (@buildSearchBody_sort_keys (js "createdAt") (js "desc") (QBool [] None) 10 None
           SandboxSearchSortField.MEMORY (Some (js "asc")) _).
  - cbn. tauto.
  - reflexivity.
Defined.

(** * More on the cursor codec *)

Module CursorFacts.

Import Json.
Local Open Scope N_scope.

Lemma parse_number_integer_end z d r :
  endsElement d -> parse_number (integer z ++ d :: r) = Some (Num z 0, d :: r).
Proof.
  intros Hd.
  assert (Hdig : take_digits (d :: r) = ([], d :: r)) by (destruct Hd; subst d; reflexivity).
  assert (Hfrac : parse_frac (d :: r) = Some ([], d :: r))
    by (destruct Hd; subst d; reflexivity).
  assert (Hexp : parse_exp (d :: r) = Some (0%Z, d :: r))
    by (destruct Hd; subst d; reflexivity).
  destruct (JsonFacts.decimal_spec (Z.abs_N z)) as (x & xs & Hdec & Hall & Hval & Hx).
  assert (Hint : parse_int (decimal (Z.abs_N z) ++ d :: r) = Some (x :: xs, d :: r)).
  { unfold parse_int. rewrite Hdec.
    change ((48 + x) :: map (N.add 48) xs) with (map (N.add 48) (x :: xs)).
    rewrite JsonFacts.take_digits_digits by assumption.
    destruct xs as [| x' xs']; [reflexivity |].
    destruct (N.eqb_spec x 0) as [Hz | _]; [| reflexivity].
    specialize (Hx Hz). discriminate. }
  assert (Hminus : take_minus (decimal (Z.abs_N z) ++ d :: r)
                   = (false, decimal (Z.abs_N z) ++ d :: r)).
  { rewrite Hdec. cbn [app take_minus].
    inversion_clear Hall as [| ? ? Hx10 _].
    destruct (N.eqb_spec (48 + x) 45); [lia | reflexivity]. }
  unfold parse_number, integer.
  destruct (Z.ltb_spec z 0) as [Hneg | Hpos].
  - cbn [app take_minus]. change (45 =? 45) with true. cbv iota.
    rewrite Hint, Hfrac, Hexp, app_nil_r, Hval. cbn [List.length].
    f_equal. f_equal. f_equal. unfold signed. lia.
  - rewrite Hminus, Hint, Hfrac, Hexp, app_nil_r, Hval. cbn [List.length].
    f_equal. f_equal. f_equal. unfold signed. lia.
Qed.

Lemma parse_value_integer_end fuel z d r :
  endsElement d ->
  parse_value (S fuel) (integer z ++ d :: r) = Some (JNum (Num z 0), d :: r).
Proof.
  intros Hd.
  destruct (JsonFacts.integer_head z) as (c & t & E & Hnum & Hws & H34 & H91 & _ & H123).
  pose proof (parse_number_integer_end z r Hd) as Hp. rewrite E in *.
  cbn [app parse_value skip_ws] in *.
  rewrite Hws, H34, H91, H123, Hnum, Hp. reflexivity.
Qed.

(** Reading back a scalar element of an array. *)
Lemma parse_value_scalar fuel v d r :
  scalar v -> endsElement d ->
  parse_value (S fuel) (element v ++ d :: r) = Some (revived v, d :: r).
Proof.
  destruct v as [| | [] | [m e] | s | xs | props]; cbn [scalar]; try tauto;
    try solve [intros _ _; reflexivity].
  - intros [He Hm] Hd. cbn in He, Hm. subst e.
    rewrite JsonFacts.element_integer by exact Hm.
    cbn [revived]. now apply parse_value_integer_end.
  - intros Hs _. now apply JsonFacts.parse_value_string.
Qed.

Lemma element_scalar_head v :
  scalar v -> exists c t, element v = c :: t /\ is_ws c = false /\ (c =? 93) = false.
Proof.
  destruct v as [| | [] | [m e] | s | xs | props]; cbn [scalar]; try tauto;
    try solve [intros _; eexists _, _; repeat split; reflexivity].
  - intros [He Hm]. cbn in He, Hm. subst e.
    rewrite JsonFacts.element_integer by exact Hm.
    destruct (JsonFacts.integer_head m) as (c & t & E & _ & Hws & _ & _ & H93 & _).
    exists c, t. rewrite E. auto.
Qed.

Lemma wellPaired_scalar v : scalar v -> wellPaired (element v).
Proof.
  destruct v as [| | [] | [m e] | s | xs | props]; cbn [scalar]; try tauto;
    try solve [intros _; apply Utf8Facts.wellPaired_below; repeat constructor].
  - intros [He Hm]. cbn in He, Hm. subst e.
    rewrite JsonFacts.element_integer by exact Hm.
    apply JsonFacts.wellPaired_integer.
  - intros Hs. now apply JsonFacts.wellPaired_quote.
Qed.

Lemma stringify_two v w :
  stringify (JArr [v; w]) = Some (91 :: element v ++ 44 :: element w ++ [93]).
Proof.
  cbn [stringify map join app]. unfold element.
  now rewrite <- !app_assoc.
Qed.

Lemma parse_two v w :
  scalar v -> scalar w ->
  parse (91 :: element v ++ 44 :: element w ++ [93]) = Some (JArr [revived v; revived w]).
Proof.
  intros Hv Hw.
  apply (@JsonFacts.parse_complete 4 _ _ []); [| reflexivity].
  destruct (element_scalar_head v Hv) as (c & t & Ec & Hws & H93).
  cbn [parse_value skip_ws]. change (is_ws 91) with false. cbv iota.
  change (91 =? 34) with false. change (91 =? 91) with true. cbv iota.
  assert (Hskip : skip_ws (element v ++ 44 :: element w ++ [93])
                  = element v ++ 44 :: element w ++ [93]).
  { rewrite Ec. cbn [app skip_ws]. now rewrite Hws. }
  rewrite Hskip. rewrite Ec at 1. cbn [app]. rewrite H93.
  cbn [parse_elements].
  rewrite (@parse_value_scalar _ v 44 _ Hv) by (now left).
  cbn [skip_ws]. change (is_ws 44) with false. change (44 =? 44) with true. cbv iota.
  rewrite (@parse_value_scalar _ w 93 _ Hw) by (now right).
  reflexivity.
Qed.

Lemma wellPaired_two v w :
  scalar v -> scalar w -> wellPaired (91 :: element v ++ 44 :: element w ++ [93]).
Proof.
  intros Hv Hw.
  change (91 :: element v ++ 44 :: element w ++ [93])
    with ([91] ++ element v ++ [44] ++ element w ++ [93]).
  repeat apply Utf8Facts.wellPaired_app;
    try solve [apply Utf8Facts.wellPaired_below; repeat constructor].
  - now apply wellPaired_scalar.
  - now apply wellPaired_scalar.
Qed.

End CursorFacts.

Lemma encodeCursor_two (v w : JSValue) : encodeCursor (JArr [v; w]) = Ok (pairCursor v w).
Proof. unfold encodeCursor. now rewrite CursorFacts.stringify_two. Qed.

Lemma decodeCursor_text (text : jsstring) :
  wellPaired text -> decodeCursor (Base64.encode (Utf8.encode text)) = Json.parse text.
Proof.
  intros Hwp. unfold decodeCursor.
  rewrite Base64Facts.base64_decode_encode by now apply Utf8Facts.encode_bytes.
  rewrite <- (app_nil_r (Utf8.encode text)), Utf8Facts.utf8_decode_encode by assumption.
  cbn [Utf8.decode]. now rewrite app_nil_r.
Qed.

Lemma pairCursor_not_empty (v w : JSValue) : pairCursor v w <> [].
Proof.
  unfold pairCursor. cbn [Utf8.encode]. change (Utf8.is_high 91) with false.
  change (Utf8.is_low 91) with false. cbv iota.
  change (Utf8.encode_code_point 91) with [91%N]. cbn [app].
  destruct (Utf8.encode (Json.element v ++ _)) as [| b [| c rest]];
    cbn [Base64.encode]; discriminate.
Qed.

Lemma decodeCursor_pairCursor (v w : JSValue) :
  scalar v -> scalar w -> decodeCursor (pairCursor v w) = Some (JArr [revived v; revived w]).
Proof.
  intros Hv Hw. unfold pairCursor.
  rewrite decodeCursor_text by now apply CursorFacts.wellPaired_two.
  now apply CursorFacts.parse_two.
Qed.

(** * More on the result mapper *)

Lemma lastOf_nonempty {A} (xs : list A) :
  (0 < List.length xs)%nat -> exists x, lastOf xs = Some x.
Proof.
  intros H. unfold lastOf.
  destruct (nth_error xs (List.length xs - 1)) as [x |] eqn:E; [eauto |].
  apply nth_error_None in E. lia.
Qed.

Lemma slice0_length {A} (xs : list A) (limit : Z) :
  (List.length (slice0 xs limit) <= List.length xs)%nat /\
  ((0 <= limit)%Z -> (Z.of_nat (List.length (slice0 xs limit)) <= limit)%Z).
Proof.
  unfold slice0. rewrite length_firstn.
  destruct (Z.ltb_spec limit 0); split; lia.
Qed.

Lemma dateOf_falsy (v : JSValue) :
  (dateOf v = None <-> falsy v) /\ (forall d, dateOf v = Some d -> d = v).
Proof.
  unfold dateOf, falsy. split.
  - destruct v as [| | [] | [m e] | [| c s] | xs | props]; cbn [truthy mant];
      try (split; [intros _ | reflexivity]; tauto);
      try (split; [discriminate |];
           intros [H | [H | [H | [[e' H] | H]]]]; discriminate H).
    + destruct (Z.eqb_spec m 0) as [-> | Hm]; cbn [negb].
      * split; [intros _ | reflexivity]. right. right. right. left. eauto.
      * split; [discriminate |].
        intros [H | [H | [H | [[e' H] | H]]]]; try discriminate H.
        injection H as -> _. contradiction.
  - intros d. destruct (truthy v); [| discriminate]. intros [= <-]. reflexivity.
Qed.

Section ResultMapperMore.

Variable newSandbox : JSValue -> JSValue -> Sandbox.t.

Local Abbreviation toEntity := (fun hit => mapSourceToSandbox newSandbox (_source hit)).
Local Abbreviation respond := (processSearchResponse newSandbox).

(** [processSearchResponse] in one expression. *)
Lemma processSearchResponse_eq response limit sortField sortDirection :
  respond response limit sortField sortDirection
  = Ok {| items :=
            map toEntity
                (if (Z.of_nat (List.length (pageOf response)) >? limit)%Z
                 then slice0 (pageOf response) limit else pageOf response);
          nextCursor :=
            if (Z.of_nat (List.length (pageOf response)) >? limit)%Z
            then option_map
                   (fun lastItem =>
                      pairCursor
                        (get (propertyKey (fieldMappingAt sortField)) (_source lastItem))
                        (get (js "id") (_source lastItem)))
                   (lastOf (slice0 (pageOf response) limit))
            else None |}.
Proof.
  unfold processSearchResponse, getSortFieldMapping. fold (pageOf response).
  destruct (Z.of_nat (List.length (pageOf response)) >? limit)%Z; [| reflexivity].
  cbn [andb]. destruct (Nat.ltb_spec 0 (List.length (slice0 (pageOf response) limit)))
    as [Hpos | Hzero].
  - destruct (lastOf_nonempty _ Hpos) as [lastItem ->].
    cbn [bind option_map]. rewrite encodeCursor_two. reflexivity.
  - destruct (slice0 (pageOf response) limit) as [| x xs]; [reflexivity |].
    cbn [List.length] in Hzero. lia.
Qed.

(** X11: [processSearchResponse] returns for every response and limit.
    It returns no more items than the page holds and, for a limit of zero
    or more, no more than [limit]; and it returns a [nextCursor] only
    together with at least one item and only where the page holds more
    than [limit] hits: with a limit of zero the result is empty and ends
    the pagination. *)
Theorem processSearchResponse_bounds response limit sortField sortDirection :
  exists result,
    respond response limit sortField sortDirection = Ok result /\
    (List.length (items result) <= List.length (pageOf response))%nat /\
    ((0 <= limit)%Z -> (Z.of_nat (List.length (items result)) <= limit)%Z) /\
    (nextCursor result <> None ->
     items result <> [] /\ (limit < Z.of_nat (List.length (pageOf response)))%Z).
Proof.
  rewrite processSearchResponse_eq. eexists. split; [reflexivity |].
  cbn [items nextCursor]. rewrite length_map.
  pose proof (slice0_length (pageOf response) limit) as [Hlen Hlim].
  destruct (Z.gtb_spec (Z.of_nat (List.length (pageOf response))) limit) as [Hmore | Hle].
  - split; [exact Hlen |]. split; [exact Hlim |].
    intros Hnext. split; [| exact Hmore].
    destruct (slice0 (pageOf response) limit) as [| x xs]; [| discriminate].
    cbn in Hnext. congruence.
  - split; [lia |]. split; [lia |].
    intros Hnext. congruence.
Qed.

(** X12: a response without [hits], or whose [hits] has no [hits] array,
    is an empty page: no items and no [nextCursor], whatever the limit,
    and no error. *)
Theorem processSearchResponse_missing_hits response limit sortField sortDirection :
  body_hits response = None \/ body_hits response = Some {| hits := None |} ->
  respond response limit sortField sortDirection
  = Ok {| items := []; nextCursor := None |}.
Proof.
  intros H. rewrite processSearchResponse_eq.
  assert (Hp : pageOf response = []) by (unfold pageOf; destruct H as [-> | ->]; reflexivity).
  rewrite Hp. unfold slice0. rewrite firstn_nil.
  destruct (Z.of_nat (List.length (@nil Hit)) >? limit)%Z; reflexivity.
Qed.

(** X13: [mapSourceToSandbox] reads the properties of the index mapping
    and no others: two documents that agree on every property declared in
    the mapping of [createIndex] are mapped to the same entity. *)
Theorem mapSourceToSandbox_reads_mapping (a b : list (jsstring * JSValue)) :
  agreeOn (map fst (properties sandboxIndexBody)) a b ->
  mapSourceToSandbox newSandbox a = mapSourceToSandbox newSandbox b.
Proof.
  intros H. unfold mapSourceToSandbox.
  repeat match goal with
         | |- context [get ?k a] =>
             rewrite (H k) by (cbn [map fst properties sandboxIndexBody In];
                               repeat (first [left; reflexivity | right]))
         end.
  reflexivity.
Qed.

(** X14: a timestamp of the entity is unset exactly where the document's
    value is false in a condition (missing, [null], [false], zero or the
    empty string); otherwise it is the date made from the document's
    value.  So for [createdAt], [updatedAt] and [lastActivityAt]. *)
Theorem mapSourceToSandbox_dates (source : list (jsstring * JSValue)) :
  let entity := mapSourceToSandbox newSandbox source in
  ((Sandbox.createdAt entity = None <-> falsy (get (js "createdAt") source)) /\
   (forall d, Sandbox.createdAt entity = Some d -> d = get (js "createdAt") source)) /\
  ((Sandbox.updatedAt entity = None <-> falsy (get (js "updatedAt") source)) /\
   (forall d, Sandbox.updatedAt entity = Some d -> d = get (js "updatedAt") source)) /\
  ((Sandbox.lastActivityAt entity = None <-> falsy (get (js "lastActivityAt") source)) /\
   (forall d, Sandbox.lastActivityAt entity = Some d
              -> d = get (js "lastActivityAt") source)).
Proof.
  cbn zeta. unfold mapSourceToSandbox.
  cbn [Sandbox.createdAt Sandbox.updatedAt Sandbox.lastActivityAt].
  repeat split; try apply dateOf_falsy.
Qed.

(** X15: pagination resumes where the page ended.  For a positive limit
    and a page with more hits than that, where the last retained hit has
    scalars as its sort value and its id, the [nextCursor] returned is
    accepted by [buildSearchBody], and the [search_after] of the request
    is the pair of that sort value and id, a missing one as [null]. *)
Theorem nextCursor_resumes response limit sortField sortDirection physical lastItem :
  (0 < limit)%Z -> (limit < Z.of_nat (List.length (pageOf response)))%Z ->
  nth_error (pageOf response) (Z.to_nat limit - 1) = Some lastItem ->
  getSortFieldMapping sortField = Ok physical ->
  scalar (get (propertyKey physical) (_source lastItem)) ->
  scalar (get (js "id") (_source lastItem)) ->
  exists result cursor,
    respond response limit sortField sortDirection = Ok result /\
    nextCursor result = Some cursor /\
    forall defaultField defaultDirection query limit' field direction,
    exists body,
      buildSearchBody defaultField defaultDirection query limit' (Some cursor)
        field direction = Ok body /\
      Search_RequestBody.search_after body
      = Some (JArr [revived (get (propertyKey physical) (_source lastItem));
                    revived (get (js "id") (_source lastItem))]).
Proof.
  intros Hpos Hmore Hnth Hf Hv Hid.
  rewrite processSearchResponse_eq.
  destruct (Z.gtb_spec (Z.of_nat (List.length (pageOf response))) limit) as [_ | Hle];
    [| lia].
  rewrite slice0_firstn by lia.
  destruct (@lastOf_firstn _ (pageOf response) (Z.to_nat limit)) as (x & Hx & ->); [lia |].
  assert (x = lastItem) by congruence. subst x.
  unfold getSortFieldMapping in Hf. injection Hf as <-.
  eexists _, _. split; [reflexivity |]. split; [reflexivity |].
  intros defaultField defaultDirection query limit' field direction.
  apply buildSearchBody_accepts.
  - apply pairCursor_not_empty.
  - now apply decodeCursor_pairCursor.
Qed.

End ResultMapperMore.

Lemma processSearchResponse_missing_hits_witness :
  processSearchResponse Sample.newSandbox {| body_hits := None |} 5
    SandboxSearchSortField.NAME (js "asc")
  = Ok {| items := []; nextCursor := None |}.
Proof.
  apply processSearchResponse_missing_hits. left. reflexivity.
Defined.

Lemma mapSourceToSandbox_reads_mapping_witness :
  mapSourceToSandbox Sample.newSandbox Specimen.document
  = mapSourceToSandbox Sample.newSandbox Specimen.scored.
Proof.
  apply mapSourceToSandbox_reads_mapping.
  intros field Hin. cbn in Hin.
  decompose [or] Hin; try contradiction; subst field; reflexivity.
Defined.

Lemma nextCursor_resumes_witness :
  exists result cursor,
    processSearchResponse Sample.newSandbox Sample.response 2
      SandboxSearchSortField.MEMORY (js "asc") = Ok result /\
    nextCursor result = Some cursor /\
    exists body,
      buildSearchBody (js "createdAt") (js "desc") (QBool [] None) 2 (Some cursor)
        (Some SandboxSearchSortField.MEMORY) (Some (js "asc")) = Ok body /\
      Search_RequestBody.search_after body
      = Some (JArr [JNum (Num 4 0); JStr (js "b")]).
Proof.
  destruct (@nextCursor_resumes Sample.newSandbox Sample.response 2
              SandboxSearchSortField.MEMORY (js "asc") (Mapped (js "mem"))
              (Sample.hit "b" 4))
    as (result & cursor & Hr & Hc & Hb).
  - reflexivity.
  - reflexivity.
  - reflexivity.
  - reflexivity.
  - split; [reflexivity | discriminate].
  - repeat constructor.
  - exists result, cursor. split; [exact Hr |]. split; [exact Hc |].
    exact (Hb (js "createdAt") (js "desc") (QBool [] None) 2%Z
              (Some SandboxSearchSortField.MEMORY) (Some (js "asc"))).
Defined.

(** * More on the entry point *)

Lemma buildSearchQuery_outcome ERROR DESTROYED toLowerCase organizationId filters :
  (datesValid filters /\
   exists q, buildSearchQuery ERROR DESTROYED toLowerCase organizationId filters = Ok q) \/
  (~ datesValid filters /\
   buildSearchQuery ERROR DESTROYED toLowerCase organizationId filters
   = Throw (RangeError (js "Invalid time value"))).
Proof.
  destruct (buildSearchQuery ERROR DESTROYED toLowerCase organizationId filters)
    as [q | error] eqn:E.
  - left. split; [| eauto].
    destruct (buildSearchQuery_inv _ _ _ _ _ E) as (c1 & c2 & H1 & H2 & _).
    unfold datesValid, dateRange in *.
    destruct (filters?.createdAtAfter) as [[|] |], (filters?.createdAtBefore) as [[|] |],
      (filters?.lastEventAfter) as [[|] |], (filters?.lastEventBefore) as [[|] |];
      cbn in H1, H2; try discriminate; repeat split; discriminate.
  - right. split.
    + intros Hvalid.
      destruct (buildSearchQuery_returns ERROR DESTROYED toLowerCase organizationId Hvalid)
        as [q Hq].
      congruence.
    + f_equal. rewrite buildSearchQuery_clauses in E.
      destruct (dateRange (js "createdAt") _ _) as [c1 | e1] eqn:E1; cbn [bind] in E.
      * destruct (dateRange (js "lastActivityAt") _ _) as [c2 | e2] eqn:E2; cbn [bind] in E.
        -- discriminate.
        -- injection E as <-. now apply dateRange_Throw in E2.
      * injection E as <-. now apply dateRange_Throw in E1.
Qed.

Lemma buildSearchBody_outcome defaultField defaultDirection query limit cursor
    sortField sortDirection :
  (exists body,
     buildSearchBody defaultField defaultDirection query limit cursor sortField sortDirection
     = Ok body) \/
  (exists c,
     cursor = Some c /\ c <> [] /\ decodeCursor c = None /\
     buildSearchBody defaultField defaultDirection query limit cursor sortField sortDirection
     = Throw (BadRequestException (js "Invalid cursor provided: " ++ c))).
Proof.
  destruct cursor as [[| x c] |].
  - left. eexists. reflexivity.
  - destruct (decodeCursor (x :: c)) as [v |] eqn:Hd.
    + left.
      destruct (@buildSearchBody_accepts defaultField defaultDirection query limit (x :: c)
                  sortField sortDirection v) as (body & Hb & _);
        [discriminate | exact Hd | eauto].
    + right. exists (x :: c). repeat split; [discriminate | exact Hd |].
      apply buildSearchBody_rejects; [discriminate | exact Hd].
  - left. eexists. reflexivity.
Qed.

Section SearchMore.

Variable ERROR DESTROYED : jsstring.
Variable toLowerCase : jsstring -> jsstring.
Variable DEFAULT_FIELD DEFAULT_DIRECTION : jsstring.
Variable newSandbox : JSValue -> JSValue -> Sandbox.t.
Variable executeSearch : Search_RequestBody.t -> result SearchResponse.

Local Abbreviation find :=
  (search ERROR DESTROYED toLowerCase DEFAULT_FIELD DEFAULT_DIRECTION newSandbox
     executeSearch).

(** X16: how [search] fails.  An empty organization id is refused first;
    then an invalid date among the filters is a RangeError; then a
    non-empty cursor that does not decode is a BadRequestException; and
    any other error that [search] throws is one that the index call
    threw: the adapter adds no failure of its own after the request is
    built. *)
Theorem search_failures organizationId cursor limit filters :
  (organizationId = [] ->
   find organizationId cursor limit filters
   = Throw (JsError (js "Organization ID is required"))) /\
  (organizationId <> [] -> ~ datesValid filters ->
   find organizationId cursor limit filters
   = Throw (RangeError (js "Invalid time value"))) /\
  (forall c,
     organizationId <> [] -> datesValid filters ->
     cursor = Some c -> c <> [] -> decodeCursor c = None ->
     find organizationId cursor limit filters
     = Throw (BadRequestException (js "Invalid cursor provided: " ++ c))) /\
  (forall error,
     find organizationId cursor limit filters = Throw error ->
     error = JsError (js "Organization ID is required") \/
     error = RangeError (js "Invalid time value") \/
     (exists c, cursor = Some c /\
                error = BadRequestException (js "Invalid cursor provided: " ++ c)) \/
     exists body, executeSearch body = Throw error).
Proof.
  unfold search. destruct organizationId as [| x organizationId'].
  { repeat split; try congruence. intros error [= <-]. now left. }
  remember (x :: organizationId') as organizationId eqn:Horg.
  destruct (buildSearchQuery_outcome ERROR DESTROYED toLowerCase organizationId filters)
    as [[Hvalid [q Hq]] | [Hinvalid Hq]]; rewrite Hq; cbn [bind].
  2: { repeat split; try congruence; try tauto. intros error [= <-]. right. now left. }
  match goal with
  | |- context [buildSearchBody ?a ?b ?c ?d ?e ?f ?g] =>
      destruct (buildSearchBody_outcome a b c d e f g)
        as [[body Hb] | (c' & Hc & Hne & Hd & Hb)]; rewrite Hb; cbn [bind]
  end.
  - repeat split; try congruence; try tauto.
    + intros c _ _ -> Hne Hd.
      match type of Hb with
      | buildSearchBody ?a ?b ?q ?l _ ?f ?g = _ =>
          rewrite (@buildSearchBody_rejects a b q l c f g Hne Hd) in Hb
      end.
      discriminate.
    + intros error.
      destruct (executeSearch body) as [response | e] eqn:He; cbn [bind].
      * rewrite processSearchResponse_eq. discriminate.
      * intros [= <-]. right. right. right. eauto.
  - repeat split; try congruence; try tauto.
    intros error [= <-]. right. right. left. eauto.
Qed.

(** X17: [search] returns no more items than [limit], for a limit of zero
    or more, whatever the index answers, and it returns a [nextCursor]
    only together with at least one item. *)
Theorem search_page_size organizationId cursor limit filters result :
  find organizationId cursor limit filters = Ok result ->
  ((0 <= limit)%Z -> (Z.of_nat (List.length (items result)) <= limit)%Z) /\
  (nextCursor result <> None -> items result <> []).
Proof.
  unfold search. destruct organizationId as [| x organizationId']; [discriminate |].
  destruct (buildSearchQuery _ _ _ _ _) as [q |]; [| discriminate]. cbn [bind].
  destruct (buildSearchBody _ _ _ _ _ _ _) as [body |]; [| discriminate]. cbn [bind].
  destruct (executeSearch body) as [response |]; [| discriminate]. cbn [bind].
  rewrite processSearchResponse_eq. intros [= <-]. cbn [items nextCursor].
  rewrite length_map.
  pose proof (slice0_length (pageOf response) limit) as [Hlen Hlim].
  destruct (Z.gtb_spec (Z.of_nat (List.length (pageOf response))) limit) as [Hmore | Hle].
  - split; [exact Hlim |]. intros Hnext.
    destruct (slice0 (pageOf response) limit) as [| y ys]; [| discriminate].
    cbn in Hnext. congruence.
  - split; [lia |]. congruence.
Qed.

(** X18: the sort of a search defaults.  A [sort] that is undefined or
    the empty string is the default sort field, an [order] that is
    undefined or the empty string is the default direction, and absent
    filters are a filters object with no property set. *)
Theorem search_defaults organizationId cursor limit (f : SandboxSearchFilters) :
  find organizationId cursor limit (Some (with_sort None f))
  = find organizationId cursor limit (Some (with_sort (Some DEFAULT_FIELD) f)) /\
  find organizationId cursor limit (Some (with_sort (Some []) f))
  = find organizationId cursor limit (Some (with_sort None f)) /\
  find organizationId cursor limit (Some (with_order None f))
  = find organizationId cursor limit (Some (with_order (Some DEFAULT_DIRECTION) f)) /\
  find organizationId cursor limit (Some (with_order (Some []) f))
  = find organizationId cursor limit (Some (with_order None f)) /\
  find organizationId cursor limit None
  = find organizationId cursor limit (Some emptyFilters).
Proof.
  assert (Hd : forall d, orDefault (Some d) d = d) by (intros [| c d]; reflexivity).
  unfold search. destruct organizationId as [| x organizationId']; [repeat split |].
  repeat split; try reflexivity.
  - rewrite !buildSearchQuery_clauses. cbn [opt_chain with_sort sort order]. rewrite Hd.
    reflexivity.
  - rewrite !buildSearchQuery_clauses. cbn [opt_chain with_order sort order]. rewrite Hd.
    reflexivity.
Qed.

End SearchMore.

Lemma search_failures_witness :
  search Sample.ERROR Sample.DESTROYED Sample.toLowerCase (js "createdAt") (js "desc")
    Sample.newSandbox Specimen.executeSearch (js "org-1") (Some (js "%%%")) 2
    (Some Specimen.invalidDate)
  = Throw (RangeError (js "Invalid time value")) /\
  search Sample.ERROR Sample.DESTROYED Sample.toLowerCase (js "createdAt") (js "desc")
    Sample.newSandbox Specimen.executeSearch (js "org-1") (Some (js "%%%")) 2
    (Some Sample.filters)
  = Throw (BadRequestException (js "Invalid cursor provided: %%%")).
Proof.
  split.
  - apply search_failures.
    + discriminate.
    + intros (_ & H & _). now apply H.
  - apply (proj1 (proj2 (proj2 (search_failures Sample.ERROR Sample.DESTROYED
                                  Sample.toLowerCase (js "createdAt") (js "desc")
                                  Sample.newSandbox Specimen.executeSearch (js "org-1")
                                  (Some (js "%%%")) 2 (Some Sample.filters))))).
    + discriminate.
    + repeat split; discriminate.
    + reflexivity.
    + discriminate.
    + reflexivity.
Defined.

Lemma search_page_size_witness :
  exists result,
    search Sample.ERROR Sample.DESTROYED Sample.toLowerCase (js "createdAt") (js "desc")
      Sample.newSandbox Specimen.executeSearch (js "org-1") None 2 (Some Sample.filters)
    = Ok result /\
    (Z.of_nat (List.length (items result)) <= 2)%Z.
Proof.
  eexists. split; [reflexivity |].
  apply (@search_page_size Sample.ERROR Sample.DESTROYED Sample.toLowerCase
           (js "createdAt") (js "desc") Sample.newSandbox Specimen.executeSearch
           (js "org-1") None 2 (Some Sample.filters) _ eq_refl).
  discriminate.
Defined.

(** * More on the index lifecycle *)

Section IndexLifecycleMore.

Variable World : Type.
Variable indices_exists : jsstring -> World -> result bool * World.
Variable indices_create : jsstring -> IndexBody -> World -> result unit * World.
Variable indexName : jsstring.

Local Abbreviation ensure := (createIndex indices_exists indices_create indexName).

(** X19: [createIndex] rethrows every other error as it is: an error of
    the existence check, or of the creation call, that is no
    already-exists response comes out unchanged; and a creation that
    succeeds makes [createIndex] return normally. *)
Theorem createIndex_rethrows (w : World) :
  (forall error w1,
     indices_exists indexName w = (Throw error, w1) -> isAlreadyExists error = false ->
     ensure w = (Throw error, w1)) /\
  (forall error w1 w2,
     indices_exists indexName w = (Ok false, w1) ->
     indices_create indexName sandboxIndexBody w1 = (Throw error, w2) ->
     isAlreadyExists error = false ->
     ensure w = (Throw error, w2)) /\
  (forall w1 w2,
     indices_exists indexName w = (Ok false, w1) ->
     indices_create indexName sandboxIndexBody w1 = (Ok tt, w2) ->
     ensure w = (Ok tt, w2)).
Proof.
  unfold createIndex. split; [| split].
  - intros error w1 -> ->. reflexivity.
  - intros error w1 w2 -> -> ->. reflexivity.
  - intros w1 w2 -> ->. reflexivity.
Qed.

(** X20: [createIndex] asks the service to create the index only after
    the existence check has answered that there is none, and then once:
    where the check answers that the index exists, or fails, the service
    is left as the check left it; where it answers that there is none,
    the service is left as the one creation call left it. *)
Theorem createIndex_creates_after_check (w : World) :
  (fst (indices_exists indexName w) <> Ok false ->
   snd (ensure w) = snd (indices_exists indexName w)) /\
  (fst (indices_exists indexName w) = Ok false ->
   snd (ensure w)
   = snd (indices_create indexName sandboxIndexBody (snd (indices_exists indexName w)))).
Proof.
  unfold createIndex.
  destruct (indices_exists indexName w) as [[[] | error] w1]; cbn [fst snd]; split;
    try congruence; intros _.
  - destruct (indices_create indexName sandboxIndexBody w1) as [[[] | error] w2];
      [reflexivity |]. destruct (isAlreadyExists error); reflexivity.
  - destruct (isAlreadyExists error); reflexivity.
Qed.

End IndexLifecycleMore.

Lemma createIndex_rethrows_witness :
  fst (createIndex MemoryIndex.indices_exists MemoryIndex.indices_create
         (js "sandboxes") Sample.unreachable)
  = Throw (JsError (js "connect ECONNREFUSED")).
Proof.
  erewrite (proj1 (createIndex_rethrows MemoryIndex.indices_exists
                     MemoryIndex.indices_create (js "sandboxes") Sample.unreachable));
    reflexivity.
Defined.

Lemma createIndex_creates_after_check_witness :
  MemoryIndex.calls
    (snd (createIndex MemoryIndex.indices_exists MemoryIndex.indices_create
            (js "sandboxes") Sample.present))
  = [MemoryIndex.Exists (js "sandboxes")].
Proof.
  rewrite (proj1 (createIndex_creates_after_check MemoryIndex.indices_exists
                    MemoryIndex.indices_create (js "sandboxes") Sample.present)).
  - reflexivity.
  - discriminate.
Defined.

(** * More on the cursor *)

Lemma base64_encode_text (bytes : list N) :
  Forall (fun c => In c Base64.alphabet \/ c = Base64.pad) (Base64.encode bytes) /\
  (exists groups, List.length (Base64.encode bytes) = 4 * groups)%nat.
Proof.
  assert (Hchar : forall x, In (Base64.char x) Base64.alphabet \/ Base64.char x = Base64.pad).
  { intros x. unfold Base64.char.
    destruct (nth_in_or_default (N.to_nat x) Base64.alphabet Base64.pad); auto. }
  induction bytes as [| a | a b | a b c rest [IH [k Hk]]] using list_ind3;
    cbn [Base64.encode].
  - split; [constructor | now exists 0%nat].
  - split; [| now exists 1%nat].
    repeat apply Forall_cons; try apply Forall_nil; try apply Hchar; now right.
  - split; [| now exists 1%nat].
    repeat apply Forall_cons; try apply Forall_nil; try apply Hchar; now right.
  - split.
    + repeat apply Forall_cons; try apply Hchar. exact IH.
    + exists (S k). cbn [List.length]. lia.
Qed.

Section CursorScope.

Variable DEFAULT_FIELD DEFAULT_DIRECTION : jsstring.

(** X21: the cursor decides nothing but the position.  Two requests
    that [buildSearchBody] builds from the same query, limit and sort
    parameters with different cursors (or with one and without) carry the
    same query, the same sort keys and the same size: whatever JSON value
    a cursor decodes to, it reaches [search_after] only. *)
Theorem buildSearchBody_cursor_scope query limit cursor cursor' sortField sortDirection
    body body' :
  buildSearchBody DEFAULT_FIELD DEFAULT_DIRECTION query limit cursor
    sortField sortDirection = Ok body ->
  buildSearchBody DEFAULT_FIELD DEFAULT_DIRECTION query limit cursor'
    sortField sortDirection = Ok body' ->
  Search_RequestBody.query body' = Search_RequestBody.query body /\
  Search_RequestBody.sort body' = Search_RequestBody.sort body /\
  Search_RequestBody.size body' = Search_RequestBody.size body.
Proof.
  intros H H'. apply buildSearchBody_inv in H. apply buildSearchBody_inv in H'.
  destruct H as (-> & -> & -> & _). destruct H' as (-> & -> & -> & _). auto.
Qed.

End CursorScope.

Section CursorText.

Variable newSandbox : JSValue -> JSValue -> Sandbox.t.

(** X22: a [nextCursor] that [processSearchResponse] returns is base64
    text: characters of the base64 alphabet and [=] only, in groups of
    four, and never the empty string. *)
Theorem processSearchResponse_cursor_text response limit sortField sortDirection
    result cursor :
  processSearchResponse newSandbox response limit sortField sortDirection = Ok result ->
  nextCursor result = Some cursor ->
  base64Text cursor.
Proof.
  rewrite processSearchResponse_eq. intros [= <-]. cbn [nextCursor].
  destruct (Z.of_nat (List.length (pageOf response)) >? limit)%Z; [| discriminate].
  destruct (lastOf (slice0 (pageOf response) limit)) as [lastItem |]; [| discriminate].
  cbn [option_map]. intros [= <-].
  unfold base64Text. split; [| split].
  - apply base64_encode_text.
  - apply base64_encode_text.
  - apply pairCursor_not_empty.
Qed.

End CursorText.

Lemma buildSearchBody_cursor_scope_witness :
  exists body body',
    buildSearchBody (js "createdAt") (js "desc") (QBool [] None) 10 None
      (Some SandboxSearchSortField.MEMORY) (Some (js "asc")) = Ok body /\
    buildSearchBody (js "createdAt") (js "desc") (QBool [] None) 10 (Some (js "WzFd"))
      (Some SandboxSearchSortField.MEMORY) (Some (js "asc")) = Ok body' /\
    Search_RequestBody.query body' = Search_RequestBody.query body /\
    Search_RequestBody.sort body' = Search_RequestBody.sort body /\
    Search_RequestBody.size body' = Search_RequestBody.size body.
Proof.
  eexists. eexists. split; [reflexivity |]. split; [reflexivity |].
  apply (@buildSearchBody_cursor_scope (js "createdAt") (js "desc") (QBool [] None) 10
           None (Some (js "WzFd")) (Some SandboxSearchSortField.MEMORY) (Some (js "asc")));
    reflexivity.
Defined.

Lemma processSearchResponse_cursor_text_witness :
  exists result cursor,
    processSearchResponse Sample.newSandbox Sample.response 2
      SandboxSearchSortField.MEMORY (js "asc") = Ok result /\
    nextCursor result = Some cursor /\
    base64Text cursor.
Proof.
  eexists. eexists. split; [reflexivity |]. split; [reflexivity |].
  eapply (@processSearchResponse_cursor_text Sample.newSandbox Sample.response 2
            SandboxSearchSortField.MEMORY (js "asc")); reflexivity.
Defined.

(** * The migration *)

Module MigrationFacts.

Import Migration.
Local Open Scope string_scope.

(** ** Tables of a database *)

Lemma find_set name name' t db :
  find_table name' (set_table name t db)
  = if String.eqb name name'
    then match find_table name db with Some _ => Some t | None => None end
    else find_table name' db.
Proof.
  induction db as [| [n t0] db IH]; cbn [set_table find_table].
  - now destruct (String.eqb name name').
  - destruct (String.eqb_spec n name) as [-> | Hn]; cbn [find_table].
    + destruct (String.eqb_spec name name') as [-> | Hne].
      * rewrite ?String.eqb_refl. reflexivity.
      * reflexivity.
    + rewrite IH. destruct (String.eqb_spec name name') as [<- | Hne].
      * destruct (String.eqb_spec n name); [contradiction | reflexivity].
      * reflexivity.
Qed.

Lemma apply_all_other name ss t :
  (forall s, In s ss -> table_of s <> name) -> apply_all name ss t = Some t.
Proof.
  induction ss as [| s ss IH]; intros H; cbn [apply_all]; [reflexivity |].
  destruct (String.eqb_spec (table_of s) name) as [E | _].
  - exfalso. apply (H s); [now left | exact E].
  - apply IH. intros s' Hs'. apply H. now right.
Qed.

(** A migration statement by statement is a migration table by table. *)
Lemma run_tables ss : forall db,
  (forall s, In s ss -> find_table (table_of s) db <> None) ->
  (forall name t, find_table name db = Some t -> apply_all name ss t <> None) ->
  exists db',
    run ss db = Some db' /\
    forall name,
      find_table name db'
      = match find_table name db with
        | Some t => apply_all name ss t
        | None => None
        end.
Proof.
  induction ss as [| s ss IH]; intros db Hin Hall.
  - exists db. split; [reflexivity |]. intros name. cbn [apply_all].
    now destruct (find_table name db).
  - cbn [run]. unfold query.
    destruct (find_table (table_of s) db) as [t |] eqn:Ef;
      [| exfalso; apply (Hin s); [now left | exact Ef]].
    pose proof (Hall _ _ Ef) as Hs. cbn [apply_all] in Hs.
    rewrite String.eqb_refl in Hs.
    destruct (apply s t) as [t1 |] eqn:Ea; [| contradiction].
    destruct (IH (set_table (table_of s) t1 db)) as (db' & Hrun & Hfind).
    + intros s' Hs'. rewrite find_set, Ef.
      destruct (String.eqb (table_of s) (table_of s')); [discriminate |].
      apply Hin. now right.
    + intros name t'. rewrite find_set, Ef.
      destruct (String.eqb_spec (table_of s) name) as [<- | Hne].
      * intros [= <-]. exact Hs.
      * intros Ef'. pose proof (Hall _ _ Ef') as H'. cbn [apply_all] in H'.
        destruct (String.eqb_spec (table_of s) name); [contradiction | exact H'].
    + exists db'. split; [exact Hrun |]. intros name. rewrite Hfind, find_set, Ef.
      cbn [apply_all].
      destruct (String.eqb_spec (table_of s) name) as [<- | Hne].
      * now rewrite Ef, Ea.
      * reflexivity.
Qed.

(** Two migrations of which the second undoes the first on each table. *)
Lemma run_round ss ss' db :
  (forall s, In s (ss ++ ss') -> find_table (table_of s) db <> None) ->
  (forall name t, find_table name db = Some t ->
     exists t1, apply_all name ss t = Some t1 /\ apply_all name ss' t1 = Some t) ->
  exists db1 db2,
    run ss db = Some db1 /\ run ss' db1 = Some db2 /\
    forall name, find_table name db2 = find_table name db.
Proof.
  intros Hin Hall.
  destruct (@run_tables ss db) as (db1 & Hrun1 & Hfind1).
  { intros s Hs. apply Hin, in_or_app. now left. }
  { intros name t Ef. destruct (Hall _ _ Ef) as (t1 & -> & _). discriminate. }
  destruct (@run_tables ss' db1) as (db2 & Hrun2 & Hfind2).
  { intros s Hs. rewrite Hfind1.
    destruct (find_table (table_of s) db) as [t |] eqn:Ef.
    - destruct (Hall _ _ Ef) as (t1 & -> & _). discriminate.
    - exfalso. apply (Hin s); [apply in_or_app; now right | exact Ef]. }
  { intros name t1. rewrite Hfind1.
    destruct (find_table name db) as [t |] eqn:Ef; [| discriminate].
    destruct (Hall _ _ Ef) as (t1' & -> & E2). intros [= <-]. rewrite E2. discriminate. }
  exists db1, db2. split; [exact Hrun1 |]. split; [exact Hrun2 |].
  intros name. rewrite Hfind2, Hfind1.
  destruct (find_table name db) as [t |] eqn:Ef; [| reflexivity].
  destruct (Hall _ _ Ef) as (t1 & -> & E2). exact E2.
Qed.

(** ** Columns and NULLs *)

Lemma has_column_alter c c' f t :
  (forall col, column_name (f col) = column_name col) ->
  has_column c (alter_column c' f t) = has_column c t.
Proof.
  intros Hf. unfold has_column, alter_column. cbn [columns].
  induction (columns t) as [| col cols IH]; cbn [map existsb]; [reflexivity |].
  rewrite IH. f_equal.
  destruct (String.eqb (column_name col) c'); [now rewrite Hf | reflexivity].
Qed.

Lemma has_column_add c c' t :
  has_column c (add_column c' t) = has_column c t || String.eqb c' c.
Proof.
  unfold has_column, add_column. cbn [columns]. rewrite existsb_app.
  cbn [existsb column_name]. now rewrite orb_false_r.
Qed.

Lemma has_column_drop c c' t :
  has_column c (drop_column c' t) = has_column c t && negb (String.eqb c c').
Proof.
  unfold has_column, drop_column. cbn [columns].
  induction (columns t) as [| col cols IH]; cbn [filter existsb]; [reflexivity |].
  destruct (String.eqb_spec (column_name col) c') as [E | E]; cbn [negb existsb];
    rewrite IH;
    (destruct (String.eqb_spec (column_name col) c) as [E' | E']; cbn [orb];
     [| reflexivity]).
  - rewrite <- E', E, String.eqb_refl. cbn [negb]. now rewrite andb_false_r.
  - rewrite <- E'. destruct (String.eqb_spec (column_name col) c'); [contradiction |].
    reflexivity.
Qed.

Lemma null_under_filled c c' v cell :
  null_under c (if null_under c' cell then (fst cell, Some v) else cell)
  = null_under c cell && negb (null_under c' cell).
Proof.
  destruct (null_under c' cell) eqn:E; cbn [negb].
  - unfold null_under. cbn [fst snd defined negb]. now rewrite !andb_false_r.
  - now rewrite andb_true_r.
Qed.

Lemma has_null_filled c c' v row :
  existsb (null_under c) (filled c' v row)
  = if String.eqb c c' then false else existsb (null_under c) row.
Proof.
  unfold filled. induction row as [| cell row IH]; cbn [map existsb].
  - now destruct (String.eqb c c').
  - rewrite IH, null_under_filled.
    destruct (String.eqb_spec c c') as [<- | Hne].
    + now rewrite andb_negb_r.
    + f_equal. unfold null_under.
      destruct (String.eqb_spec (fst cell) c) as [E | E]; [| reflexivity].
      destruct (String.eqb_spec (fst cell) c'); [congruence |].
      cbn [andb negb]. now rewrite andb_true_r.
Qed.

Lemma has_null_update c c' v t :
  has_null c (update_null c' v t) = if String.eqb c c' then false else has_null c t.
Proof.
  unfold has_null, update_null. cbn [rows].
  induction (rows t) as [| row rws IH]; cbn [map existsb].
  - now destruct (String.eqb c c').
  - rewrite IH, has_null_filled. now destruct (String.eqb c c').
Qed.

Lemma filled_id c v row : existsb (null_under c) row = false -> filled c v row = row.
Proof.
  unfold filled. induction row as [| cell row IH]; cbn [map existsb]; [reflexivity |].
  intros H. apply orb_false_iff in H. destruct H as [-> H]. now rewrite IH.
Qed.

Lemma filled_rows c v rws :
  existsb (existsb (null_under c)) rws = false -> map (filled c v) rws = rws.
Proof.
  induction rws as [| row rws IH]; cbn [map existsb]; [reflexivity |].
  intros H. apply orb_false_iff in H. destruct H as [Hrow H].
  now rewrite IH, filled_id.
Qed.

(** ** One statement at a time *)

Lemma step_other name s ss t :
  table_of s <> name -> apply_all name (s :: ss) t = apply_all name ss t.
Proof.
  intros H. cbn [apply_all].
  destruct (String.eqb_spec (table_of s) name); [contradiction | reflexivity].
Qed.

Lemma step_AddColumn name c ss t :
  has_column c t = false ->
  apply_all name (AddColumn name c :: ss) t = apply_all name ss (add_column c t).
Proof. intros H. cbn [apply_all table_of apply]. now rewrite String.eqb_refl, H. Qed.

Lemma step_DropColumn name c ss t :
  has_column c t = true ->
  apply_all name (DropColumn name c :: ss) t = apply_all name ss (drop_column c t).
Proof. intros H. cbn [apply_all table_of apply]. now rewrite String.eqb_refl, H. Qed.

Lemma step_DropNotNull name c ss t :
  has_column c t = true ->
  apply_all name (DropNotNull name c :: ss) t
  = apply_all name ss (alter_column c (with_not_null false) t).
Proof. intros H. cbn [apply_all table_of apply]. now rewrite String.eqb_refl, H. Qed.

Lemma step_SetNotNull name c ss t :
  has_column c t = true -> has_null c t = false ->
  apply_all name (SetNotNull name c :: ss) t
  = apply_all name ss (alter_column c (with_not_null true) t).
Proof.
  intros H H'. cbn [apply_all table_of apply]. now rewrite String.eqb_refl, H, H'.
Qed.

Lemma step_SetDefault name c v ss t :
  has_column c t = true ->
  apply_all name (SetDefault name c v :: ss) t
  = apply_all name ss (alter_column c (with_default (Some v)) t).
Proof. intros H. cbn [apply_all table_of apply]. now rewrite String.eqb_refl, H. Qed.

Lemma step_DropDefault name c ss t :
  has_column c t = true ->
  apply_all name (DropDefault name c :: ss) t
  = apply_all name ss (alter_column c (with_default None) t).
Proof. intros H. cbn [apply_all table_of apply]. now rewrite String.eqb_refl, H. Qed.

Lemma step_UpdateNull name c v ss t :
  has_column c t = true ->
  apply_all name (UpdateNull name c v :: ss) t = apply_all name ss (update_null c v t).
Proof. intros H. cbn [apply_all table_of apply]. now rewrite String.eqb_refl, H. Qed.

Lemma has_column_update c c' v t : has_column c (update_null c' v t) = has_column c t.
Proof. reflexivity. Qed.

Lemma has_null_alter c c' f t : has_null c (alter_column c' f t) = has_null c t.
Proof. reflexivity. Qed.

Ltac settle :=
  repeat first
    [ rewrite has_column_alter by reflexivity
    | rewrite has_column_update
    | rewrite has_column_drop
    | rewrite has_column_add
    | rewrite has_null_alter
    | rewrite has_null_update ].

(** ** The migration table by table *)

Lemma up_region t :
  lacks "snapshotManagerUrl" t -> lacks "snapshotManagerApiKeyHash" t ->
  apply_all "region" up t
  = Some (add_column "snapshotManagerApiKeyHash" (add_column "snapshotManagerUrl" t)).
Proof.
  intros [Hu _] [Hh _]. unfold up.
  rewrite step_AddColumn by exact Hu.
  rewrite step_AddColumn by (settle; now rewrite Hh).
  rewrite !step_other by (cbn [table_of]; discriminate).
  reflexivity.
Qed.

Lemma up_registry t :
  has_column "username" t = true -> has_column "password" t = true ->
  apply_all "docker_registry" up t
  = Some (alter_column "password" (with_not_null false)
            (alter_column "username" (with_not_null false) t)).
Proof.
  intros Hu Hp. unfold up.
  rewrite !step_other by (cbn [table_of]; discriminate).
  rewrite step_DropNotNull by exact Hu.
  rewrite step_DropNotNull by (settle; exact Hp).
  reflexivity.
Qed.

Lemma down_region t :
  has_column "snapshotManagerApiKeyHash" t = true ->
  has_column "snapshotManagerUrl" t = true ->
  apply_all "region" down t
  = Some (drop_column "snapshotManagerUrl" (drop_column "snapshotManagerApiKeyHash" t)).
Proof.
  intros Hh Hu. unfold down.
  rewrite step_DropColumn by exact Hh.
  rewrite step_DropColumn by (settle; now rewrite Hu).
  rewrite !step_other by (cbn [table_of]; discriminate).
  reflexivity.
Qed.

Lemma down_registry t :
  has_column "password" t = true -> has_column "username" t = true ->
  apply_all "docker_registry" down t = Some (MigrationOutcome.reverted t).
Proof.
  intros Hp Hu. unfold down.
  rewrite !step_other by (cbn [table_of]; discriminate).
  rewrite step_SetDefault by exact Hp.
  rewrite step_SetDefault by (settle; exact Hu).
  rewrite step_UpdateNull by (settle; exact Hp).
  rewrite step_UpdateNull by (settle; exact Hu).
  rewrite step_SetNotNull by (settle; first [exact Hp | reflexivity]).
  rewrite step_SetNotNull by (settle; first [exact Hu | reflexivity]).
  rewrite step_DropDefault by (settle; exact Hp).
  rewrite step_DropDefault by (settle; exact Hu).
  cbn [apply_all]. f_equal.
  unfold MigrationOutcome.reverted, alter_column, update_null. cbn [columns rows]. f_equal.
  - rewrite !map_map. apply map_ext. intros [n nn d].
    unfold MigrationOutcome.revert_column, with_default, with_not_null.
    cbn [column_name not_null column_default].
    destruct (String.eqb_spec n "password") as [-> | Hp']; [reflexivity |].
    destruct (String.eqb_spec n "username") as [-> | Hu']; [reflexivity |].
    apply String.eqb_neq in Hp'. apply String.eqb_neq in Hu'.
    repeat (cbn [column_name not_null column_default orb]; rewrite ?Hp', ?Hu').
    reflexivity.
  - now rewrite map_map.
Qed.

Lemma run_find ss : forall db db',
  run ss db = Some db' ->
  forall name,
    find_table name db'
    = match find_table name db with
      | Some t => apply_all name ss t
      | None => None
      end.
Proof.
  induction ss as [| s ss IH]; intros db db'; cbn [run apply_all].
  - intros [= <-] name. now destruct (find_table name db).
  - unfold query. destruct (find_table (table_of s) db) as [t |] eqn:Ef; [| discriminate].
    destruct (apply s t) as [t1 |] eqn:Ea; [| discriminate].
    intros Hrun name. rewrite (IH _ _ Hrun), find_set, Ef.
    destruct (String.eqb_spec (table_of s) name) as [<- | Hne].
    + now rewrite Ef, Ea.
    + reflexivity.
Qed.

(** ** Undoing *)

Lemma drop_add c t : lacks c t -> drop_column c (add_column c t) = t.
Proof.
  intros [Hc Hr]. destruct t as [cols rws].
  unfold drop_column, add_column, has_column in *. cbn [columns rows] in *. f_equal.
  - rewrite filter_app. cbn [filter column_name]. rewrite String.eqb_refl.
    cbn [negb]. rewrite app_nil_r.
    induction cols as [| col cols IH]; cbn [filter existsb] in *; [reflexivity |].
    apply orb_false_iff in Hc. destruct Hc as [E Hc]. rewrite E. cbn [negb].
    f_equal. now apply IH.
  - rewrite map_map.
    induction Hr as [| row rws Hrow _ IH]; cbn [map]; [reflexivity |].
    f_equal; [| exact IH].
    rewrite filter_app. cbn [filter fst]. rewrite String.eqb_refl.
    cbn [negb]. rewrite app_nil_r.
    induction Hrow as [| cell row Hcell _ IHr]; cbn [filter]; [reflexivity |].
    apply String.eqb_neq in Hcell. rewrite Hcell. cbn [negb]. now f_equal.
Qed.

Lemma lacks_add c c' t : lacks c t -> c' <> c -> lacks c (add_column c' t).
Proof.
  intros [Hc Hr] Hne. split.
  - rewrite has_column_add, Hc. cbn [orb]. now apply String.eqb_neq.
  - unfold add_column. cbn [rows]. apply Forall_map.
    eapply Forall_impl; [| exact Hr].
    intros row Hrow. apply Forall_app. split; [exact Hrow |].
    constructor; [exact Hne | constructor].
Qed.

Lemma region_round t :
  lacks "snapshotManagerUrl" t -> lacks "snapshotManagerApiKeyHash" t ->
  apply_all "region" down
    (add_column "snapshotManagerApiKeyHash" (add_column "snapshotManagerUrl" t))
  = Some t.
Proof.
  intros Hu Hh.
  rewrite down_region.
  - rewrite drop_add by (apply lacks_add; [exact Hh | discriminate]).
    now rewrite drop_add.
  - settle. apply orb_true_r.
  - settle. cbn [String.eqb Ascii.eqb Bool.eqb andb]. now rewrite !orb_true_r.
Qed.

Lemma registry_round t :
  strict "username" t -> strict "password" t ->
  MigrationOutcome.reverted
    (alter_column "password" (with_not_null false)
       (alter_column "username" (with_not_null false) t))
  = t.
Proof.
  intros (_ & Hcu & Hnu) (_ & Hcp & Hnp). destruct t as [cols rws].
  unfold MigrationOutcome.reverted, alter_column, has_null in *.
  cbn [columns rows] in *. f_equal.
  - rewrite !map_map. transitivity (map (fun col : Column => col) cols); [| apply map_id].
    apply map_ext_in. intros [n nn d] Hin.
    rewrite Forall_forall in Hcu, Hcp.
    specialize (Hcu _ Hin). specialize (Hcp _ Hin).
    cbn [column_name not_null column_default] in Hcu, Hcp.
    unfold MigrationOutcome.revert_column, with_not_null.
    destruct (String.eqb_spec n "username") as [-> | Hu].
    { destruct Hcu as [-> ->]; reflexivity. }
    destruct (String.eqb_spec n "password") as [-> | Hp].
    { destruct Hcp as [-> ->]; reflexivity. }
    apply String.eqb_neq in Hu. apply String.eqb_neq in Hp.
    repeat (cbn [column_name not_null column_default orb]; rewrite ?Hu, ?Hp).
    reflexivity.
  - rewrite <- (map_map (filled "password" "") (filled "username" "")).
    now rewrite (filled_rows _ _ _ Hnp), (filled_rows _ _ _ Hnu).
Qed.

Lemma run_head s ss db db' :
  run (s :: ss) db = Some db' -> exists t, find_table (table_of s) db = Some t.
Proof.
  cbn [run]. unfold query.
  destruct (find_table (table_of s) db) as [t |]; [eauto | discriminate].
Qed.

End MigrationFacts.

Section MigrationTheorems.

Import Migration MigrationFacts.
Local Open Scope string_scope.

(** X23: [down] undoes [up].  On a database whose [region] table has
    no [snapshotManagerUrl] and no [snapshotManagerApiKeyHash] column, and
    whose [docker_registry] table has [username] and [password] columns
    that are NOT NULL and without default, [up] succeeds, [down] succeeds
    on what [up] leaves, and every table is then as it was before: its
    columns, their nullability and defaults, and its rows. *)
Theorem up_then_down_restores db region registry :
  find_table "region" db = Some region ->
  find_table "docker_registry" db = Some registry ->
  lacks "snapshotManagerUrl" region ->
  lacks "snapshotManagerApiKeyHash" region ->
  strict "username" registry ->
  strict "password" registry ->
  exists db1 db2,
    run up db = Some db1 /\
    run down db1 = Some db2 /\
    forall name, find_table name db2 = find_table name db.
Proof.
  intros Hregion Hregistry Hurl Hhash Huser Hpass.
  apply run_round.
  - intros s Hs. cbn in Hs.
    repeat (destruct Hs as [<- | Hs]; [cbn [table_of]; congruence |]).
    contradiction.
  - intros name t Ef.
    destruct (String.eqb_spec name "region") as [-> | Hn1];
      [| destruct (String.eqb_spec name "docker_registry") as [-> | Hn2]].
    + assert (t = region) as -> by congruence.
      eexists. split; [now apply up_region | now apply region_round].
    + assert (t = registry) as -> by congruence.
      eexists. split; [apply up_registry; [apply Huser | apply Hpass] |].
      rewrite down_registry.
      * now rewrite registry_round.
      * settle. apply Hpass.
      * settle. apply Huser.
    + exists t. split; apply apply_all_other; intros s Hs; cbn in Hs;
        repeat (destruct Hs as [<- | Hs]; [cbn [table_of]; congruence |]);
        contradiction.
Qed.

(** X24: [down] succeeds whatever the registries hold.  On a database
    whose [region] table has the two snapshot manager columns and whose
    [docker_registry] table has [username] and [password] columns, of any
    nullability and default and with NULLs or without, [down] goes through:
    it leaves [docker_registry] with [username] and [password] NOT NULL
    and without default and with the empty string in place of each NULL
    under them, [region] without the two columns, and every other table
    as it was. *)
Theorem down_reverts db region registry :
  find_table "region" db = Some region ->
  find_table "docker_registry" db = Some registry ->
  has_column "snapshotManagerApiKeyHash" region = true ->
  has_column "snapshotManagerUrl" region = true ->
  has_column "password" registry = true ->
  has_column "username" registry = true ->
  exists db',
    run down db = Some db' /\
    find_table "docker_registry" db' = Some (MigrationOutcome.reverted registry) /\
    strict "username" (MigrationOutcome.reverted registry) /\
    strict "password" (MigrationOutcome.reverted registry) /\
    find_table "region" db'
    = Some (drop_column "snapshotManagerUrl"
              (drop_column "snapshotManagerApiKeyHash" region)) /\
    forall name,
      name <> "region" -> name <> "docker_registry" ->
      find_table name db' = find_table name db.
Proof.
  intros Hregion Hregistry Hhash Hurl Hpass Huser.
  destruct (@run_tables down db) as (db' & Hrun & Hfind).
  - intros s Hs. cbn in Hs.
    repeat (destruct Hs as [<- | Hs]; [cbn [table_of]; congruence |]).
    contradiction.
  - intros name t Ef.
    destruct (String.eqb_spec name "region") as [-> | Hn1];
      [| destruct (String.eqb_spec name "docker_registry") as [-> | Hn2]].
    + assert (t = region) as -> by congruence. now rewrite down_region.
    + assert (t = registry) as -> by congruence. now rewrite down_registry.
    + rewrite apply_all_other; [discriminate |].
      intros s Hs. cbn in Hs.
      repeat (destruct Hs as [<- | Hs]; [cbn [table_of]; congruence |]).
      contradiction.
  - exists db'. split; [exact Hrun |].
    split; [rewrite Hfind, Hregistry; now apply down_registry |].
    assert (Hstrict : forall c, c = "username" \/ c = "password" ->
                      has_column c registry = true ->
                      strict c (MigrationOutcome.reverted registry)).
    { intros c Hc Hhas. split; [| split].
      - rewrite <- Hhas. clear Hhas.
        unfold has_column, MigrationOutcome.reverted. cbn [columns].
        induction (columns registry) as [| col cols IH]; cbn [map existsb];
          [reflexivity |].
        rewrite IH. f_equal. unfold MigrationOutcome.revert_column.
        now destruct (_ || _).
      - unfold MigrationOutcome.reverted. cbn [columns]. apply Forall_map.
        apply Forall_forall. intros [n nn d] _. unfold MigrationOutcome.revert_column.
        cbn [column_name].
        destruct ((n =? "username") || (n =? "password"))%string eqn:E;
          cbn [column_name not_null column_default]; [auto |].
        intros ->. destruct Hc as [-> | ->]; cbn in E; discriminate.
      - unfold has_null, MigrationOutcome.reverted. cbn [rows].
        induction (rows registry) as [| row rws IH]; cbn [map existsb]; [reflexivity |].
        rewrite IH, orb_false_r, !has_null_filled.
        destruct Hc as [-> | ->]; reflexivity. }
    split; [apply Hstrict; auto |]. split; [apply Hstrict; auto |].
    split; [rewrite Hfind, Hregion; now apply down_region |].
    intros name Hn1 Hn2. rewrite Hfind.
    destruct (find_table name db) as [t |]; [| reflexivity].
    apply apply_all_other. intros s Hs. cbn in Hs.
    repeat (destruct Hs as [<- | Hs]; [cbn [table_of]; congruence |]).
    contradiction.
Qed.

(** X25: neither [up] nor [down] can be run twice in a row.  On what a
    successful [up] leaves, [up] is refused (the column it adds first is
    there already), and so is [down] on what a successful [down] leaves
    (the column it drops first is gone). *)
Theorem migration_not_repeatable db db' :
  (run up db = Some db' -> run up db' = None) /\
  (run down db = Some db' -> run down db' = None).
Proof.
  split; intros Hrun; pose proof (run_find _ _ Hrun "region") as Hfind;
    destruct (run_head _ _ _ Hrun) as [t Ef]; cbn [table_of] in Ef;
    rewrite Ef in Hfind;
    (destruct (find_table "region" db') as [t' |] eqn:Ef';
     [| cbn [run up down]; unfold query; cbn [table_of]; now rewrite Ef']);
    symmetry in Hfind.
  - unfold up in Hfind.
    destruct (has_column "snapshotManagerUrl" t) eqn:Hu;
      [cbn [apply_all table_of apply] in Hfind;
       rewrite String.eqb_refl, Hu in Hfind; discriminate |].
    rewrite step_AddColumn in Hfind by exact Hu.
    destruct (has_column "snapshotManagerApiKeyHash" (add_column "snapshotManagerUrl" t))
      eqn:Hh;
      [cbn [apply_all table_of apply] in Hfind;
       rewrite String.eqb_refl, Hh in Hfind; discriminate |].
    rewrite step_AddColumn in Hfind by exact Hh.
    rewrite !step_other in Hfind by (cbn [table_of]; discriminate).
    cbn [apply_all] in Hfind. injection Hfind as <-.
    cbn [run up]. unfold query. cbn [table_of]. rewrite Ef'. cbn [apply].
    settle. now rewrite String.eqb_refl, orb_true_r.
  - unfold down in Hfind.
    destruct (has_column "snapshotManagerApiKeyHash" t) eqn:Hh;
      [| cbn [apply_all table_of apply] in Hfind;
         rewrite String.eqb_refl, Hh in Hfind; discriminate].
    rewrite step_DropColumn in Hfind by exact Hh.
    destruct (has_column "snapshotManagerUrl" (drop_column "snapshotManagerApiKeyHash" t))
      eqn:Hu;
      [| cbn [apply_all table_of apply] in Hfind;
         rewrite String.eqb_refl, Hu in Hfind; discriminate].
    rewrite step_DropColumn in Hfind by exact Hu.
    rewrite !step_other in Hfind by (cbn [table_of]; discriminate).
    cbn [apply_all] in Hfind. injection Hfind as <-.
    cbn [run down]. unfold query. cbn [table_of]. rewrite Ef'. cbn [apply].
    settle. rewrite String.eqb_refl. cbn [negb]. now rewrite andb_false_r.
Qed.

End MigrationTheorems.

Lemma up_then_down_restores_witness :
  exists db1 db2,
    Migration.run Migration.up MigrationSample.before = Some db1 /\
    Migration.run Migration.down db1 = Some db2 /\
    forall name,
      Migration.find_table name db2 = Migration.find_table name MigrationSample.before.
Proof.
  eapply (@up_then_down_restores MigrationSample.before); try reflexivity.
  - split; [reflexivity |]. repeat (constructor; try (cbn; discriminate)).
  - split; [reflexivity |]. repeat (constructor; try (cbn; discriminate)).
  - split; [reflexivity |]. split; [| reflexivity].
    repeat apply Forall_cons; try apply Forall_nil; cbn; intros H;
      try discriminate H; now split.
  - split; [reflexivity |]. split; [| reflexivity].
    repeat apply Forall_cons; try apply Forall_nil; cbn; intros H;
      try discriminate H; now split.
Defined.

Lemma down_reverts_witness :
  exists db' registry,
    Migration.run Migration.down MigrationSample.after = Some db' /\
    Migration.find_table "docker_registry" db' = Some registry /\
    Migration.rows registry
    = [[("id", Some "1"); ("username", Some "bot"); ("password", Some "secret")];
       [("id", Some "2"); ("username", Some ""); ("password", Some "")]]%string.
Proof.
  destruct (@down_reverts MigrationSample.after _ _ eq_refl eq_refl eq_refl eq_refl
              eq_refl eq_refl) as (db' & Hrun & Hfind & _).
  exists db'. eexists. split; [exact Hrun |]. split; [exact Hfind |]. reflexivity.
Defined.

Lemma migration_not_repeatable_witness :
  exists db',
    Migration.run Migration.up MigrationSample.before = Some db' /\
    Migration.run Migration.up db' = None.
Proof.
  eexists. split; [reflexivity |].
  eapply (proj1 (migration_not_repeatable MigrationSample.before _)). reflexivity.
Defined.
